(** * PISA histogram containers: [Map] and [MapSet]

    A shallow embedding of [pisa/core/map.py].  Python objects become records,
    methods become functions that return a [result] (a value or the exception
    the method raises), and in-place updates of an object are explicit state
    passing: a mutator returns the updated record.

    The numeric payload is a numpy array.  Arrays are kept as a shape and the
    row-major list of their items; items are IEEE-754 binary64 numbers
    ([spec_float] at precision 53) or numbers with an uncertainty as produced
    by the [uncertainties] package (a nominal value and a standard
    deviation). *)

From Stdlib Require Import ZArith List String Ascii Bool Lia PeanoNat.
From Stdlib Require Import Floats.SpecFloat.
Import ListNotations.

Local Open Scope string_scope.
Local Open Scope list_scope.
Local Open Scope nat_scope.

(* ================================================================== *)
(** ** Exceptions and results *)

Inductive exn : Type :=
| TypeError (msg : string)
| ValueError (msg : string)
| AssertionError (msg : string)
| IndexError (msg : string)
| AttributeError (msg : string)
| NotImplementedError (msg : string).

Inductive result (A : Type) : Type :=
| Ok (a : A)
| Raise (e : exn).

Arguments Ok {A} a.
Arguments Raise {A} e.

Definition bind {A B : Type} (r : result A) (k : A -> result B) : result B :=
  match r with
  | Ok a => k a
  | Raise e => Raise e
  end.

Notation "x <- r ;; k" := (bind r (fun x => k))
  (at level 61, r at next level, right associativity).
Notation "r ;;; k" := (bind r (fun _ => k))
  (at level 61, right associativity).

(** [[f(x) for x in xs]] where [f] may raise: the first exception aborts the
    whole comprehension. *)
Fixpoint mapM {A B : Type} (f : A -> result B) (xs : list A) : result (list B) :=
  match xs with
  | [] => Ok []
  | x :: xs' => y <- f x ;; ys <- mapM f xs' ;; Ok (y :: ys)
  end.

(** The double-quote character, used inside error messages. *)
Definition dquote : string := String (ascii_of_nat 34) EmptyString.

(* ================================================================== *)
(** ** Floating-point numbers (numpy float64) *)

Definition float : Type := spec_float.

Definition prec : Z := 53.
Definition emax : Z := 1024.

Definition fzero : float := S754_zero false.
Definition fnan : float := S754_nan.
Definition float_of_Z (z : Z) : float := binary_normalize prec emax z 0 false.

(** [x == y] and [x < y] on float64 (false whenever a NaN is involved). *)
Definition feqb (x y : float) : bool := SFeqb x y.
Definition fltb (x y : float) : bool := SFltb x y.

(** [np.sqrt] on one float64 item: NaN for a negative argument. *)
Definition fsqrt (x : float) : float := SFsqrt prec emax x.

(** A number with uncertainty: nominal value and standard deviation. *)
Definition ufloat : Type := (float * float)%type.

Definition nominal_value (u : ufloat) : float := fst u.
Definition std_dev (u : ufloat) : float := snd u.

(* ================================================================== *)
(** ** numpy arrays *)

Record ndarray (A : Type) : Type := mk_ndarray {
  nd_shape : list nat;
  nd_data : list A
}.

Arguments mk_ndarray {A} nd_shape nd_data.
Arguments nd_shape {A} n.
Arguments nd_data {A} n.

Definition prod_shape (s : list nat) : nat := fold_right Nat.mul 1 s.

Definition nd_map {A B : Type} (f : A -> B) (a : ndarray A) : ndarray B :=
  mk_ndarray (nd_shape a) (map f (nd_data a)).

(** Every numpy array holds as many items as its shape says. *)
Definition nd_wf {A : Type} (a : ndarray A) : Prop :=
  List.length (nd_data a) = prod_shape (nd_shape a).

(** A scalar seen as a zero-dimensional array. *)
Definition nd_scalar {A : Type} (x : A) : ndarray A := mk_ndarray [] [x].

(** [np.all(a)] for an array of truth values. *)
Definition np_all (a : ndarray bool) : bool := forallb (fun b => b) (nd_data a).

Fixpoint list_eqb {A : Type} (eqb : A -> A -> bool) (xs ys : list A) : bool :=
  match xs, ys with
  | [], [] => true
  | x :: xs', y :: ys' => eqb x y && list_eqb eqb xs' ys'
  | _, _ => false
  end.

Definition shape_eqb (s t : list nat) : bool := list_eqb Nat.eqb s t.

(** *** Broadcasting *)

(** Shapes are aligned on their last axis; a missing leading axis counts
    as an axis of length one. *)
Definition pad_shape (n : nat) (s : list nat) : list nat :=
  repeat 1 (n - List.length s) ++ s.

Fixpoint broadcast_aligned (s t : list nat) : option (list nat) :=
  match s, t with
  | [], [] => Some []
  | a :: s', b :: t' =>
      match broadcast_aligned s' t' with
      | Some r =>
          if a =? b then Some (a :: r)
          else if a =? 1 then Some (b :: r)
          else if b =? 1 then Some (a :: r)
          else None
      | None => None
      end
  | _, _ => None
  end.

Definition broadcast_shapes (s t : list nat) : option (list nat) :=
  let n := Nat.max (List.length s) (List.length t) in
  broadcast_aligned (pad_shape n s) (pad_shape n t).

(** [chunks k n d]: the first [n] consecutive blocks of [k] items of [d]. *)
Fixpoint chunks {A : Type} (k n : nat) (d : list A) : list (list A) :=
  match n with
  | O => []
  | S n' => firstn k d :: chunks k n' (skipn k d)
  end.

(** Stretch row-major data of shape [src] to shape [tgt] (same rank, every
    axis of [src] either equal to the one of [tgt] or of length one). *)
Fixpoint broadcast_data {A : Type} (src tgt : list nat) (d : list A) : list A :=
  match src, tgt with
  | s :: src', t :: tgt' =>
      if s =? t
      then List.concat (map (broadcast_data src' tgt') (chunks (prod_shape src') s d))
      else List.concat (repeat (broadcast_data src' tgt' d) t)
  | _, _ => d
  end.

Fixpoint map2 {A B C : Type} (f : A -> B -> C) (xs : list A) (ys : list B) : list C :=
  match xs, ys with
  | x :: xs', y :: ys' => f x y :: map2 f xs' ys'
  | _, _ => []
  end.

(** An item-wise binary numpy operation.  Shapes that cannot be broadcast
    raise numpy's [ValueError]. *)
Definition nd_zip {A B C : Type} (f : A -> B -> C)
           (a : ndarray A) (b : ndarray B) : result (ndarray C) :=
  match broadcast_shapes (nd_shape a) (nd_shape b) with
  | Some r =>
      let n := List.length r in
      Ok (mk_ndarray r
            (map2 f (broadcast_data (pad_shape n (nd_shape a)) r (nd_data a))
                    (broadcast_data (pad_shape n (nd_shape b)) r (nd_data b))))
  | None => Raise (ValueError "operands could not be broadcast together")
  end.

(** *** Indexing *)

(** One component of an index tuple: an integer or a slice [lo:hi]. *)
Inductive index_item : Type :=
| IInt (i : nat)
| ISlice (lo hi : nat).

(** What Python code may pass as [idx]: a tuple of components (a
    [Sequence]), or a lone integer or slice, which is not a [Sequence] and
    has no [len]. *)
Inductive py_index : Type :=
| ITuple (items : list index_item)
| ISingle (item : index_item).

(** Python clamps the bounds of a slice to the length of the axis. *)
Definition slice_bounds (n lo hi : nat) : nat * nat :=
  let lo' := Nat.min lo n in
  let hi' := Nat.min hi n in
  (lo', hi' - lo').

Fixpoint getitem_shape (sh : list nat) (items : list index_item) : result (list nat) :=
  match sh, items with
  | _, [] => Ok sh
  | [], _ :: _ => Raise (IndexError "too many indices for array")
  | n :: sh', IInt i :: items' =>
      if i <? n then getitem_shape sh' items'
      else Raise (IndexError "index out of bounds")
  | n :: sh', ISlice lo hi :: items' =>
      r <- getitem_shape sh' items' ;;
      Ok (snd (slice_bounds n lo hi) :: r)
  end.

Fixpoint getitem_data {A : Type} (sh : list nat) (items : list index_item)
         (d : list A) : list A :=
  match sh, items with
  | n :: sh', IInt i :: items' =>
      let k := prod_shape sh' in
      getitem_data sh' items' (firstn k (skipn (i * k) d))
  | n :: sh', ISlice lo hi :: items' =>
      let k := prod_shape sh' in
      let '(lo', len) := slice_bounds n lo hi in
      List.concat (map (getitem_data sh' items') (chunks k len (skipn (lo' * k) d)))
  | _, _ => d
  end.

(** [a[idx]] for a tuple of integers and slices: an integer drops its axis,
    a slice keeps it, axes without a component are kept whole. *)
Definition nd_getitem {A : Type} (a : ndarray A) (items : list index_item)
  : result (ndarray A) :=
  sh <- getitem_shape (nd_shape a) items ;;
  Ok (mk_ndarray sh (getitem_data (nd_shape a) items (nd_data a))).

(** [np.reshape(a, shape)]: the number of items must not change. *)
Definition np_reshape {A : Type} (a : ndarray A) (sh : list nat) : result (ndarray A) :=
  if prod_shape (nd_shape a) =? prod_shape sh
  then Ok (mk_ndarray sh (nd_data a))
  else Raise (ValueError "cannot reshape array").

(* ================================================================== *)
(** ** The binning collaborator *)

(** Modelled from the spec: [pisa.core.binning] ([OneDimBinning],
    [MultiDimBinning]) is not part of the sources at hand.  The spec gives
    its contract: an immutable description of ordered axes with a shape, an
    array-fit assertion, a compatibility assertion that fails when the axes
    differ, sub-indexing that returns a reduced binning, and serializable and
    hashable projections.  An axis is a name and its bin edges. *)
Module Binning.

Record OneDimBinning : Type := mk_dim {
  dim_name : string;
  bin_edges : list Z
}.

Definition MultiDimBinning : Type := list OneDimBinning.

(** The canonical state of a binning: the ordered axis definitions. *)
Definition state : Type := list (string * list Z).

Definition num_bins (d : OneDimBinning) : nat := List.length (bin_edges d) - 1.

Definition shape (b : MultiDimBinning) : list nat := map num_bins b.

Definition dim_eqb (d e : OneDimBinning) : bool :=
  String.eqb (dim_name d) (dim_name e)
  && list_eqb Z.eqb (bin_edges d) (bin_edges e).

Definition eqb (b c : MultiDimBinning) : bool := list_eqb dim_eqb b c.

Definition assert_array_fits (b : MultiDimBinning) (array_shape : list nat)
  : result unit :=
  if shape_eqb array_shape (shape b) then Ok tt
  else Raise (ValueError "array does not fit binning").

Definition assert_compat (b other : MultiDimBinning) : result unit :=
  if eqb b other then Ok tt
  else Raise (ValueError "incompatible binning").

(** Sub-binning of one axis: the bins selected by an integer or a slice. *)
Definition dim_getitem (d : OneDimBinning) (it : index_item)
  : result OneDimBinning :=
  match it with
  | IInt i =>
      if i <? num_bins d
      then Ok (mk_dim (dim_name d) (firstn 2 (skipn i (bin_edges d))))
      else Raise (IndexError "bin index out of range")
  | ISlice lo hi =>
      let '(lo', len) := slice_bounds (num_bins d) lo hi in
      Ok (mk_dim (dim_name d) (firstn (S len) (skipn lo' (bin_edges d))))
  end.

Fixpoint dims_getitem (b : MultiDimBinning) (items : list index_item)
  : result MultiDimBinning :=
  match b, items with
  | [], [] => Ok []
  | d :: b', it :: items' =>
      d' <- dim_getitem d it ;;
      r <- dims_getitem b' items' ;;
      Ok (d' :: r)
  | _, _ => Raise (ValueError "one index component per axis is required")
  end.

Definition getitem (b : MultiDimBinning) (idx : py_index) : result MultiDimBinning :=
  match idx with
  | ITuple items => dims_getitem b items
  | ISingle it => dims_getitem b [it]
  end.

Definition _serializable_state (b : MultiDimBinning) : state :=
  map (fun d => (dim_name d, bin_edges d)) b.

Definition _hashable_state (b : MultiDimBinning) : state :=
  map (fun d => (dim_name d, bin_edges d)) b.

(** [MultiDimBinning(dimensions=...)] and [MultiDimBinning] built from the keys of a state. *)
Definition of_dimensions (dims : list OneDimBinning) : MultiDimBinning := dims.

Definition of_state (st : state) : MultiDimBinning :=
  map (fun p => mk_dim (fst p) (snd p)) st.

End Binning.

(* ================================================================== *)
(** ** Histogram payloads *)

(** The [hist] of a map is a float64 array, or an object array of numbers
    with uncertainties (what [unp.uarray] builds). *)
Inductive hist_t : Type :=
| HFloat (a : ndarray float)
| HUnc (a : ndarray ufloat).

Definition hist_shape (h : hist_t) : list nat :=
  match h with
  | HFloat a => nd_shape a
  | HUnc a => nd_shape a
  end.

Definition hist_wf (h : hist_t) : Prop :=
  match h with
  | HFloat a => nd_wf a
  | HUnc a => nd_wf a
  end.

(** [unp.nominal_values]: a bare array is its own nominal value. *)
Definition unp_nominal_values (h : hist_t) : ndarray float :=
  match h with
  | HFloat a => a
  | HUnc a => nd_map nominal_value a
  end.

(** [unp.std_devs]: a bare number has standard deviation zero. *)
Definition unp_std_devs (h : hist_t) : ndarray float :=
  match h with
  | HFloat a => nd_map (fun _ => fzero) a
  | HUnc a => nd_map std_dev a
  end.

(** [unp.uarray(nominal_values, std_devs)] builds one [Variable] per item
    (with broadcasting).  [Variable] converts its value with [float()],
    which the numbers of the uncertainties package refuse.  That [Variable]
    also refuses a standard deviation below zero is not represented: what
    is stated about attached errors is stated for standard deviations that
    are at least zero. *)
Definition unp_uarray (nominal_values : hist_t) (std_devs : ndarray float)
  : result hist_t :=
  match nominal_values with
  | HFloat a => r <- nd_zip (fun v s => (v, s)) a std_devs ;; Ok (HUnc r)
  | HUnc _ => Raise (TypeError "can't convert an affine function to float")
  end.

(** [np.sqrt] has a float64 loop; on an object array it looks for a [sqrt]
    method on the items, which numbers with uncertainties do not have. *)
Definition np_sqrt (h : hist_t) : result (ndarray float) :=
  match h with
  | HFloat a => Ok (nd_map fsqrt a)
  | HUnc _ => Raise (TypeError "loop of ufunc does not support object items")
  end.

Definition hist_getitem (h : hist_t) (items : list index_item) : result hist_t :=
  match h with
  | HFloat a => r <- nd_getitem a items ;; Ok (HFloat r)
  | HUnc a => r <- nd_getitem a items ;; Ok (HUnc r)
  end.

Definition hist_reshape (h : hist_t) (sh : list nat) : result hist_t :=
  match h with
  | HFloat a => r <- np_reshape a sh ;; Ok (HFloat r)
  | HUnc a => r <- np_reshape a sh ;; Ok (HUnc r)
  end.

(** The binary arithmetic operators of [Map]. *)
Inductive binop : Type := Add | Sub | Mul | Div | Pow.

(* ================================================================== *)
(** ** States of a map *)

(** The keyword arguments [Map.from_json] passes to the constructor: the
    ordered mapping built by [Map._serializable_state]. *)
Record serializable_state : Type := mk_serializable_state {
  ss_name : string;
  ss_hist : ndarray float;
  ss_binning : Binning.state;
  ss_error_hist : option (ndarray float);
  ss_hash : option Z;
  ss_tex : string;
  ss_full_comparison : bool
}.

(** The ordered mapping built by [Map._hashable_state]. *)
Record hashable_state : Type := mk_hashable_state {
  hs_name : string;
  hs_hist : ndarray float;
  hs_binning : Binning.state;
  hs_error_hist : option (ndarray float);
  hs_tex : string;
  hs_full_comparison : bool
}.

(** Functions of the repository and of its numeric libraries that the map
    module calls and whose code is not at hand.  They are parameters of the
    development. *)
Class Externals : Type := {
  (** [pisa.utils.numerical.normQuant(x, sigfigs)], on one item. *)
  normQuant : float -> nat -> float;
  (** [pisa.utils.comparisons.recursiveEquality] on two hashable states. *)
  recursiveEquality : hashable_state -> hashable_state -> bool;
  (** [pisa.utils.hash.hash_obj] on a tuple of hash attributes. *)
  hash_obj : list (option Z) -> Z;
  (** [pisa.utils.jsons]: the document written for a state, and its
      parser. *)
  json : Type;
  jsons_to_json : serializable_state -> json;
  jsons_from_json : json -> result serializable_state;
  (** numpy's float64 arithmetic, per operator. *)
  float_op : binop -> float -> float -> float;
  (** The arithmetic of the uncertainties package, per operator. *)
  ufloat_op : binop -> ufloat -> ufloat -> ufloat
}.

(** Item-wise arithmetic on two payloads.  A bare float meeting a number
    with uncertainty is taken with standard deviation zero.  A number with
    uncertainty is kept as its nominal value and its standard deviation:
    the exceptions of the arithmetic of the uncertainties package (a
    division by zero) and the correlations between its numbers are not
    represented, so that an operation is stated to return, or to depend on
    the values alone, for bare arrays only. *)
Section Arithmetic.
Context `{Externals}.

Definition promote (x : float) : ufloat := (x, fzero).

Definition hist_op (op : binop) (a b : hist_t) : result hist_t :=
  match a, b with
  | HFloat x, HFloat y =>
      r <- nd_zip (float_op op) x y ;; Ok (HFloat r)
  | HFloat x, HUnc y =>
      r <- nd_zip (fun p q => ufloat_op op (promote p) q) x y ;; Ok (HUnc r)
  | HUnc x, HFloat y =>
      r <- nd_zip (fun p q => ufloat_op op p (promote q)) x y ;; Ok (HUnc r)
  | HUnc x, HUnc y =>
      r <- nd_zip (ufloat_op op) x y ;; Ok (HUnc r)
  end.

End Arithmetic.

(* ================================================================== *)
(** ** [class Map] *)

Definition HASH_SIGFIGS : nat := 12.

Module Map.

Record t : Type := mk {
  name : string;
  hist : hist_t;
  binning : Binning.MultiDimBinning;
  hash : option Z;
  tex : string;
  full_comparison : bool;
  parent_indexer : option (list nat)
}.

(** What a caller may pass as the other operand of an operator: a plain
    number, a [uncertainties.core.Variable], a numpy array (bare or with
    uncertainties), a map, or an object of any other type, of which only
    the text of [type(value)] matters. *)
Inductive operand : Type :=
| OScalar (x : float)
| OVariable (u : ufloat)
| OArray (a : hist_t)
| OMap (m : t)
| OOther (type_repr : string).

(** What a caller may pass as [binning] to the constructor. *)
Inductive binning_arg : Type :=
| AsBinning (b : Binning.MultiDimBinning)
| AsSequence (dims : list Binning.OneDimBinning)
| AsMapping (st : Binning.state)
| AsOther (repr : string).

(** The tests the methods apply to an operand, and the text of
    [type(value)]. *)
Definition isscalar (value : operand) : bool :=
  match value with OScalar _ => true | _ => false end.

Definition is_Variable (value : operand) : bool :=
  match value with OVariable _ => true | _ => false end.

Definition is_ndarray (value : operand) : bool :=
  match value with OArray _ => true | _ => false end.

Definition is_Map (value : operand) : bool :=
  match value with OMap _ => true | _ => false end.

Definition type_of (value : operand) : string :=
  match value with
  | OScalar _ => "<type 'float'>"
  | OVariable _ => "<class 'uncertainties.core.Variable'>"
  | OArray _ => "<type 'numpy.ndarray'>"
  | OMap _ => "<class 'pisa.core.map.Map'>"
  | OOther type_repr => type_repr
  end.

Definition type_error {A : Type} (value : operand) : result A :=
  Raise (TypeError
           (String.append "Type of argument not supported: "
              (String.append dquote (String.append (type_of value) dquote)))).

Definition tex_dict : list (string * string) :=
  [ ("nue", "\nu_e");
    ("numu", "\nu_{\mu}");
    ("nutau", "\nu_{\tau}");
    ("nuebar", "\bar{\nu}_e");
    ("numubar", "\bar{\nu}_{\mu}");
    ("nutaubar", "\bar{\nu}_{\tau}");
    ("nue_cc", "\nu_e\ CC");
    ("numu_cc", "\nu_{\mu}\ CC");
    ("nutau_cc", "\nu_{\tau}\ CC");
    ("nue_nc", "\nu_e\ NC");
    ("numu_nc", "\nu_{\mu}\ NC");
    ("nutau_nc", "\nu_{\tau}\ NC");
    ("nuebar_cc", "\bar{\nu}_e\ CC");
    ("numubar_cc", "\bar{\nu}_{\mu}\ CC");
    ("nutaubar_cc", "\bar{\nu}_{\tau}\ CC");
    ("nuebar_nc", "\bar{\nu}_e\ NC");
    ("numubar_nc", "\bar{\nu}_{\mu}\ NC");
    ("nutaubar_nc", "\bar{\nu}_{\tau}\ NC") ].

Fixpoint lookup (key : string) (d : list (string * string)) : option string :=
  match d with
  | [] => None
  | (k, v) :: d' => if String.eqb k key then Some v else lookup key d'
  end.

(** [==] on two hash attributes. *)
Definition hash_eqb (h1 h2 : option Z) : bool :=
  match h1, h2 with
  | Some x, Some y => Z.eqb x y
  | None, None => true
  | _, _ => false
  end.

Definition is_None {A : Type} (o : option A) : bool :=
  match o with None => true | Some _ => false end.

Definition set_hist (self : t) (h : hist_t) : t :=
  mk (name self) h (binning self) (hash self) (tex self)
     (full_comparison self) (parent_indexer self).

Definition assert_compat (self : t) (other : operand) : result unit :=
  match other with
  | OScalar _ | OVariable _ => Ok tt
  | OArray a => Binning.assert_array_fits (binning self) (hist_shape a)
  | OMap m => Binning.assert_compat (binning self) (binning m)
  | OOther _ => Raise (AssertionError "Unrecognized type")
  end.

Definition set_errors (self : t) (error_hist : option (ndarray float)) : result t :=
  match error_hist with
  | None => Ok (set_hist self (HFloat (unp_nominal_values (hist self))))
  | Some e =>
      assert_compat self (OArray (HFloat e)) ;;;
      h <- unp_uarray (hist self) e ;;
      Ok (set_hist self h)
  end.

Definition __init__ (name : string) (hist : hist_t) (binning : binning_arg)
           (error_hist : option (ndarray float)) (hash : option Z)
           (tex : option string) (full_comparison : bool) : result t :=
  let tex :=
    match tex with
    | None =>
        match lookup name tex_dict with
        | Some v => v
        | None => String.append "\rm{" (String.append name "}")
        end
    | Some v => v
    end in
  binning <-
    match binning with
    | AsBinning b => Ok b
    | AsSequence dims => Ok (Binning.of_dimensions dims)
    | AsMapping st => Ok (Binning.of_state st)
    | AsOther repr =>
        Raise (ValueError
                 (String.append "Do not know what to do with `binning`=" repr))
    end ;;
  Binning.assert_array_fits binning (hist_shape hist) ;;;
  let self := mk name hist binning hash tex full_comparison None in
  match error_hist with
  | Some e => set_errors self (Some e)
  | None => Ok self
  end.

(** Approximate poisson errors using sqrt(n). *)
Definition set_poisson_errors (self : t) : result t :=
  s <- np_sqrt (hist self) ;;
  h <- unp_uarray (hist self) s ;;
  Ok (set_hist self h).

(** The dictionary a decorated method returns: the state attributes it
    replaces.  A key that is absent is [None] here. *)
Record state_updates : Type := mk_updates {
  u_name : option string;
  u_hist : option hist_t;
  u_binning : option Binning.MultiDimBinning;
  u_hash : option (option Z);
  u_tex : option string;
  u_full_comparison : option bool
}.

Definition has_key {A : Type} (u : option A) (unaltered : A) : A :=
  match u with
  | Some v => v
  | None => unaltered
  end.

(** Decorator to deepcopy unaltered states into a new object: every state
    attribute is taken from the updates when they have it and copied from
    [self] otherwise, and the constructor is called on the outcome. *)
Definition new_obj (self : t) (original_function : result state_updates)
  : result t :=
  updates <- original_function ;;
  __init__ (has_key (u_name updates) (name self))
           (has_key (u_hist updates) (hist self))
           (AsBinning (has_key (u_binning updates) (binning self)))
           None
           (has_key (u_hash updates) (hash self))
           (Some (has_key (u_tex updates) (tex self)))
           (has_key (u_full_comparison updates) (full_comparison self)).

Definition index (self : t) (idx : py_index) : result t :=
  new_obj self
    match idx with
    | ISingle _ => Raise (TypeError "object has no len()")
    | ITuple items =>
        let new_hist := hist self in
        new_binning <- Binning.getitem (binning self) idx ;;
        b <- Binning.getitem (binning self) idx ;;
        sub <- hist_getitem new_hist items ;;
        h <- hist_reshape sub (Binning.shape new_binning) ;;
        Ok (mk_updates None (Some h) (Some b) None None None)
    end.

Definition __getitem__ (self : t) (idx : py_index) : result t := index self idx.

(** [np.unravel_index(i, shape)]: the coordinates of the item at position
    [i] of the row-major order. *)
Fixpoint unravel_index (i : nat) (shape : list nat) : list nat :=
  match shape with
  | [] => []
  | _ :: shape' =>
      let k := prod_shape shape' in
      (i / k) :: unravel_index (i mod k) shape'
  end.

Definition set_parent_indexer (self : t) (idx_item : list nat) : t :=
  mk (name self) (hist self) (binning self) (hash self) (tex self)
     (full_comparison self) (Some idx_item).

(** The maps the generator [iterbins] yields, in order, one per bin.  (That
    the array of a yielded map is a view on the array of its parent is not
    represented.) *)
Definition iterbins (self : t) : result (list t) :=
  let shape := hist_shape (hist self) in
  mapM (fun i =>
          let idx_item := unravel_index i shape in
          let idx_view := map (fun x => ISlice x (x + 1)) idx_item in
          h <- hist_getitem (hist self) idx_view ;;
          b <- Binning.getitem (binning self) (ITuple (map IInt idx_item)) ;;
          single_bin_map <-
            __init__ (name self) h (AsBinning b) None None (Some (tex self))
                     (full_comparison self) ;;
          Ok (set_parent_indexer single_bin_map idx_item))
       (seq 0 (prod_shape shape)).

Definition __hash__ (self : t) : result Z :=
  match hash self with
  | Some h => Ok h
  | None => Raise (ValueError "No hash defined.")
  end.

Definition _serializable_state (self : t) : serializable_state :=
  let stddevs := unp_std_devs (hist self) in
  let stddevs :=
    if np_all (nd_map (fun s => feqb s fzero) stddevs) then None
    else Some stddevs in
  mk_serializable_state
    (name self)
    (unp_nominal_values (hist self))
    (Binning._serializable_state (binning self))
    stddevs
    (hash self)
    (tex self)
    (full_comparison self).

Section WithExternals.
Context `{Externals}.

Definition _hashable_state (self : t) : hashable_state :=
  let quant := nd_map (fun x => normQuant x HASH_SIGFIGS) in
  let stddevs := quant (unp_std_devs (hist self)) in
  let stddevs :=
    if np_all (nd_map (fun s => feqb s fzero) stddevs) then None
    else Some (quant stddevs) in
  mk_hashable_state
    (name self)
    (quant (unp_nominal_values (hist self)))
    (Binning._hashable_state (binning self))
    stddevs
    (tex self)
    (full_comparison self).

(** The document [to_json] writes to its file. *)
Definition to_json (self : t) : json :=
  jsons_to_json (_serializable_state self).

(** The constructor called on the keys of a state. *)
Definition from_state (state : serializable_state) : result t :=
  __init__ (ss_name state) (HFloat (ss_hist state))
           (AsMapping (ss_binning state)) (ss_error_hist state)
           (ss_hash state) (Some (ss_tex state)) (ss_full_comparison state).

Definition from_json (resource : json) : result t :=
  state <- jsons_from_json resource ;;
  from_state state.

(** The body shared by [__add__], [__sub__], [__mul__], [__div__] and
    [__pow__], which differ in the numpy operation only. *)
Definition operator_updates (op : binop) (self : t) (other : operand)
  : result state_updates :=
  match other with
  | OScalar x =>
      h <- hist_op op (hist self) (HFloat (nd_scalar x)) ;;
      Ok (mk_updates None (Some h) None None None None)
  | OVariable u =>
      h <- hist_op op (hist self) (HUnc (nd_scalar u)) ;;
      Ok (mk_updates None (Some h) None None None None)
  | OArray a =>
      h <- hist_op op (hist self) a ;;
      Ok (mk_updates None (Some h) None None None None)
  | OMap m =>
      h <- hist_op op (hist self) (hist m) ;;
      Ok (mk_updates None (Some h) None None None
                     (Some (full_comparison self || full_comparison m)))
  | OOther _ => type_error other
  end.

Definition __add__ (self : t) (other : operand) : result t :=
  new_obj self (operator_updates Add self other).

Definition __sub__ (self : t) (other : operand) : result t :=
  new_obj self (operator_updates Sub self other).

Definition __mul__ (self : t) (other : operand) : result t :=
  new_obj self (operator_updates Mul self other).

Definition __div__ (self : t) (other : operand) : result t :=
  new_obj self (operator_updates Div self other).

Definition __truediv__ (self : t) (other : operand) : result t :=
  __div__ self other.

Definition __pow__ (self : t) (other : operand) : result t :=
  new_obj self (operator_updates Pow self other).

(** [self.hist == other] item by item, where shapes that cannot be
    broadcast compare unequal as a whole. *)
Definition all_equal (a b : ndarray float) : bool :=
  match nd_zip feqb a b with
  | Ok r => np_all r
  | Raise _ => false
  end.

Definition __eq__ (self : t) (other : operand) : result bool :=
  match other with
  | OScalar x =>
      Ok (all_equal (unp_nominal_values (hist self)) (nd_scalar x))
  | OVariable u =>
      Ok (all_equal (unp_nominal_values (hist self))
                    (nd_scalar (nominal_value u))
          && all_equal (unp_std_devs (hist self)) (nd_scalar (std_dev u)))
  | OArray a =>
      Ok (all_equal (unp_nominal_values (hist self)) (unp_nominal_values a)
          && all_equal (unp_std_devs (hist self)) (unp_std_devs a))
  | OMap m =>
      if full_comparison self || full_comparison m
         || is_None (hash self) || is_None (hash m)
      then Ok (recursiveEquality (_hashable_state self) (_hashable_state m))
      else Ok (hash_eqb (hash self) (hash m))
  | OOther _ => type_error other
  end.

Definition __ne__ (self : t) (other : operand) : result bool :=
  b <- __eq__ self other ;;
  Ok (negb b).

End WithExternals.

End Map.

(* ================================================================== *)
(** ** [class MapSet] *)

Module MapSet.

Record t : Type := mk {
  maps : list Map.t;
  name : option string;
  tex : string;
  collate_by_name : bool;
  collate_by_num : bool
}.

(** An element of the [maps] argument of the constructor: a map, or the
    keyword arguments of one. *)
Inductive member_arg : Type :=
| IsMap (m : Map.t)
| IsState (state : serializable_state).

Definition __init__ (maps : list member_arg) (name : option string)
           (tex : option string) (collate_by_name : bool) : result t :=
  maps_ <- mapM (fun m =>
                   match m with
                   | IsMap mp => Ok mp
                   | IsState state => Map.from_state state
                   end) maps ;;
  let tex :=
    match tex with
    | None =>
        String.append "{\rm "
          (String.append (match name with Some n => n | None => "None" end) "}")
    | Some v => v
    end in
  Ok (mk maps_ name tex collate_by_name (negb collate_by_name)).

Definition names (self : t) : list string := map Map.name (maps self).

Definition hashes (self : t) : list (option Z) := map Map.hash (maps self).

(** [tuple.index]: the position of the first item equal to [value]. *)
Fixpoint tuple_index (value : string) (items : list string) : option nat :=
  match items with
  | [] => None
  | x :: items' =>
      if String.eqb x value then Some 0
      else match tuple_index value items' with
           | Some i => Some (S i)
           | None => None
           end
  end.

(** [self.maps[item]] for an integer [item]. *)
Definition maps_item (self : t) (item : nat) : result Map.t :=
  match nth_error (maps self) item with
  | Some mp => Ok mp
  | None => Raise (IndexError "tuple index out of range")
  end.

(** The member of a name.  (The message of the [ValueError] goes on, in the
    source, with a description of the set, which is left out.) *)
Definition find_map (self : t) (value : string) : result Map.t :=
  match tuple_index value (names self) with
  | Some idx => maps_item self idx
  | None =>
      Raise (ValueError
               (String.append "Could not find map name "
                  (String.append dquote (String.append value dquote))))
  end.

(** The keys [__getitem__] is called with here: a map name, a position,
    or a tuple of bin indices applied to every member. *)
Inductive item : Type :=
| ByName (value : string)
| ByPosition (i : nat)
| ByBins (idx : list index_item).

Inductive got : Type :=
| GotMap (mp : Map.t)
| GotMapSet (s : t).

Definition __getitem__ (self : t) (key : item) : result got :=
  match key with
  | ByName value => mp <- find_map self value ;; Ok (GotMap mp)
  | ByPosition i => mp <- maps_item self i ;; Ok (GotMap mp)
  | ByBins idx =>
      if List.length idx =? 1
      then Raise (TypeError "tuple indices must be integers, not tuple")
      else if List.length idx =? 2
      then
        ms <- mapM (fun m => Map.__getitem__ m (ITuple idx)) (maps self) ;;
        s <- __init__ (map IsMap ms) None None true ;;
        Ok (GotMapSet s)
      else Raise (IndexError "too many indices for 2D hist")
  end.

(** The methods of [Map] reached through [apply_to_maps] here: the binary
    operators, each called with one operand and returning a map. *)
Inductive method : Type :=
| M__add__ | M__sub__ | M__mul__ | M__div__ | M__truediv__ | M__pow__.

(** An argument of [apply_to_maps]. *)
Inductive arg : Type :=
| AScalar (x : float)
| AVariable (u : ufloat)
| AArray (a : hist_t)
| AMapSet (s : t)
| AOther (type_repr : string).

Fixpoint enumerate_from {A : Type} (n : nat) (xs : list A) : list (nat * A) :=
  match xs with
  | [] => []
  | x :: xs' => (n, x) :: enumerate_from (S n) xs'
  end.

Definition enumerate {A : Type} (xs : list A) : list (nat * A) :=
  enumerate_from 0 xs.

Section WithExternals.
Context `{Externals}.

Definition hash (self : t) : option Z :=
  let hashes := hashes self in
  if forallb (fun h => negb (Map.is_None h)) hashes
  then Some (hash_obj hashes)
  else None.

(** Calling the method [attr] of the member [mp] on its arguments. *)
Definition call_method (attr : method) (mp : Map.t) (args : list Map.operand)
  : result Map.t :=
  match args with
  | [other] =>
      match attr with
      | M__add__ => Map.__add__ mp other
      | M__sub__ => Map.__sub__ mp other
      | M__mul__ => Map.__mul__ mp other
      | M__div__ => Map.__div__ mp other
      | M__truediv__ => Map.__truediv__ mp other
      | M__pow__ => Map.__pow__ mp other
      end
  | _ => Raise (TypeError "method takes exactly 2 arguments")
  end.

(** What one argument contributes to the arguments of the member at
    position [map_num], named [map_name]. *)
Definition arg_for_map (self : t) (map_num : nat) (map_name : string)
           (a : arg) : result (list Map.operand) :=
  match a with
  | AScalar x => Ok [Map.OScalar x]
  | AVariable u => Ok [Map.OVariable u]
  | AArray arr => Ok [Map.OArray arr]
  | AMapSet other =>
      if collate_by_name self
      then mp <- find_map other map_name ;; Ok [Map.OMap mp]
      else if collate_by_num self
      then mp <- maps_item other map_num ;; Ok [Map.OMap mp]
      else Ok []
  | AOther type_repr =>
      Raise (TypeError (String.append "Unhandled arg / type " type_repr))
  end.

(** The branch of [apply_to_maps] for an attribute that is a method of
    every member.  The arguments of all members are built first, then
    the methods are called; the methods at hand all return maps, which
    are put into a new map set. *)
Definition apply_to_maps (self : t) (attr : method) (args : list arg)
  : result t :=
  args_per_map <-
    mapM (fun '(map_num, mp) =>
            let map_name := Map.name mp in
            this_map_args <- mapM (arg_for_map self map_num map_name) args ;;
            Ok (List.concat this_map_args))
         (enumerate (maps self)) ;;
  returned_vals <-
    mapM (fun '(mp, args) => call_method attr mp args)
         (combine (maps self) args_per_map) ;;
  __init__ (map IsMap returned_vals) None None true.

Definition __add__ (self : t) (val : arg) : result t :=
  apply_to_maps self M__add__ [val].

Definition __sub__ (self : t) (val : arg) : result t :=
  apply_to_maps self M__sub__ [val].

Definition __mul__ (self : t) (val : arg) : result t :=
  apply_to_maps self M__mul__ [val].

Definition __div__ (self : t) (val : arg) : result t :=
  apply_to_maps self M__div__ [val].

Definition __truediv__ (self : t) (val : arg) : result t :=
  apply_to_maps self M__truediv__ [val].

Definition __pow__ (self : t) (val : arg) : result t :=
  apply_to_maps self M__pow__ [val].

End WithExternals.

End MapSet.

(* ================================================================== *)
(** ** Further methods of [class Map] *)

Module MapExtra.

(** [-x] and [abs(x)] on one float64 item, and on one number with
    uncertainty, whose standard deviation they leave as it is (the package
    computes it anew from its square, which gives it back unless the square
    leaves the range of float64). *)
Definition fneg (x : float) : float := SFopp x.
Definition fabs (x : float) : float := SFabs x.
Definition uneg (u : ufloat) : ufloat := (SFopp (nominal_value u), std_dev u).
Definition uabs (u : ufloat) : ufloat := (SFabs (nominal_value u), std_dev u).

Definition np_negative (h : hist_t) : hist_t :=
  match h with
  | HFloat a => HFloat (nd_map fneg a)
  | HUnc a => HUnc (nd_map uneg a)
  end.

Definition np_abs (h : hist_t) : hist_t :=
  match h with
  | HFloat a => HFloat (nd_map fabs a)
  | HUnc a => HUnc (nd_map uabs a)
  end.

Definition __abs__ (self : Map.t) : result Map.t :=
  Map.new_obj self
    (Ok (Map.mk_updates None (Some (np_abs (Map.hist self))) None None None None)).

Definition __neg__ (self : Map.t) : result Map.t :=
  Map.new_obj self
    (Ok (Map.mk_updates None (Some (np_negative (Map.hist self))) None None None
                        None)).

Definition sqrt (self : Map.t) : result Map.t :=
  Map.new_obj self
    (a <- np_sqrt (Map.hist self) ;;
     Ok (Map.mk_updates None (Some (HFloat a)) None None None None)).

(** The generator [iterindices]: the coordinates of every bin, in the
    order of [iterbins]. *)
Definition iterindices (self : Map.t) : list (list nat) :=
  let shape := hist_shape (Map.hist self) in
  map (fun i => Map.unravel_index i shape) (seq 0 (prod_shape shape)).

Definition __floordiv__ (self : Map.t) (other : Map.operand) : result Map.t :=
  Raise (NotImplementedError "floordiv not implemented for type Map").

Section WithExternals.
Context `{Externals}.

Definition __radd__ (self : Map.t) (other : Map.operand) : result Map.t :=
  Map.__add__ self other.

Definition __rmul__ (self : Map.t) (other : Map.operand) : result Map.t :=
  Map.__mul__ self other.

(** The private method behind [__rsub__] for an operand that is no map. *)
Definition __rsub (self : Map.t) (other : Map.operand) : result Map.t :=
  Map.new_obj self
    match other with
    | Map.OScalar x =>
        h <- hist_op Sub (HFloat (nd_scalar x)) (Map.hist self) ;;
        Ok (Map.mk_updates None (Some h) None None None None)
    | Map.OVariable u =>
        h <- hist_op Sub (HUnc (nd_scalar u)) (Map.hist self) ;;
        Ok (Map.mk_updates None (Some h) None None None None)
    | Map.OArray a =>
        h <- hist_op Sub a (Map.hist self) ;;
        Ok (Map.mk_updates None (Some h) None None None None)
    | _ => Map.type_error other
    end.

Definition __rsub__ (self : Map.t) (other : Map.operand) : result Map.t :=
  match other with
  | Map.OMap m => Map.__sub__ m (Map.OMap self)
  | _ => __rsub self other
  end.

End WithExternals.

End MapExtra.

(* ================================================================== *)
(** ** Further methods of [class MapSet] *)

(** The ordered mapping built by [MapSet._serializable_state], which are
    the keyword arguments [MapSet.from_json] passes to the constructor. *)
Record mapset_state : Type := mk_mapset_state {
  mss_maps : list serializable_state;
  mss_name : option string;
  mss_tex : string;
  mss_collate_by_name : bool
}.

Module MapSetExtra.

Definition __len__ (self : MapSet.t) : nat := List.length (MapSet.maps self).

Definition __contains__ (self : MapSet.t) (name : string) : bool :=
  existsb (String.eqb name) (map Map.name (MapSet.maps self)).

(** [setitem] on an [OrderedDict] kept as the list of its items: a key that
    is present keeps its place and takes the new value, a new key goes to
    the end. *)
Fixpoint setitem {V : Type} (d : list (string * V)) (key : string) (val : V)
  : list (string * V) :=
  match d with
  | [] => [(key, val)]
  | (k, v) :: d' =>
      if String.eqb k key then (k, val) :: d'
      else (k, v) :: setitem d' key val
  end.

Fixpoint getitem {V : Type} (d : list (string * V)) (key : string) : option V :=
  match d with
  | [] => None
  | (k, v) :: d' => if String.eqb k key then Some v else getitem d' key
  end.

Definition collate_with_names {V : Type} (self : MapSet.t) (vals : list V)
  : list (string * V) :=
  fold_left (fun ret_dict name_val => setitem ret_dict (fst name_val) (snd name_val))
            (combine (MapSet.names self) vals) [].

Definition _serializable_state (self : MapSet.t) : mapset_state :=
  mk_mapset_state (map Map._serializable_state (MapSet.maps self))
                  (MapSet.name self) (MapSet.tex self)
                  (MapSet.collate_by_name self).

(** The constructor called on the keys of a state. *)
Definition from_state (state : mapset_state) : result MapSet.t :=
  MapSet.__init__ (map MapSet.IsState (mss_maps state)) (mss_name state)
                  (Some (mss_tex state)) (mss_collate_by_name state).

(** Maps are mutable objects and the tuple [maps] of a set holds references
    to them: one object can be a member twice, and a call that updates it
    in place is seen at every position that holds it.  A heap gives the
    state of every object; a set is kept with the identities of its
    members, and [view] reads the set off a heap. *)
Definition obj_id : Type := nat.

Definition heap : Type := obj_id -> Map.t.

Definition heap_set (s : heap) (i : obj_id) (m : Map.t) : heap :=
  fun j => if Nat.eqb j i then m else s j.

Record mapset_obj : Type := mk_obj {
  obj_maps : list obj_id;
  obj_name : option string;
  obj_tex : string;
  obj_collate_by_name : bool;
  obj_collate_by_num : bool
}.

Definition view (s : heap) (self : mapset_obj) : MapSet.t :=
  MapSet.mk (map s (obj_maps self)) (obj_name self) (obj_tex self)
            (obj_collate_by_name self) (obj_collate_by_num self).

(** [set_poisson_errors] goes through [apply_to_maps] with no argument:
    the method of each member is called in turn, on the state the object
    has by then, and updates that object in place.  The heap after the
    calls is returned together with the outcome, so that the updates made
    before an exception stay visible. *)
Fixpoint set_poisson_errors_calls (members : list obj_id) (s : heap)
  : heap * result unit :=
  match members with
  | [] => (s, Ok tt)
  | i :: members' =>
      match Map.set_poisson_errors (s i) with
      | Ok mp' => set_poisson_errors_calls members' (heap_set s i mp')
      | Raise e => (s, Raise e)
      end
  end.

(** Every call returns [None]; a set with members returns [None] (here
    [Ok None]), the empty set returns a new empty map set. *)
Definition set_poisson_errors (self : mapset_obj) (s : heap)
  : heap * result (option MapSet.t) :=
  let '(s', r) := set_poisson_errors_calls (obj_maps self) s in
  (s',
   r ;;;
   match obj_maps self with
   | [] => ms <- MapSet.__init__ [] None None true ;; Ok (Some ms)
   | _ :: _ => Ok None
   end).

End MapSetExtra.

(* ================================================================== *)
(** ** A concrete environment for the examples *)

(** An instance of the externals on which the definitions above can be run.
    Floats are combined with the IEEE operations of [SpecFloat]; a power is
    computed for a natural exponent, by repeated multiplication.  Numbers
    with uncertainties are combined by first-order propagation for
    independent operands.  The examples only use numbers of fewer than
    twelve significant figures, which [normQuant] leaves as they are. *)
Module Examples.

Definition fadd : float -> float -> float := SFadd prec emax.
Definition fsub : float -> float -> float := SFsub prec emax.
Definition fmul : float -> float -> float := SFmul prec emax.
Definition fdiv : float -> float -> float := SFdiv prec emax.
Definition fone : float := float_of_Z 1.

Definition float_to_nat (x : float) : option nat :=
  match x with
  | S754_zero _ => Some 0
  | S754_finite false m e =>
      match e with
      | Z0 => Some (Pos.to_nat m)
      | Zpos p => Some (Pos.to_nat m * 2 ^ Pos.to_nat p)
      | Zneg p =>
          let d := (2 ^ Zpos p)%Z in
          if (Zpos m mod d =? 0)%Z then Some (Z.to_nat (Zpos m / d)) else None
      end
  | _ => None
  end.

Fixpoint fpow_nat (x : float) (n : nat) : float :=
  match n with
  | O => fone
  | S n' => fmul x (fpow_nat x n')
  end.

Definition fpow (x y : float) : float :=
  match float_to_nat y with
  | Some n => fpow_nat x n
  | None => fnan
  end.

Definition test_float_op (op : binop) : float -> float -> float :=
  match op with
  | Add => fadd
  | Sub => fsub
  | Mul => fmul
  | Div => fdiv
  | Pow => fpow
  end.

(** The standard deviation of [f(x, y)] from the two partial derivatives. *)
Definition propagate (dx dy : float) (x y : ufloat) : float :=
  let tx := fmul dx (std_dev x) in
  let ty := fmul dy (std_dev y) in
  fsqrt (fadd (fmul tx tx) (fmul ty ty)).

Definition test_ufloat_op (op : binop) (x y : ufloat) : ufloat :=
  let a := nominal_value x in
  let b := nominal_value y in
  match op with
  | Add => (fadd a b, propagate fone fone x y)
  | Sub => (fsub a b, propagate fone (SFopp fone) x y)
  | Mul => (fmul a b, propagate b a x y)
  | Div => (fdiv a b,
            propagate (fdiv fone b) (SFopp (fdiv a (fmul b b))) x y)
  | Pow => (fpow a b,
            propagate (fmul b (fpow a (fsub b fone))) fzero x y)
  end.

Definition array_eqb (a b : ndarray float) : bool :=
  shape_eqb (nd_shape a) (nd_shape b) && list_eqb feqb (nd_data a) (nd_data b).

Definition option_eqb {A : Type} (eqb : A -> A -> bool) (x y : option A) : bool :=
  match x, y with
  | Some a, Some b => eqb a b
  | None, None => true
  | _, _ => false
  end.

Definition axis_eqb (p q : string * list Z) : bool :=
  String.eqb (fst p) (fst q) && list_eqb Z.eqb (snd p) (snd q).

(** Key by key comparison of two hashable states. *)
Definition test_recursiveEquality (x y : hashable_state) : bool :=
  String.eqb (hs_name x) (hs_name y)
  && array_eqb (hs_hist x) (hs_hist y)
  && list_eqb axis_eqb (hs_binning x) (hs_binning y)
  && option_eqb array_eqb (hs_error_hist x) (hs_error_hist y)
  && String.eqb (hs_tex x) (hs_tex y)
  && Bool.eqb (hs_full_comparison x) (hs_full_comparison y).

Definition test_hash_obj (hashes : list (option Z)) : Z :=
  fold_left (fun acc h => (31 * acc + match h with Some z => z | None => 0 end)%Z)
            hashes 7%Z.

#[local] Instance test_externals : Externals := {|
  normQuant := fun x _ => x;
  recursiveEquality := test_recursiveEquality;
  hash_obj := test_hash_obj;
  json := serializable_state;
  jsons_to_json := fun s => s;
  jsons_from_json := fun s => Ok s;
  float_op := test_float_op;
  ufloat_op := test_ufloat_op
|}.

(** Two axes with two and three bins. *)
Definition energy : Binning.OneDimBinning :=
  Binning.mk_dim "energy" [1; 10; 100]%Z.
Definition coszen : Binning.OneDimBinning :=
  Binning.mk_dim "coszen" [-3; -2; -1; 0]%Z.
Definition binning23 : Binning.MultiDimBinning := [energy; coszen].

(** The same shape with other axis definitions. *)
Definition other23 : Binning.MultiDimBinning :=
  [Binning.mk_dim "depth" [0; 5; 7]%Z; Binning.mk_dim "angle" [0; 1; 2; 3]%Z].

Definition full (sh : list nat) (z : Z) : ndarray float :=
  mk_ndarray sh (repeat (float_of_Z z) (prod_shape sh)).

Definition ones : ndarray float := full [2; 3] 1.
Definition twos : ndarray float := full [2; 3] 2.

(** Two maps that share the hash 42 and disable full comparison, with
    different names, values and binnings. *)
Definition map_x : Map.t :=
  Map.mk "x" (HFloat ones) binning23 (Some 42%Z) "\rm{x}" false None.
Definition map_y : Map.t :=
  Map.mk "y" (HFloat twos) other23 (Some 42%Z) "\rm{y}" false None.

(** A map without a hash, and one on the binning of [map_x]. *)
Definition map_nohash : Map.t :=
  Map.mk "x" (HFloat ones) binning23 None "\rm{x}" false None.
Definition map_twos : Map.t :=
  Map.mk "y" (HFloat twos) binning23 (Some 7%Z) "\rm{y}" true None.

(** A map with an explicit error on every bin: 1 +/- 1. *)
Definition map_unc : Map.t :=
  Map.mk "x"
         (HUnc (mk_ndarray [2; 3] (repeat (float_of_Z 1, float_of_Z 1) 6)))
         binning23 None "\rm{x}" true None.

(** Map sets.  [set_xy] and [set_yx] hold members named x and y in
    opposite orders and collate by name; [set_x] has the member x alone;
    [set_by_num] and [set_renamed] collate by number and share no name. *)
Definition named (n : string) (z : Z) : Map.t :=
  Map.mk n (HFloat (full [2; 3] z)) binning23 None
         (String.append "\rm{" (String.append n "}")) true None.

Definition set_xy : MapSet.t :=
  MapSet.mk [named "x" 1; named "y" 2] (Some "a") "{\rm a}" true false.
Definition set_yx : MapSet.t :=
  MapSet.mk [named "y" 20; named "x" 10] (Some "b") "{\rm b}" true false.
Definition set_x : MapSet.t :=
  MapSet.mk [named "x" 10] (Some "c") "{\rm c}" true false.
Definition set_by_num : MapSet.t :=
  MapSet.mk [named "threes" 3; named "fours" 4] (Some "d") "{\rm d}" false true.
Definition set_renamed : MapSet.t :=
  MapSet.mk [named "fives" 5; named "sixes" 6] (Some "e") "{\rm e}" false true.

(** A map with one bin of energy and the three bins of [coszen]. *)
Definition map_row : Map.t :=
  Map.mk "row" (HFloat (full [1; 3] 5))
         [Binning.mk_dim "energy" [1; 100]%Z; coszen]
         None "\rm{row}" false None.

(** A one-bin map holding -1. *)
Definition map_negative : Map.t :=
  Map.mk "n" (HFloat (full [1] (-1))) [Binning.mk_dim "energy" [1; 10]%Z]
         None "\rm{n}" true None.

End Examples.

(* ================================================================== *)
(** ** Vocabulary of the properties *)

(** The binary operator of [Map] for each arithmetic operation. *)
Definition binop_method `{Externals} (op : binop)
  : Map.t -> Map.operand -> result Map.t :=
  match op with
  | Add => Map.__add__
  | Sub => Map.__sub__
  | Mul => Map.__mul__
  | Div => Map.__div__
  | Pow => Map.__pow__
  end.

(** The rounding applied to both arrays of the canonical state. *)
Definition rounded `{Externals} (a : ndarray float) : ndarray float :=
  nd_map (fun x => normQuant x 12) a.

Definition all_zero (a : ndarray float) : bool :=
  np_all (nd_map (fun s => feqb s fzero) a).

Definition wants_full (a b : Map.t) : bool :=
  Map.full_comparison a || Map.full_comparison b
  || Map.is_None (Map.hash a) || Map.is_None (Map.hash b).

(** The member of [B] that [A] pairs with its member [a] at position [i]
    when [B] is an argument of an operation on [A]: the member of the same
    name when [A] collates by name, the member at the same position when it
    collates by number. *)
Definition sibling (A B : MapSet.t) (i : nat) (a : Map.t) : result Map.t :=
  if MapSet.collate_by_name A then MapSet.find_map B (Map.name a)
  else if MapSet.collate_by_num A then MapSet.maps_item B i
  else Raise (TypeError "method takes exactly 2 arguments").

(** Python's [max(x, y)]: [y] when it is greater than [x], else [x]. *)
Definition fmax (x y : float) : float := if fltb x y then y else x.

(** The standard deviation the specification gives to a bin:
    [sqrt(max(nominal_value, 0))]. *)
Definition spec_poisson_std (nominal : float) : float :=
  fsqrt (fmax nominal fzero).

(** The array of a map has the shape of its binning. *)
Definition fits (m : Map.t) : Prop :=
  hist_shape (Map.hist m) = Binning.shape (Map.binning m).

(** A map without its parent indexer, as the constructor builds it. *)
Definition fresh (m : Map.t) : Map.t :=
  Map.mk (Map.name m) (Map.hist m) (Map.binning m) (Map.hash m) (Map.tex m)
         (Map.full_comparison m) None.

(** An index component that selects bins of an axis of length [n]: an
    integer below [n], or any slice. *)
Definition in_range (n : nat) (it : index_item) : Prop :=
  match it with
  | IInt i => i < n
  | ISlice _ _ => True
  end.

(** The number of bins a component selects on an axis of length [n]. *)
Definition axis_length (n : nat) (it : index_item) : nat :=
  match it with
  | IInt _ => 1
  | ISlice lo hi => snd (slice_bounds n lo hi)
  end.

(** A slice that covers the whole axis of length [n]. *)
Definition whole_axis (n : nat) (it : index_item) : Prop :=
  exists hi, it = ISlice 0 hi /\ n <= hi.

(** The position in the row-major order of the item at the coordinates
    [idx] of an array of shape [shape]. *)
Fixpoint ravel_index (shape idx : list nat) : nat :=
  match shape, idx with
  | _ :: shape', x :: idx' => x * prod_shape shape' + ravel_index shape' idx'
  | _, _ => 0
  end.

(** Coordinates that lie within the axes of [shape]. *)
Definition within (shape idx : list nat) : Prop :=
  Forall2 (fun n x => x < n) shape idx.

(** Standard deviations that are all at least zero ([0 <= s] on float64,
    which no NaN satisfies): a number with uncertainty can be built with
    each of them. *)
Definition nonnegative_std (e : ndarray float) : Prop :=
  Forall (fun s => SFleb fzero s = true) (nd_data e).

(** The arithmetic operation behind a method name. *)
Definition op_of_method (attr : MapSet.method) : binop :=
  match attr with
  | MapSet.M__add__ => Add
  | MapSet.M__sub__ => Sub
  | MapSet.M__mul__ => Mul
  | MapSet.M__div__ => Div
  | MapSet.M__truediv__ => Div
  | MapSet.M__pow__ => Pow
  end.

(** The map that the constructor builds from the serializable state of a
    map: the map itself without its parent indexer, with a bare array when
    all its standard deviations are zero. *)
Definition read_back (m : Map.t) : Map.t :=
  Map.mk (Map.name m)
         (if all_zero (unp_std_devs (Map.hist m))
          then HFloat (unp_nominal_values (Map.hist m))
          else Map.hist m)
         (Map.binning m) (Map.hash m) (Map.tex m) (Map.full_comparison m) None.

(* ================================================================== *)
(** * Properties *)

(** ** Results *)

Lemma bind_ok {A B : Type} (r : result A) (k : A -> result B) (b : B) :
  bind r k = Ok b -> exists a, r = Ok a /\ k a = Ok b.
Proof.
  destruct r as [a | e]; simpl; intros Hk.
  - exists a; split; [reflexivity | exact Hk].
  - discriminate Hk.
Qed.

Ltac inv_bind H :=
  let a := fresh "a" in
  let Ha := fresh "Ha" in
  apply bind_ok in H; destruct H as [a [Ha H]].

(** ** Equality of maps *)

Section Equality.
Context `{Externals}.

(** The canonical state holds the name, the rounded nominal values, the
    canonical state of the binning, the rounded standard deviations (or
    nothing when they all round to zero), the label and the flag. *)
Lemma hashable_state_fields (m : Map.t) :
  Map._hashable_state m =
    mk_hashable_state
      (Map.name m)
      (rounded (unp_nominal_values (Map.hist m)))
      (Binning._hashable_state (Map.binning m))
      (if all_zero (rounded (unp_std_devs (Map.hist m))) then None
       else Some (rounded (rounded (unp_std_devs (Map.hist m)))))
      (Map.tex m)
      (Map.full_comparison m).
Proof. reflexivity. Qed.

Lemma wants_full_true (a b : Map.t) :
  wants_full a b = true <->
  (Map.full_comparison a = true \/ Map.full_comparison b = true
   \/ Map.hash a = None \/ Map.hash b = None).
Proof.
  unfold wants_full.
  destruct (Map.full_comparison a), (Map.full_comparison b),
    (Map.hash a), (Map.hash b); simpl; split; intros Hx; auto;
    try discriminate;
    destruct Hx as [Hx | [Hx | [Hx | Hx]]]; discriminate.
Qed.

End Equality.

(** C1.  [a == b] on two maps is the recursive comparison of the two
    canonical states (name, nominal values and standard deviations rounded
    to 12 significant figures, canonical state of the binning, label and
    flag) as soon as one of the maps asks for a full comparison or lacks a
    hash; otherwise it is the comparison of the two hashes, so that two maps
    with the same hash and both flags off are equal whatever their arrays. *)
Theorem eq_full_comparison_or_hashes `{Externals} (a b : Map.t) :
  (Map.full_comparison a = true \/ Map.full_comparison b = true
   \/ Map.hash a = None \/ Map.hash b = None ->
   Map.__eq__ a (Map.OMap b)
   = Ok (recursiveEquality
           (mk_hashable_state
              (Map.name a)
              (rounded (unp_nominal_values (Map.hist a)))
              (Binning._hashable_state (Map.binning a))
              (if all_zero (rounded (unp_std_devs (Map.hist a))) then None
               else Some (rounded (rounded (unp_std_devs (Map.hist a)))))
              (Map.tex a)
              (Map.full_comparison a))
           (mk_hashable_state
              (Map.name b)
              (rounded (unp_nominal_values (Map.hist b)))
              (Binning._hashable_state (Map.binning b))
              (if all_zero (rounded (unp_std_devs (Map.hist b))) then None
               else Some (rounded (rounded (unp_std_devs (Map.hist b)))))
              (Map.tex b)
              (Map.full_comparison b))))
  /\ (forall ha hb : Z,
         Map.full_comparison a = false -> Map.full_comparison b = false ->
         Map.hash a = Some ha -> Map.hash b = Some hb ->
         Map.__eq__ a (Map.OMap b) = Ok (Z.eqb ha hb))
  /\ (forall h : Z,
         Map.full_comparison a = false -> Map.full_comparison b = false ->
         Map.hash a = Some h -> Map.hash b = Some h ->
         Map.__eq__ a (Map.OMap b) = Ok true).
Proof.
  split; [| split].
  - intros Hfull.
    apply wants_full_true in Hfull. unfold wants_full in Hfull.
    rewrite <- !hashable_state_fields.
    unfold Map.__eq__. rewrite Hfull. reflexivity.
  - intros ha hb Ha Hb Hha Hhb.
    unfold Map.__eq__. rewrite Ha, Hb, Hha, Hhb. reflexivity.
  - intros h Ha Hb Hha Hhb.
    unfold Map.__eq__. rewrite Ha, Hb, Hha, Hhb. simpl.
    rewrite Z.eqb_refl. reflexivity.
Qed.

(** The maps [map_x] and [map_y] share the hash 42 and differ in everything
    else: they are equal.  Against a map without a hash the states are
    compared. *)
Lemma eq_full_comparison_or_hashes_witness :
  Map.__eq__ (H := Examples.test_externals) Examples.map_x
             (Map.OMap Examples.map_y) = Ok true
  /\ Map.__eq__ (H := Examples.test_externals) Examples.map_nohash
                (Map.OMap Examples.map_y) = Ok false.
Proof.
  pose proof (eq_full_comparison_or_hashes (H := Examples.test_externals)
                Examples.map_x Examples.map_y) as [_ [_ Hsame]].
  pose proof (eq_full_comparison_or_hashes (H := Examples.test_externals)
                Examples.map_nohash Examples.map_y) as [Hfull _].
  split.
  - apply (Hsame 42%Z); reflexivity.
  - rewrite Hfull.
    + vm_compute. reflexivity.
    + right; right; left; reflexivity.
Defined.

(** C9.  Comparing a map with an operand that is neither a scalar, nor a
    variable of the uncertainties package, nor an array, nor a map raises
    the type error that names the type of the operand. *)
Theorem eq_unsupported_type `{Externals} (m : Map.t) (x : Map.operand) :
  Map.isscalar x = false ->
  Map.is_Variable x = false ->
  Map.is_ndarray x = false ->
  Map.is_Map x = false ->
  Map.__eq__ m x
  = Raise (TypeError
             (String.append "Type of argument not supported: "
                (String.append dquote (String.append (Map.type_of x) dquote)))).
Proof.
  destruct x; simpl; intros Hs Hv Ha Hm; try discriminate.
  reflexivity.
Qed.

Lemma eq_unsupported_type_witness :
  Map.__eq__ (H := Examples.test_externals) Examples.map_x
             (Map.OOther "<type 'list'>")
  = Raise (TypeError
             (String.append "Type of argument not supported: "
                (String.append dquote (String.append "<type 'list'>" dquote)))).
Proof.
  apply (eq_unsupported_type (H := Examples.test_externals) Examples.map_x
           (Map.OOther "<type 'list'>")); reflexivity.
Defined.

(** C10.  [m != x] is the negation of [m == x]: it returns the negated
    truth value when the comparison returns one and raises what the
    comparison raises. *)
Theorem ne_negates_eq `{Externals} (m : Map.t) (x : Map.operand) :
  Map.__ne__ m x =
    match Map.__eq__ m x with
    | Ok b => Ok (negb b)
    | Raise e => Raise e
    end.
Proof.
  unfold Map.__ne__, bind. destruct (Map.__eq__ m x); reflexivity.
Qed.

(** ** The hash of a map set *)

Lemma forallb_has_hash (hs : list (option Z)) :
  forallb (fun h => negb (Map.is_None h)) hs = true
  <-> Forall (fun h => h <> None) hs.
Proof.
  induction hs as [| h hs IH]; simpl.
  - split; [constructor | reflexivity].
  - rewrite andb_true_iff, IH. split.
    + intros [Hh Hhs]. constructor; [| exact Hhs].
      destruct h; [discriminate | discriminate Hh].
    + intros Hall. inversion Hall as [| ? ? Hh Hhs]; subst.
      split; [| exact Hhs]. destruct h; [reflexivity | contradiction].
Qed.

(** C8.  The hash of a map set is the one hash computed from the hashes of
    the members when every member has one, and is [None] as soon as one
    member lacks a hash. *)
Theorem mapset_hash_all_or_none `{Externals} (s : MapSet.t) :
  ((forall m, In m (MapSet.maps s) -> Map.hash m <> None) ->
   MapSet.hash s = Some (hash_obj (map Map.hash (MapSet.maps s))))
  /\ ((exists m, In m (MapSet.maps s) /\ Map.hash m = None) ->
      MapSet.hash s = None).
Proof.
  unfold MapSet.hash, MapSet.hashes. split.
  - intros Hall.
    assert (Hf : forallb (fun h => negb (Map.is_None h))
                   (map Map.hash (MapSet.maps s)) = true).
    { apply forallb_has_hash, Forall_forall. intros h Hin.
      apply in_map_iff in Hin. destruct Hin as [m [<- Hm]]. auto. }
    rewrite Hf. reflexivity.
  - intros [m [Hin Hnone]].
    destruct (forallb (fun h => negb (Map.is_None h))
                (map Map.hash (MapSet.maps s))) eqn:Hf; [| reflexivity].
    apply forallb_has_hash in Hf. rewrite Forall_forall in Hf.
    exfalso. apply (Hf (Map.hash m)); [| exact Hnone].
    apply in_map. exact Hin.
Qed.

Lemma mapset_hash_all_or_none_witness :
  MapSet.hash (H := Examples.test_externals)
    (MapSet.mk [Examples.map_x; Examples.map_twos] None "{\rm None}" true false)
  = Some (Examples.test_hash_obj [Some 42%Z; Some 7%Z])
  /\ MapSet.hash (H := Examples.test_externals)
       (MapSet.mk [Examples.map_x; Examples.map_nohash] None "{\rm None}"
                  true false)
     = None.
Proof.
  split.
  - refine (proj1 (mapset_hash_all_or_none (H := Examples.test_externals)
                     (MapSet.mk [Examples.map_x; Examples.map_twos] None
                                "{\rm None}" true false)) _).
    intros m [<- | [<- | []]]; discriminate.
  - refine (proj2 (mapset_hash_all_or_none (H := Examples.test_externals)
                     (MapSet.mk [Examples.map_x; Examples.map_nohash] None
                                "{\rm None}" true false)) _).
    exists Examples.map_nohash. split; [right; left; reflexivity | reflexivity].
Defined.

(** ** Arrays *)

Lemma shape_eqb_refl (s : list nat) : shape_eqb s s = true.
Proof.
  unfold shape_eqb.
  induction s as [| n s IH]; cbn [list_eqb]; [reflexivity |].
  rewrite Nat.eqb_refl, IH. reflexivity.
Qed.

Lemma shape_eqb_eq (s t : list nat) : shape_eqb s t = true -> s = t.
Proof.
  unfold shape_eqb.
  revert t. induction s as [| n s IH]; intros [| k t]; cbn [list_eqb];
    intros Heq; try discriminate; [reflexivity |].
  apply andb_true_iff in Heq. destruct Heq as [Hn Hs].
  apply Nat.eqb_eq in Hn. apply IH in Hs. congruence.
Qed.

Lemma pad_shape_self (s : list nat) : pad_shape (List.length s) s = s.
Proof. unfold pad_shape. rewrite Nat.sub_diag. reflexivity. Qed.

Lemma broadcast_aligned_refl (s : list nat) : broadcast_aligned s s = Some s.
Proof.
  induction s as [| n s IH]; cbn [broadcast_aligned]; [reflexivity |].
  rewrite IH, Nat.eqb_refl. reflexivity.
Qed.

Lemma broadcast_shapes_refl (s : list nat) : broadcast_shapes s s = Some s.
Proof.
  unfold broadcast_shapes. rewrite Nat.max_id, pad_shape_self.
  apply broadcast_aligned_refl.
Qed.

(** A scalar can be broadcast to any shape. *)
Lemma broadcast_aligned_ones (s : list nat) :
  broadcast_aligned s (repeat 1 (List.length s)) = Some s.
Proof.
  induction s as [| n s IH]; cbn [broadcast_aligned List.length repeat];
    [reflexivity |].
  rewrite IH. destruct (n =? 1) eqn:Hn; reflexivity.
Qed.

Lemma broadcast_shapes_scalar (s : list nat) : broadcast_shapes s [] = Some s.
Proof.
  unfold broadcast_shapes. simpl List.length. rewrite Nat.max_0_r, pad_shape_self.
  unfold pad_shape. simpl List.length. rewrite Nat.sub_0_r, app_nil_r.
  apply broadcast_aligned_ones.
Qed.

Lemma chunks_concat {A : Type} (k n : nat) (d : list A) :
  List.length d = n * k -> List.concat (chunks k n d) = d.
Proof.
  revert d. induction n as [| n IH]; intros d Hlen; simpl in *.
  - destruct d; [reflexivity | discriminate].
  - rewrite IH.
    + apply firstn_skipn.
    + rewrite length_skipn. lia.
Qed.

Lemma chunks_lengths {A : Type} (k n : nat) (d : list A) :
  List.length d = n * k -> Forall (fun c => List.length c = k) (chunks k n d).
Proof.
  revert d. induction n as [| n IH]; intros d Hlen; simpl in *.
  - constructor.
  - constructor.
    + rewrite length_firstn. lia.
    + apply IH. rewrite length_skipn. lia.
Qed.

Lemma broadcast_data_refl {A : Type} (s : list nat) (d : list A) :
  List.length d = prod_shape s -> broadcast_data s s d = d.
Proof.
  revert d. induction s as [| n s IH]; intros d Hlen;
    cbn [broadcast_data]; [reflexivity |].
  rewrite Nat.eqb_refl. cbn [prod_shape fold_right] in Hlen.
  fold (prod_shape s) in Hlen.
  transitivity (List.concat (chunks (prod_shape s) n d)).
  - f_equal.
    transitivity (map (fun c : list A => c) (chunks (prod_shape s) n d)).
    + apply map_ext_in. intros c Hc.
      pose proof (chunks_lengths (prod_shape s) n d Hlen) as Hall.
      rewrite Forall_forall in Hall. apply IH, Hall, Hc.
    + apply map_id.
  - apply chunks_concat. exact Hlen.
Qed.

(** On two well-formed arrays of one shape a binary operation works item
    by item. *)
Lemma nd_zip_same_shape {A B C : Type} (f : A -> B -> C)
      (a : ndarray A) (b : ndarray B) :
  nd_shape b = nd_shape a -> nd_wf a -> nd_wf b ->
  nd_zip f a b = Ok (mk_ndarray (nd_shape a) (map2 f (nd_data a) (nd_data b))).
Proof.
  intros Hs Ha Hb. unfold nd_zip. rewrite Hs, broadcast_shapes_refl.
  rewrite pad_shape_self.
  rewrite !broadcast_data_refl; [reflexivity | |].
  - unfold nd_wf in Hb. rewrite <- Hs. exact Hb.
  - exact Ha.
Qed.

(** The shape of the outcome, when the shapes agree or the right operand is
    a scalar. *)
Lemma nd_zip_shape_same {A B C : Type} (f : A -> B -> C)
      (a : ndarray A) (b : ndarray B) :
  nd_shape b = nd_shape a ->
  exists r, nd_zip f a b = Ok r /\ nd_shape r = nd_shape a.
Proof.
  intros Hs. unfold nd_zip. rewrite Hs, broadcast_shapes_refl.
  eexists; split; reflexivity.
Qed.

Lemma nd_zip_shape_scalar {A B C : Type} (f : A -> B -> C)
      (a : ndarray A) (y : B) :
  exists r, nd_zip f a (nd_scalar y) = Ok r /\ nd_shape r = nd_shape a.
Proof.
  unfold nd_zip. simpl nd_shape. rewrite broadcast_shapes_scalar.
  eexists; split; reflexivity.
Qed.

Lemma map2_pair_fst_snd {A B : Type} (d : list (A * B)) :
  map2 (fun v s => (v, s)) (map fst d) (map snd d) = d.
Proof.
  induction d as [| [v s] d IH]; simpl; [reflexivity |].
  rewrite IH. reflexivity.
Qed.

Lemma map2_pair_map {A B : Type} (f : A -> B) (d : list A) :
  map2 (fun v s => (v, s)) d (map f d) = map (fun v => (v, f v)) d.
Proof.
  induction d as [| v d IH]; simpl; [reflexivity |].
  rewrite IH. reflexivity.
Qed.

(** ** Construction of maps *)

Lemma init_with_binning (n : string) (h : hist_t) (b : Binning.MultiDimBinning)
      (hs : option Z) (tx : string) (fc : bool) :
  Map.__init__ n h (Map.AsBinning b) None hs (Some tx) fc
  = (Binning.assert_array_fits b (hist_shape h) ;;;
     Ok (Map.mk n h b hs tx fc None)).
Proof. reflexivity. Qed.

Lemma assert_array_fits_ok (b : Binning.MultiDimBinning) (sh : list nat) :
  sh = Binning.shape b -> Binning.assert_array_fits b sh = Ok tt.
Proof.
  intros ->. unfold Binning.assert_array_fits.
  rewrite shape_eqb_refl. reflexivity.
Qed.

Lemma assert_array_fits_inv (b : Binning.MultiDimBinning) (sh : list nat) (u : unit) :
  Binning.assert_array_fits b sh = Ok u -> sh = Binning.shape b.
Proof.
  unfold Binning.assert_array_fits.
  destruct (shape_eqb sh (Binning.shape b)) eqn:Heq; [| discriminate].
  intros _. apply shape_eqb_eq. exact Heq.
Qed.

(** ** Arithmetic on maps *)

Section Operators.
Context `{Externals}.

(** What an operator between two maps computes: the two arrays are
    combined, the outcome must fit the binning of the left operand, and the
    new map takes every other attribute but the flag from the left
    operand.  The binning of the right operand plays no part. *)
Lemma operator_on_map (op : binop) (a b : Map.t) :
  binop_method op a (Map.OMap b)
  = (h <- hist_op op (Map.hist a) (Map.hist b) ;;
     Binning.assert_array_fits (Map.binning a) (hist_shape h) ;;;
     Ok (Map.mk (Map.name a) h (Map.binning a) (Map.hash a) (Map.tex a)
                (Map.full_comparison a || Map.full_comparison b) None)).
Proof.
  destruct op; cbn [binop_method];
    unfold Map.__add__, Map.__sub__, Map.__mul__, Map.__div__, Map.__pow__,
      Map.new_obj, Map.operator_updates;
    destruct (hist_op _ (Map.hist a) (Map.hist b)); reflexivity.
Qed.

(** With a scalar or an array the flag is not among the updates. *)
Lemma operator_on_scalar (op : binop) (a : Map.t) (x : float) :
  binop_method op a (Map.OScalar x)
  = (h <- hist_op op (Map.hist a) (HFloat (nd_scalar x)) ;;
     Binning.assert_array_fits (Map.binning a) (hist_shape h) ;;;
     Ok (Map.mk (Map.name a) h (Map.binning a) (Map.hash a) (Map.tex a)
                (Map.full_comparison a) None)).
Proof.
  destruct op; cbn [binop_method];
    unfold Map.__add__, Map.__sub__, Map.__mul__, Map.__div__, Map.__pow__,
      Map.new_obj, Map.operator_updates;
    destruct (hist_op _ (Map.hist a) (HFloat (nd_scalar x))); reflexivity.
Qed.



Lemma hist_op_scalar (op : binop) (x : hist_t) (v : float) :
  exists h, hist_op op x (HFloat (nd_scalar v)) = Ok h
            /\ hist_shape h = hist_shape x.
Proof.
  destruct x as [x | x]; unfold hist_op;
    match goal with
    | |- context [nd_zip ?f ?a (nd_scalar ?b)] =>
        destruct (nd_zip_shape_scalar f a b) as [r [-> Hr]]
    end; simpl; eexists; (split; [reflexivity | exact Hr]).
Qed.

End Operators.

(** The outcome of an operator, read off the three lemmas above. *)
Lemma operator_outcome `{Externals} (b : Binning.MultiDimBinning)
      (r : result hist_t) (mk_map : hist_t -> Map.t) (m : Map.t) :
  (h <- r ;; Binning.assert_array_fits b (hist_shape h) ;;; Ok (mk_map h)) = Ok m ->
  exists h, r = Ok h /\ hist_shape h = Binning.shape b /\ m = mk_map h.
Proof.
  intros Hm. inv_bind Hm. inv_bind Hm.
  exists a. split; [exact Ha | split].
  - eapply assert_array_fits_inv. exact Ha0.
  - congruence.
Qed.



(** [set_errors] does call [assert_compat] before it combines the array
    of the map with its argument: it returns only for an argument that fits
    the binning. *)
Lemma set_errors_asserts_compat (m m' : Map.t) (e : ndarray float) :
  Map.set_errors m (Some e) = Ok m' ->
  Map.assert_compat m (Map.OArray (HFloat e)) = Ok tt
  /\ nd_shape e = Binning.shape (Map.binning m).
Proof.
  unfold Map.set_errors. intros Hm'. inv_bind Hm'. destruct a.
  split; [exact Ha |].
  eapply assert_array_fits_inv. exact Ha.
Qed.

(** C3.  The operators between two maps at work on [map_x] and [map_y],
    whose binnings have the same shape and different axes: the assertion
    [Map.assert_compat] rejects the pair, and each of the five operators
    returns a map on the binning of [map_x].  With [map_row], of shape
    (1, 3), the array is stretched to the shape (2, 3) of [map_x]. *)
Theorem operators_skip_binning_compat :
  Map.assert_compat Examples.map_x (Map.OMap Examples.map_y)
  = Raise (ValueError "incompatible binning")
  /\ (forall op, exists r,
         binop_method (H := Examples.test_externals) op Examples.map_x
                      (Map.OMap Examples.map_y) = Ok r
         /\ Map.binning r = Map.binning Examples.map_x)
  /\ Map.assert_compat Examples.map_x (Map.OMap Examples.map_row)
     = Raise (ValueError "incompatible binning")
  /\ (exists r,
         Map.__add__ (H := Examples.test_externals) Examples.map_x
                     (Map.OMap Examples.map_row) = Ok r
         /\ unp_nominal_values (Map.hist r) = Examples.full [2; 3] 6).
Proof.
  split; [reflexivity | split; [| split; [reflexivity |]]].
  - intros op. rewrite operator_on_map.
    destruct op; eexists; (split; [vm_compute; reflexivity | reflexivity]).
  - eexists. split; [vm_compute; reflexivity | vm_compute; reflexivity].
Qed.

(** ** Indexing *)

(** [index] hands the decorator a new array and a new binning only, so
    that the name, the label, the flag and also the hash of the outcome
    are those of the map that is indexed. *)
Lemma index_copies_unaltered_state (m r : Map.t) (idx : py_index) :
  Map.index m idx = Ok r ->
  Map.name r = Map.name m
  /\ Map.tex r = Map.tex m
  /\ Map.full_comparison r = Map.full_comparison m
  /\ Map.hash r = Map.hash m.
Proof.
  unfold Map.index, Map.new_obj. intros Hr. inv_bind Hr.
  destruct idx as [items | item]; [| discriminate Ha].
  inv_bind Ha. inv_bind Ha. inv_bind Ha. inv_bind Ha.
  injection Ha as <-. cbn [Map.has_key Map.u_name Map.u_hist Map.u_binning
    Map.u_hash Map.u_tex Map.u_full_comparison] in Hr.
  rewrite init_with_binning in Hr. inv_bind Hr.
  injection Hr as <-. repeat split; reflexivity.
Qed.

Lemma mapM_Forall {A B : Type} (f : A -> result B) (P : B -> Prop)
      (xs : list A) (ys : list B) :
  (forall x y, f x = Ok y -> P y) -> mapM f xs = Ok ys -> Forall P ys.
Proof.
  intros Hf. revert ys. induction xs as [| x xs IH]; intros ys Hys; simpl in Hys.
  - injection Hys as <-. constructor.
  - inv_bind Hys. inv_bind Hys. injection Hys as <-.
    constructor; [eapply Hf; eassumption | apply IH; assumption].
Qed.

(** [iterbins], which also cuts maps out of a map, passes [hash=None] to
    the constructor: its one-bin maps keep the name, the label and the
    flag and have no hash. *)
Lemma iterbins_resets_hash (m : Map.t) (bins : list Map.t) :
  Map.iterbins m = Ok bins ->
  Forall (fun b => Map.hash b = None
                   /\ Map.name b = Map.name m
                   /\ Map.tex b = Map.tex m
                   /\ Map.full_comparison b = Map.full_comparison m) bins.
Proof.
  unfold Map.iterbins. apply mapM_Forall.
  intros i b Hb. inv_bind Hb. inv_bind Hb. inv_bind Hb.
  rewrite init_with_binning in Ha1. inv_bind Ha1.
  injection Ha1 as <-. injection Hb as <-.
  repeat split; reflexivity.
Qed.

(** C5.  Indexing [map_x], whose hash is 42, with [[0, 0:2]]: the outcome
    has the shape (1, 2), the name, the label and the flag of [map_x], and
    its hash is 42 as well, so that it compares equal to [map_x]. *)
Theorem getitem_keeps_hash :
  exists r,
    Map.__getitem__ Examples.map_x (ITuple [IInt 0; ISlice 0 2]) = Ok r
    /\ hist_shape (Map.hist r) = [1; 2]
    /\ Map.name r = Map.name Examples.map_x
    /\ Map.tex r = Map.tex Examples.map_x
    /\ Map.full_comparison r = Map.full_comparison Examples.map_x
    /\ Map.hash r = Some 42%Z
    /\ Map.__eq__ (H := Examples.test_externals) r (Map.OMap Examples.map_x)
       = Ok true.
Proof.
  eexists. split; [vm_compute; reflexivity |].
  repeat split; vm_compute; reflexivity.
Qed.

(** ** Poisson errors *)

Lemma fsqrt_max_nonnegative (x : float) :
  fltb x fzero = false -> spec_poisson_std x = fsqrt x.
Proof.
  unfold spec_poisson_std, fmax. intros ->. reflexivity.
Qed.

Lemma fsqrt_max_negative (x : float) :
  fltb x fzero = true -> spec_poisson_std x = fzero /\ fsqrt x = fnan.
Proof.
  unfold spec_poisson_std, fmax. intros Hneg. rewrite Hneg.
  split; [reflexivity |].
  destruct x as [s | [|] | | [|] m e]; try discriminate Hneg; reflexivity.
Qed.

(** C6, as the code has it.  On a map with a bare array
    [set_poisson_errors] returns, and whenever it returns the nominal values
    are unchanged and the standard deviation of each bin is the square root
    of its nominal value; that is [sqrt(max(nominal_value, 0))] when no bin
    is negative. *)
Theorem set_poisson_errors_sqrt (m : Map.t) :
  hist_wf (Map.hist m) ->
  (forall a, Map.hist m = HFloat a ->
             exists m', Map.set_poisson_errors m = Ok m')
  /\ (forall m', Map.set_poisson_errors m = Ok m' ->
        unp_nominal_values (Map.hist m') = unp_nominal_values (Map.hist m)
        /\ unp_std_devs (Map.hist m')
           = nd_map fsqrt (unp_nominal_values (Map.hist m))
        /\ ((forall x, In x (nd_data (unp_nominal_values (Map.hist m))) ->
                       fltb x fzero = false) ->
            unp_std_devs (Map.hist m')
            = nd_map spec_poisson_std (unp_nominal_values (Map.hist m)))).
Proof.
  intros Hwf.
  assert (Hrun : forall a, Map.hist m = HFloat a ->
            Map.set_poisson_errors m
            = Ok (Map.set_hist m
                    (HUnc (mk_ndarray (nd_shape a)
                             (map (fun v => (v, fsqrt v)) (nd_data a)))))).
  { intros a Ha. unfold Map.set_poisson_errors. rewrite Ha in *. simpl in Hwf.
    cbn [np_sqrt bind unp_uarray].
    rewrite nd_zip_same_shape; [| reflexivity | exact Hwf |].
    - cbn [bind nd_map nd_data nd_shape]. rewrite map2_pair_map. reflexivity.
    - unfold nd_wf, nd_map. cbn [nd_data nd_shape].
      rewrite length_map. exact Hwf. }
  split.
  - intros a Ha. eexists. apply Hrun. exact Ha.
  - intros m' Hm'.
    destruct (Map.hist m) as [a | a] eqn:Hh.
    + rewrite (Hrun a eq_refl) in Hm'. injection Hm' as <-.
      cbn [Map.set_hist Map.hist unp_nominal_values unp_std_devs].
      unfold nd_map. cbn [nd_data nd_shape]. rewrite !map_map.
      cbn [nominal_value std_dev fst snd]. rewrite map_id.
      destruct a as [sh d]. cbn [nd_data nd_shape].
      split; [reflexivity | split; [reflexivity |]].
      intros Hpos. f_equal. apply map_ext_in. intros x Hx.
      symmetry. apply fsqrt_max_nonnegative, Hpos, Hx.
    + unfold Map.set_poisson_errors in Hm'. rewrite Hh in Hm'.
      discriminate Hm'.
Qed.

Lemma set_poisson_errors_sqrt_witness :
  exists m',
    Map.set_poisson_errors Examples.map_twos = Ok m'
    /\ unp_nominal_values (Map.hist m') = Examples.twos
    /\ unp_std_devs (Map.hist m') = nd_map spec_poisson_std Examples.twos.
Proof.
  assert (Hwf : hist_wf (Map.hist Examples.map_twos)) by reflexivity.
  destruct (set_poisson_errors_sqrt Examples.map_twos Hwf) as [Hret Hval].
  destruct (Hret Examples.twos eq_refl) as [m' Hm'].
  exists m'. destruct (Hval m' Hm') as [Hnom [_ Hspec]].
  split; [exact Hm' | split; [exact Hnom |]].
  apply Hspec. intros x Hx. vm_compute in Hx.
  repeat (destruct Hx as [<- | Hx]; [reflexivity |]). contradiction.
Defined.

(** On the one-bin map that holds -1 the standard deviation set by
    [set_poisson_errors] is NaN, where [sqrt(max(nominal_value, 0))] is 0. *)
Lemma set_poisson_errors_negative_bin :
  exists m',
    Map.set_poisson_errors Examples.map_negative = Ok m'
    /\ nd_data (unp_std_devs (Map.hist m')) = [fnan]
    /\ nd_data (nd_map spec_poisson_std
                  (unp_nominal_values (Map.hist Examples.map_negative)))
       = [fzero]
    /\ unp_std_devs (Map.hist m')
       <> nd_map spec_poisson_std
            (unp_nominal_values (Map.hist Examples.map_negative)).
Proof.
  eexists. split; [vm_compute; reflexivity |].
  split; [reflexivity | split; [reflexivity |]].
  vm_compute. discriminate.
Qed.

(** ** Serialization *)

Lemma of_state_serializable_state (b : Binning.MultiDimBinning) :
  Binning.of_state (Binning._serializable_state b) = b.
Proof.
  unfold Binning.of_state, Binning._serializable_state.
  rewrite map_map. cbn [fst snd].
  induction b as [| [n e] b IH]; simpl; [reflexivity |].
  rewrite IH. reflexivity.
Qed.

Lemma init_from_state (n : string) (h : hist_t) (st : Binning.state)
      (e : option (ndarray float)) (hs : option Z) (tx : string) (fc : bool) :
  Map.__init__ n h (Map.AsMapping st) e hs (Some tx) fc
  = (Binning.assert_array_fits (Binning.of_state st) (hist_shape h) ;;;
     match e with
     | Some e' =>
         Map.set_errors (Map.mk n h (Binning.of_state st) hs tx fc None) (Some e')
     | None => Ok (Map.mk n h (Binning.of_state st) hs tx fc None)
     end).
Proof. reflexivity. Qed.

Lemma shape_nominal_values (h : hist_t) :
  nd_shape (unp_nominal_values h) = hist_shape h.
Proof. destruct h; reflexivity. Qed.

Lemma shape_std_devs (h : hist_t) : nd_shape (unp_std_devs h) = hist_shape h.
Proof. destruct h; reflexivity. Qed.

Lemma wf_nominal_values (h : hist_t) : hist_wf h -> nd_wf (unp_nominal_values h).
Proof.
  destruct h as [a | a]; simpl; [auto |].
  unfold nd_wf, nd_map. cbn [nd_data nd_shape]. rewrite length_map. auto.
Qed.

Lemma wf_std_devs (h : hist_t) : hist_wf h -> nd_wf (unp_std_devs h).
Proof.
  destruct h as [a | a]; simpl;
    unfold nd_wf, nd_map; cbn [nd_data nd_shape]; rewrite length_map; auto.
Qed.

Lemma all_zero_bare (a : ndarray float) :
  all_zero (nd_map (fun _ => fzero) a) = true.
Proof.
  unfold all_zero, np_all, nd_map. cbn [nd_data]. rewrite !map_map.
  induction (nd_data a) as [| x d IH]; simpl; [reflexivity | exact IH].
Qed.

Lemma hash_eqb_refl (h : option Z) : Map.hash_eqb h h = true.
Proof. destruct h; simpl; [apply Z.eqb_refl | reflexivity]. Qed.

(** What the constructor rebuilds from the serializable state of a map:
    the map itself, but for a payload that loses its uncertainties when
    they are all zero, and for the parent indexer. *)
Lemma from_serializable_state (m : Map.t) :
  hist_wf (Map.hist m) ->
  hist_shape (Map.hist m) = Binning.shape (Map.binning m) ->
  Map.from_state (Map._serializable_state m)
  = Ok (Map.mk (Map.name m)
               (if all_zero (unp_std_devs (Map.hist m))
                then HFloat (unp_nominal_values (Map.hist m))
                else Map.hist m)
               (Map.binning m) (Map.hash m) (Map.tex m)
               (Map.full_comparison m) None).
Proof.
  intros Hwf Hfit.
  unfold Map.from_state, Map._serializable_state.
  cbn [ss_name ss_hist ss_binning ss_error_hist ss_hash ss_tex
       ss_full_comparison].
  rewrite init_from_state, of_state_serializable_state.
  rewrite assert_array_fits_ok
    by (cbn [hist_shape]; rewrite shape_nominal_values; exact Hfit).
  cbn [bind]. fold (all_zero (unp_std_devs (Map.hist m))).
  destruct (all_zero (unp_std_devs (Map.hist m))) eqn:Hzero; [reflexivity |].
  destruct (Map.hist m) as [a | d] eqn:Hh.
  - cbn [unp_std_devs] in Hzero. rewrite all_zero_bare in Hzero. discriminate.
  - unfold Map.set_errors, Map.assert_compat. cbn [Map.binning hist_shape].
    rewrite assert_array_fits_ok by exact Hfit.
    cbn [bind Map.hist unp_uarray unp_nominal_values unp_std_devs].
    rewrite nd_zip_same_shape; [| reflexivity | |].
    + cbn [bind nd_map nd_data nd_shape Map.set_hist Map.name Map.binning
           Map.hash Map.tex Map.full_comparison Map.parent_indexer].
      destruct d as [sh items]. cbn [nd_data nd_shape].
      assert (Hitems : map2 (fun v s : float => (v, s))
                         (map nominal_value items) (map std_dev items)
                       = items) by exact (map2_pair_fst_snd items).
      rewrite Hitems. reflexivity.
    + apply (wf_nominal_values (HUnc d)). exact Hwf.
    + apply (wf_std_devs (HUnc d)). exact Hwf.
Qed.

Section RoundTrip.
Context `{Externals}.

(** Rounding is assumed to send zero to zero. *)
Hypothesis normQuant_zero :
  forall x, feqb x fzero = true -> feqb (normQuant x 12) fzero = true.

Lemma all_zero_rounded (a : ndarray float) :
  all_zero a = true -> all_zero (rounded a) = true.
Proof.
  unfold all_zero, rounded, np_all, nd_map. cbn [nd_data].
  rewrite !map_map.
  induction (nd_data a) as [| x d IH]; simpl; [reflexivity |].
  intros Hz. apply andb_true_iff in Hz. destruct Hz as [Hx Hd].
  rewrite (normQuant_zero x Hx). simpl. apply IH. exact Hd.
Qed.

(** The canonical state does not see whether zero uncertainties are
    attached to the payload or not. *)
Lemma hashable_state_without_errors (m : Map.t) :
  all_zero (unp_std_devs (Map.hist m)) = true ->
  Map._hashable_state
    (Map.mk (Map.name m) (HFloat (unp_nominal_values (Map.hist m)))
            (Map.binning m) (Map.hash m) (Map.tex m)
            (Map.full_comparison m) None)
  = Map._hashable_state m.
Proof.
  intros Hzero. rewrite !hashable_state_fields.
  cbn [Map.name Map.hist Map.binning Map.tex Map.full_comparison
       unp_nominal_values unp_std_devs].
  rewrite (all_zero_rounded _ (all_zero_bare _)).
  rewrite (all_zero_rounded _ Hzero). reflexivity.
Qed.

End RoundTrip.

(** C2.  Reading back what [to_json] wrote gives a map that is equal to the
    one written: [==] returns true, and so does the full comparison of the
    two canonical states.  Nominal values come back as they were.  When
    every standard deviation is zero the error field of the state is
    [None] and the map read back carries a bare array, whose standard
    deviations are zero; otherwise the field holds the standard deviations
    and the payload comes back as it was.  The externals are taken to parse
    what they write, to round zero to zero and to compare the canonical
    state of the map equal to itself. *)
Theorem json_round_trip `{Externals} (m : Map.t) :
  hist_wf (Map.hist m) ->
  hist_shape (Map.hist m) = Binning.shape (Map.binning m) ->
  (forall s, jsons_from_json (jsons_to_json s) = Ok s) ->
  (forall x, feqb x fzero = true -> feqb (normQuant x 12) fzero = true) ->
  recursiveEquality (Map._hashable_state m) (Map._hashable_state m) = true ->
  exists m',
    Map.from_json (Map.to_json m) = Ok m'
    /\ Map.__eq__ m' (Map.OMap m) = Ok true
    /\ recursiveEquality (Map._hashable_state m') (Map._hashable_state m) = true
    /\ unp_nominal_values (Map.hist m') = unp_nominal_values (Map.hist m)
    /\ (all_zero (unp_std_devs (Map.hist m)) = true ->
        ss_error_hist (Map._serializable_state m) = None
        /\ Map.hist m' = HFloat (unp_nominal_values (Map.hist m))
        /\ unp_std_devs (Map.hist m')
           = nd_map (fun _ => fzero) (unp_nominal_values (Map.hist m)))
    /\ (all_zero (unp_std_devs (Map.hist m)) = false ->
        ss_error_hist (Map._serializable_state m)
        = Some (unp_std_devs (Map.hist m))
        /\ Map.hist m' = Map.hist m).
Proof.
  intros Hwf Hfit Hcodec Hround Hrefl.
  unfold Map.from_json, Map.to_json. rewrite Hcodec. cbn [bind].
  rewrite (from_serializable_state m Hwf Hfit).
  eexists. split; [reflexivity |].
  assert (Hstate :
            Map._hashable_state
              (Map.mk (Map.name m)
                      (if all_zero (unp_std_devs (Map.hist m))
                       then HFloat (unp_nominal_values (Map.hist m))
                       else Map.hist m)
                      (Map.binning m) (Map.hash m) (Map.tex m)
                      (Map.full_comparison m) None)
            = Map._hashable_state m).
  { destruct (all_zero (unp_std_devs (Map.hist m))) eqn:Hzero.
    - apply (hashable_state_without_errors Hround). exact Hzero.
    - reflexivity. }
  split; [| split; [| split; [| split]]].
  - unfold Map.__eq__. rewrite Hstate, Hrefl.
    cbn [Map.full_comparison Map.hash]. rewrite hash_eqb_refl.
    destruct (Map.full_comparison m || Map.full_comparison m
              || Map.is_None (Map.hash m) || Map.is_None (Map.hash m));
      reflexivity.
  - rewrite Hstate. exact Hrefl.
  - cbn [Map.hist].
    destruct (all_zero (unp_std_devs (Map.hist m))); reflexivity.
  - intros Hzero. unfold Map._serializable_state. cbn [ss_error_hist Map.hist].
    fold (all_zero (unp_std_devs (Map.hist m))). rewrite Hzero.
    repeat split; reflexivity.
  - intros Hzero. unfold Map._serializable_state. cbn [ss_error_hist Map.hist].
    fold (all_zero (unp_std_devs (Map.hist m))). rewrite Hzero.
    split; reflexivity.
Qed.

(** The round trip of [map_unc], which carries an error on every bin, and
    of [map_twos], which carries none. *)
Lemma json_round_trip_witness :
  (exists m',
      Map.from_json (H := Examples.test_externals)
        (Map.to_json (H := Examples.test_externals) Examples.map_unc) = Ok m'
      /\ Map.__eq__ (H := Examples.test_externals) m'
           (Map.OMap Examples.map_unc) = Ok true
      /\ Map.hist m' = Map.hist Examples.map_unc)
  /\ (exists m',
         Map.from_json (H := Examples.test_externals)
           (Map.to_json (H := Examples.test_externals) Examples.map_twos)
         = Ok m'
         /\ Map.__eq__ (H := Examples.test_externals) m'
              (Map.OMap Examples.map_twos) = Ok true
         /\ ss_error_hist (Map._serializable_state Examples.map_twos) = None).
Proof.
  split.
  - destruct (json_round_trip (H := Examples.test_externals) Examples.map_unc)
      as [m' [Hread [Heq [_ [_ [_ Herr]]]]]];
      try reflexivity; [intros x Hx; exact Hx |].
    exists m'. split; [exact Hread | split; [exact Heq |]].
    apply Herr. reflexivity.
  - destruct (json_round_trip (H := Examples.test_externals) Examples.map_twos)
      as [m' [Hread [Heq [_ [_ [Hzero _]]]]]];
      try reflexivity; [intros x Hx; exact Hx |].
    exists m'. split; [exact Hread | split; [exact Heq |]].
    apply Hzero. reflexivity.
Defined.

(** ** Operations broadcast over a map set *)

Lemma mapM_IsMap (ms : list Map.t) :
  mapM (fun m => match m with
                 | MapSet.IsMap mp => Ok mp
                 | MapSet.IsState state => Map.from_state state
                 end) (map MapSet.IsMap ms) = Ok ms.
Proof.
  induction ms as [| m ms IH]; simpl; [reflexivity |].
  rewrite IH. reflexivity.
Qed.

Lemma mapset_of_maps (ms : list Map.t) :
  MapSet.__init__ (map MapSet.IsMap ms) None None true
  = Ok (MapSet.mk ms None "{\rm None}" true false).
Proof. unfold MapSet.__init__. rewrite mapM_IsMap. reflexivity. Qed.

(** The two passes of [apply_to_maps]: arguments for every member first,
    calls next.  When both passes return, the call at each position was
    made on the argument built for that position. *)
Lemma two_passes_inv {X Y Z : Type}
      (F : nat * X -> result Y) (G : X * Y -> result Z) (xs : list X) :
  forall (n : nat) (ys : list Y) (zs : list Z),
    mapM F (MapSet.enumerate_from n xs) = Ok ys ->
    mapM G (combine xs ys) = Ok zs ->
    List.length zs = List.length xs
    /\ forall i x, nth_error xs i = Some x ->
         exists y z, F (n + i, x) = Ok y /\ G (x, y) = Ok z
                     /\ nth_error zs i = Some z.
Proof.
  induction xs as [| x0 xs IH]; intros n ys zs HF HG.
  - simpl in HF. injection HF as <-. simpl in HG. injection HG as <-.
    split; [reflexivity |]. intros [| i] x Hx; discriminate Hx.
  - cbn [MapSet.enumerate_from mapM] in HF.
    inv_bind HF. rename a into y0. inv_bind HF. rename a into ys'.
    injection HF as <-.
    cbn [combine mapM] in HG.
    inv_bind HG. rename a into z0. inv_bind HG. rename a into zs'.
    injection HG as <-.
    destruct (IH (S n) ys' zs' Ha0 Ha2) as [Hlen Hnth].
    split; [simpl; congruence |].
    intros [| i] x Hx.
    + injection Hx as <-. exists y0, z0. rewrite Nat.add_0_r.
      repeat split; assumption.
    + cbn [nth_error] in Hx. destruct (Hnth i x Hx) as [y [z [Hy [Hz Hi]]]].
      exists y, z. rewrite Nat.add_succ_r. repeat split; assumption.
Qed.

(** Both passes return when, at each position, the argument can be built
    and the call on it returns. *)
Lemma two_passes_run {X Y Z : Type}
      (F : nat * X -> result Y) (G : X * Y -> result Z) (xs : list X) :
  forall n : nat,
    (forall i x, nth_error xs i = Some x ->
                 exists y z, F (n + i, x) = Ok y /\ G (x, y) = Ok z) ->
    exists ys zs, mapM F (MapSet.enumerate_from n xs) = Ok ys
                  /\ mapM G (combine xs ys) = Ok zs.
Proof.
  induction xs as [| x0 xs IH]; intros n Hall.
  - exists [], []. split; reflexivity.
  - destruct (Hall 0 x0 eq_refl) as [y0 [z0 [Hy0 Hz0]]].
    rewrite Nat.add_0_r in Hy0.
    destruct (IH (S n)) as [ys [zs [Hys Hzs]]].
    { intros i x Hx. destruct (Hall (S i) x Hx) as [y [z [Hy Hz]]].
      rewrite Nat.add_succ_r in Hy. exists y, z. split; assumption. }
    exists (y0 :: ys), (z0 :: zs).
    cbn [MapSet.enumerate_from mapM combine].
    rewrite Hy0, Hys, Hz0, Hzs. split; reflexivity.
Qed.

Lemma tuple_index_nth (x : string) (l : list string) (k : nat) :
  MapSet.tuple_index x l = Some k -> nth_error l k = Some x.
Proof.
  revert k. induction l as [| y l IH]; intros k Hk; simpl in Hk.
  - discriminate.
  - destruct (String.eqb y x) eqn:Hyx.
    + injection Hk as <-. apply String.eqb_eq in Hyx. subst. reflexivity.
    + destruct (MapSet.tuple_index x l) as [i |]; [| discriminate].
      injection Hk as <-. simpl. apply IH. reflexivity.
Qed.

Lemma tuple_index_In (x : string) (l : list string) :
  In x l -> exists k, MapSet.tuple_index x l = Some k.
Proof.
  induction l as [| y l IH]; intros Hin; [contradiction |].
  simpl. destruct (String.eqb y x) eqn:Hyx; [exists 0; reflexivity |].
  destruct Hin as [-> | Hin].
  - rewrite String.eqb_refl in Hyx. discriminate.
  - destruct (IH Hin) as [k ->]. exists (S k). reflexivity.
Qed.

(** Looking a name up gives the first member of that name. *)
Lemma find_map_first (s : MapSet.t) (x : string) :
  In x (MapSet.names s) ->
  exists k a, MapSet.tuple_index x (MapSet.names s) = Some k
              /\ nth_error (MapSet.maps s) k = Some a
              /\ Map.name a = x
              /\ MapSet.find_map s x = Ok a.
Proof.
  intros Hin. destruct (tuple_index_In x _ Hin) as [k Hk].
  pose proof (tuple_index_nth _ _ _ Hk) as Hnth.
  unfold MapSet.names in Hnth. rewrite nth_error_map in Hnth.
  destruct (nth_error (MapSet.maps s) k) as [a |] eqn:Ha; [| discriminate].
  injection Hnth as Hname.
  exists k, a. repeat split; try assumption.
  unfold MapSet.find_map, MapSet.maps_item. rewrite Hk, Ha. reflexivity.
Qed.

Section Alignment.
Context `{Externals}.

Lemma add_keeps_name (a b r : Map.t) :
  Map.__add__ a (Map.OMap b) = Ok r -> Map.name r = Map.name a.
Proof.
  intros Hr. change (binop_method Add a (Map.OMap b) = Ok r) in Hr.
  rewrite operator_on_map in Hr. apply operator_outcome in Hr.
  destruct Hr as [h [_ [_ ->]]]. reflexivity.
Qed.

(** [A + B] for two map sets: when it returns, the member at each
    position is the sum of the member of [A] there with the member of [B]
    that the alignment of [A] selects. *)
Lemma add_mapset_inv (A B R : MapSet.t) :
  MapSet.__add__ A (MapSet.AMapSet B) = Ok R ->
  List.length (MapSet.maps R) = List.length (MapSet.maps A)
  /\ forall i a, nth_error (MapSet.maps A) i = Some a ->
       exists b r, sibling A B i a = Ok b
                   /\ Map.__add__ a (Map.OMap b) = Ok r
                   /\ nth_error (MapSet.maps R) i = Some r.
Proof.
  unfold MapSet.__add__, MapSet.apply_to_maps, MapSet.enumerate.
  intros HR. inv_bind HR. rename a into argss. inv_bind HR. rename a into vals.
  rewrite mapset_of_maps in HR. injection HR as <-. cbn [MapSet.maps].
  destruct (two_passes_inv _ _ _ _ _ _ Ha Ha0) as [Hlen Hnth].
  split; [exact Hlen |].
  intros i a Hia. destruct (Hnth i a Hia) as [args [r [Hargs [Hcall Hr]]]].
  cbn [Nat.add mapM] in Hargs. unfold MapSet.arg_for_map, sibling in *.
  destruct (MapSet.collate_by_name A).
  - destruct (MapSet.find_map B (Map.name a)) as [b | e]; [| discriminate].
    cbn in Hargs. injection Hargs as <-.
    exists b, r. repeat split; assumption.
  - destruct (MapSet.collate_by_num A).
    + destruct (MapSet.maps_item B i) as [b | e]; [| discriminate].
      cbn in Hargs. injection Hargs as <-.
      exists b, r. repeat split; assumption.
    + cbn in Hargs. injection Hargs as <-. discriminate Hcall.
Qed.

Lemma add_mapset_run (A B : MapSet.t) :
  (forall i a, nth_error (MapSet.maps A) i = Some a ->
     exists b r, sibling A B i a = Ok b /\ Map.__add__ a (Map.OMap b) = Ok r) ->
  exists R, MapSet.__add__ A (MapSet.AMapSet B) = Ok R.
Proof.
  intros Hall.
  unfold MapSet.__add__, MapSet.apply_to_maps, MapSet.enumerate.
  match goal with
  | |- context [bind (mapM ?F (MapSet.enumerate_from 0 _))
                     (fun args_per_map => bind (mapM ?G _) _)] =>
      destruct (two_passes_run F G (MapSet.maps A) 0) as [ys [zs [Hys Hzs]]]
  end.
  - intros i a Hia. destruct (Hall i a Hia) as [b [r [Hb Hr]]].
    exists [Map.OMap b], r. cbn [Nat.add mapM].
    unfold MapSet.arg_for_map, sibling in *.
    destruct (MapSet.collate_by_name A).
    + rewrite Hb. cbn. split; [reflexivity | exact Hr].
    + destruct (MapSet.collate_by_num A); [| discriminate Hb].
      rewrite Hb. cbn. split; [reflexivity | exact Hr].
  - rewrite Hys. cbn [bind]. rewrite Hzs. cbn [bind].
    rewrite mapset_of_maps. eexists; reflexivity.
Qed.

Lemma add_mapset_names (A B R : MapSet.t) :
  MapSet.__add__ A (MapSet.AMapSet B) = Ok R ->
  MapSet.names R = MapSet.names A.
Proof.
  intros HR. destruct (add_mapset_inv _ _ _ HR) as [Hlen Hnth].
  unfold MapSet.names. apply nth_error_ext. intros i.
  rewrite !nth_error_map.
  destruct (nth_error (MapSet.maps A) i) as [a |] eqn:Ha.
  - destruct (Hnth i a Ha) as [b [r [_ [Hsum ->]]]]. simpl.
    f_equal. eapply add_keeps_name. exact Hsum.
  - apply nth_error_None in Ha. rewrite <- Hlen in Ha.
    apply nth_error_None in Ha. rewrite Ha. reflexivity.
Qed.

End Alignment.

(** C4, as the code has it.  Let [A] collate by name, and let every member
    of [A] have a member of its name in [B] to which it can be added: then
    [A + B] returns, and for each name [x] of [A] the member [x] of the sum
    is [A[x] + B[x]].  Let [A] collate by number, and let every member of
    [A] have a member at its position in [B] to which it can be added: then
    [A + B] returns, and the member at each position of the sum is the sum
    of the two members at that position; names play no part. *)
Theorem mapset_add_alignment `{Externals} (A B : MapSet.t) :
  (MapSet.collate_by_name A = true ->
   (forall a, In a (MapSet.maps A) ->
      exists b r, MapSet.find_map B (Map.name a) = Ok b
                  /\ Map.__add__ a (Map.OMap b) = Ok r) ->
   exists R,
     MapSet.__add__ A (MapSet.AMapSet B) = Ok R
     /\ forall x, In x (MapSet.names A) ->
          exists a b r,
            MapSet.__getitem__ A (MapSet.ByName x) = Ok (MapSet.GotMap a)
            /\ MapSet.__getitem__ B (MapSet.ByName x) = Ok (MapSet.GotMap b)
            /\ Map.__add__ a (Map.OMap b) = Ok r
            /\ MapSet.__getitem__ R (MapSet.ByName x) = Ok (MapSet.GotMap r))
  /\ (MapSet.collate_by_name A = false ->
      MapSet.collate_by_num A = true ->
      (forall i a, nth_error (MapSet.maps A) i = Some a ->
         exists b r, nth_error (MapSet.maps B) i = Some b
                     /\ Map.__add__ a (Map.OMap b) = Ok r) ->
      exists R,
        MapSet.__add__ A (MapSet.AMapSet B) = Ok R
        /\ List.length (MapSet.maps R) = List.length (MapSet.maps A)
        /\ forall i a, nth_error (MapSet.maps A) i = Some a ->
             exists b r,
               MapSet.__getitem__ B (MapSet.ByPosition i) = Ok (MapSet.GotMap b)
               /\ Map.__add__ a (Map.OMap b) = Ok r
               /\ MapSet.__getitem__ R (MapSet.ByPosition i)
                  = Ok (MapSet.GotMap r)).
Proof.
  split.
  - intros Hname Hall.
    destruct (add_mapset_run A B) as [R HR].
    { intros i a Hia. unfold sibling. rewrite Hname.
      apply Hall. eapply nth_error_In. exact Hia. }
    exists R. split; [exact HR |].
    intros x Hx.
    destruct (find_map_first A x Hx) as [k [a [Hk [Hka [Hna HAx]]]]].
    destruct (add_mapset_inv _ _ _ HR) as [_ Hnth].
    destruct (Hnth k a Hka) as [b [r [Hb [Hsum Hr]]]].
    unfold sibling in Hb. rewrite Hname, Hna in Hb.
    exists a, b, r. cbn [MapSet.__getitem__].
    rewrite HAx, Hb. cbn [bind].
    repeat split; try reflexivity; [exact Hsum |].
    unfold MapSet.find_map, MapSet.maps_item.
    rewrite (add_mapset_names _ _ _ HR), Hk, Hr. reflexivity.
  - intros Hname Hnum Hall.
    assert (Hsib : forall i a, nth_error (MapSet.maps A) i = Some a ->
              exists b r, sibling A B i a = Ok b
                          /\ Map.__add__ a (Map.OMap b) = Ok r).
    { intros i a Hia. destruct (Hall i a Hia) as [b [r [Hb Hr]]].
      exists b, r. unfold sibling, MapSet.maps_item.
      rewrite Hname, Hnum, Hb. split; [reflexivity | exact Hr]. }
    destruct (add_mapset_run A B Hsib) as [R HR].
    exists R. split; [exact HR |].
    destruct (add_mapset_inv _ _ _ HR) as [Hlen Hnth].
    split; [exact Hlen |].
    intros i a Hia. destruct (Hnth i a Hia) as [b [r [Hb [Hsum Hr]]]].
    unfold sibling in Hb. rewrite Hname, Hnum in Hb.
    exists b, r. cbn [MapSet.__getitem__]. rewrite Hb. cbn [bind].
    repeat split; try reflexivity; [exact Hsum |].
    unfold MapSet.maps_item. rewrite Hr. reflexivity.
Qed.

(** [set_xy + set_yx] pairs the members by name although their orders
    differ; [set_by_num + set_renamed] pairs the members by position
    although no name is shared. *)
Lemma mapset_add_alignment_witness :
  (exists R a b r,
      MapSet.__add__ (H := Examples.test_externals) Examples.set_xy
        (MapSet.AMapSet Examples.set_yx) = Ok R
      /\ MapSet.__getitem__ Examples.set_xy (MapSet.ByName "x")
         = Ok (MapSet.GotMap a)
      /\ MapSet.__getitem__ Examples.set_yx (MapSet.ByName "x")
         = Ok (MapSet.GotMap b)
      /\ Map.__add__ (H := Examples.test_externals) a (Map.OMap b) = Ok r
      /\ MapSet.__getitem__ R (MapSet.ByName "x") = Ok (MapSet.GotMap r))
  /\ (exists R b r,
         MapSet.__add__ (H := Examples.test_externals) Examples.set_by_num
           (MapSet.AMapSet Examples.set_renamed) = Ok R
         /\ MapSet.__getitem__ Examples.set_renamed (MapSet.ByPosition 1)
            = Ok (MapSet.GotMap b)
         /\ Map.__add__ (H := Examples.test_externals)
              (Examples.named "fours" 4) (Map.OMap b) = Ok r
         /\ MapSet.__getitem__ R (MapSet.ByPosition 1) = Ok (MapSet.GotMap r)).
Proof.
  split.
  - destruct (proj1 (mapset_add_alignment (H := Examples.test_externals)
                       Examples.set_xy Examples.set_yx) eq_refl)
      as [R [HR Hx]].
    { intros a [<- | [<- | []]]; eexists; eexists;
        (split; [vm_compute; reflexivity | vm_compute; reflexivity]). }
    destruct (Hx "x") as [a [b [r Hall]]]; [left; reflexivity |].
    exists R, a, b, r. split; [exact HR | exact Hall].
  - destruct (proj2 (mapset_add_alignment (H := Examples.test_externals)
                       Examples.set_by_num Examples.set_renamed)
                eq_refl eq_refl)
      as [R [HR [_ Hi]]].
    { intros i a Ha.
      destruct i as [| [| i]]; cbn in Ha;
        [| | destruct i; discriminate Ha];
        injection Ha as <-; eexists; eexists;
        (split; [vm_compute; reflexivity | vm_compute; reflexivity]). }
    destruct (Hi 1 (Examples.named "fours" 4) eq_refl) as [b [r Hall]].
    exists R, b, r. split; [exact HR | exact Hall].
Defined.

(** With [set_xy] and [set_x], which both collate by name and both hold a
    member named x, [A + B] raises the error of the lookup of y, while
    [A[x] + B[x]] is a map. *)
Lemma mapset_add_unmatched_member :
  MapSet.__add__ (H := Examples.test_externals) Examples.set_xy
    (MapSet.AMapSet Examples.set_x)
  = Raise (ValueError
             (String.append "Could not find map name "
                (String.append dquote (String.append "y" dquote))))
  /\ In "x" (MapSet.names Examples.set_xy)
  /\ In "x" (MapSet.names Examples.set_x)
  /\ MapSet.collate_by_name Examples.set_xy = true
  /\ MapSet.collate_by_name Examples.set_x = true
  /\ exists a b r,
       MapSet.__getitem__ Examples.set_xy (MapSet.ByName "x")
       = Ok (MapSet.GotMap a)
       /\ MapSet.__getitem__ Examples.set_x (MapSet.ByName "x")
          = Ok (MapSet.GotMap b)
       /\ Map.__add__ (H := Examples.test_externals) a (Map.OMap b) = Ok r.
Proof.
  split; [vm_compute; reflexivity |].
  split; [left; reflexivity |].
  split; [left; reflexivity |].
  split; [reflexivity |].
  split; [reflexivity |].
  do 3 eexists.
  split; [vm_compute; reflexivity |].
  split; [vm_compute; reflexivity |].
  vm_compute; reflexivity.
Qed.

(* ================================================================== *)
(** * Further properties *)

(** ** The constructor and the fit of the array to the binning *)

Lemma nd_zip_ok_shape {A B C : Type} (f : A -> B -> C)
      (a : ndarray A) (b : ndarray B) (r : ndarray C) :
  nd_shape b = nd_shape a -> nd_zip f a b = Ok r -> nd_shape r = nd_shape a.
Proof.
  intros Hs Hr. destruct (nd_zip_shape_same f a b Hs) as [r' [Hr' Hshape]].
  rewrite Hr' in Hr. injection Hr as <-. exact Hshape.
Qed.

Lemma set_errors_keeps_fit (m m' : Map.t) (e : option (ndarray float)) :
  hist_shape (Map.hist m) = Binning.shape (Map.binning m) ->
  Map.set_errors m e = Ok m' ->
  hist_shape (Map.hist m') = Binning.shape (Map.binning m')
  /\ Map.name m' = Map.name m /\ Map.binning m' = Map.binning m
  /\ Map.hash m' = Map.hash m /\ Map.tex m' = Map.tex m
  /\ Map.full_comparison m' = Map.full_comparison m
  /\ Map.parent_indexer m' = Map.parent_indexer m.
Proof.
  intros Hfit Hm'. unfold Map.set_errors in Hm'.
  destruct e as [e |].
  - inv_bind Hm'. inv_bind Hm'. injection Hm' as <-.
    apply assert_array_fits_inv in Ha. cbn [hist_shape] in Ha.
    cbn [Map.set_hist Map.hist Map.binning Map.name Map.hash Map.tex
         Map.full_comparison Map.parent_indexer].
    repeat split; try reflexivity.
    unfold unp_uarray in Ha0. destruct (Map.hist m) as [x | x]; [| discriminate].
    inv_bind Ha0. injection Ha0 as <-. cbn [hist_shape] in Hfit.
    change (nd_shape a1 = Binning.shape (Map.binning m)).
    rewrite (nd_zip_ok_shape _ _ _ _ (eq_trans Ha (eq_sym Hfit)) Ha1).
    exact Hfit.
  - injection Hm' as <-.
    cbn [Map.set_hist Map.hist Map.binning Map.name Map.hash Map.tex
         Map.full_comparison Map.parent_indexer hist_shape].
    rewrite shape_nominal_values. repeat split; try reflexivity. exact Hfit.
Qed.

(** X1.  Whatever its arguments, the constructor returns a map only with an
    array of the shape of its binning; the map has the name, the hash and
    the flag that were passed, the label that was passed if one was, and no
    parent indexer. *)
Theorem init_returns_fitting_map (n : string) (h : hist_t)
        (b : Map.binning_arg) (e : option (ndarray float)) (hs : option Z)
        (tx : option string) (fc : bool) (m : Map.t) :
  Map.__init__ n h b e hs tx fc = Ok m ->
  hist_shape (Map.hist m) = Binning.shape (Map.binning m)
  /\ Map.name m = n
  /\ Map.hash m = hs
  /\ Map.full_comparison m = fc
  /\ Map.parent_indexer m = None
  /\ (forall t, tx = Some t -> Map.tex m = t).
Proof.
  unfold Map.__init__. intros Hm. inv_bind Hm. rename a into bn.
  inv_bind Hm. apply assert_array_fits_inv in Ha0.
  destruct e as [e |].
  - apply set_errors_keeps_fit in Hm; [| exact Ha0].
    cbn [Map.name Map.binning Map.hash Map.tex Map.full_comparison
         Map.parent_indexer] in Hm.
    destruct Hm as [Hfit [Hn [Hb [Hh [Ht [Hf Hp]]]]]].
    repeat split; try assumption.
    intros t ->. exact Ht.
  - injection Hm as <-. cbn. repeat split; try assumption; try reflexivity.
    intros t ->. reflexivity.
Qed.

Lemma init_returns_fitting_map_witness :
  exists m,
    Map.__init__ "nue" (HFloat Examples.ones) (Map.AsSequence Examples.binning23)
                 (Some Examples.twos) (Some 5%Z) None true = Ok m
    /\ hist_shape (Map.hist m) = [2; 3]
    /\ Map.tex m = "\nu_e".
Proof.
  eexists. split; [vm_compute; reflexivity |].
  split; [| vm_compute; reflexivity].
  refine (eq_trans
            (proj1 (init_returns_fitting_map
                      "nue" (HFloat Examples.ones)
                      (Map.AsSequence Examples.binning23) (Some Examples.twos)
                      (Some 5%Z) None true _ _)) _);
    [vm_compute; reflexivity | vm_compute; reflexivity].
Defined.

(** X2.  An array whose shape is not the shape of the binning is refused
    with a [ValueError], before the errors are looked at. *)
Theorem init_rejects_misfit (n : string) (h : hist_t)
        (b : Binning.MultiDimBinning) (e : option (ndarray float))
        (hs : option Z) (tx : option string) (fc : bool) :
  hist_shape h <> Binning.shape b ->
  exists msg,
    Map.__init__ n h (Map.AsBinning b) e hs tx fc = Raise (ValueError msg).
Proof.
  intros Hmis. unfold Map.__init__, Binning.assert_array_fits.
  cbn [bind].
  destruct (shape_eqb (hist_shape h) (Binning.shape b)) eqn:Heq.
  - apply shape_eqb_eq in Heq. contradiction.
  - eexists. reflexivity.
Qed.

Lemma init_rejects_misfit_witness :
  exists msg,
    Map.__init__ "x" (HFloat (Examples.full [3; 2] 1))
                 (Map.AsBinning Examples.binning23) None None None true
    = Raise (ValueError msg).
Proof.
  apply (init_rejects_misfit "x" (HFloat (Examples.full [3; 2] 1))
           Examples.binning23 None None None true).
  vm_compute. discriminate.
Defined.

(** ** Attaching and removing errors *)

Lemma map2_pair_fst {A B : Type} (xs : list A) (ys : list B) :
  List.length xs = List.length ys ->
  map fst (map2 (fun v s => (v, s)) xs ys) = xs.
Proof.
  revert ys. induction xs as [| x xs IH]; intros [| y ys] Hlen;
    simpl in *; try discriminate; [reflexivity |].
  rewrite IH by lia. reflexivity.
Qed.

Lemma map2_pair_snd {A B : Type} (xs : list A) (ys : list B) :
  List.length xs = List.length ys ->
  map snd (map2 (fun v s => (v, s)) xs ys) = ys.
Proof.
  revert ys. induction xs as [| x xs IH]; intros [| y ys] Hlen;
    simpl in *; try discriminate; [reflexivity |].
  rewrite IH by lia. reflexivity.
Qed.

(** What [set_errors] stores on a map with a bare array. *)
Lemma set_errors_bare (m : Map.t) (a e : ndarray float) :
  Map.hist m = HFloat a -> nd_wf a -> nd_wf e ->
  nd_shape a = Binning.shape (Map.binning m) ->
  nd_shape e = Binning.shape (Map.binning m) ->
  Map.set_errors m (Some e)
  = Ok (Map.set_hist m
          (HUnc (mk_ndarray (nd_shape a)
                   (map2 (fun v s => (v, s)) (nd_data a) (nd_data e))))).
Proof.
  intros Hh Ha He Hsa Hse. unfold Map.set_errors, Map.assert_compat.
  cbn [hist_shape]. rewrite (assert_array_fits_ok _ _ Hse). cbn [bind].
  rewrite Hh. cbn [unp_uarray].
  rewrite nd_zip_same_shape; [reflexivity | congruence | exact Ha | exact He].
Qed.

(** X3.  On a map with a bare array, errors of the shape of the binning,
    all of them at least zero, are attached as they are: the standard
    deviations read back are the array passed, the nominal values are
    unchanged, and removing the errors again with [set_errors(None)] gives
    back the map as it was. *)
Theorem set_errors_round_trip (m : Map.t) (a e : ndarray float) :
  Map.hist m = HFloat a -> nd_wf a -> nd_wf e ->
  nd_shape a = Binning.shape (Map.binning m) ->
  nd_shape e = Binning.shape (Map.binning m) ->
  nonnegative_std e ->
  exists m',
    Map.set_errors m (Some e) = Ok m'
    /\ unp_std_devs (Map.hist m') = e
    /\ unp_nominal_values (Map.hist m') = a
    /\ Map.set_errors m' None = Ok m.
Proof.
  intros Hh Ha He Hsa Hse _.
  rewrite (set_errors_bare m a e Hh Ha He Hsa Hse).
  eexists. split; [reflexivity |].
  assert (Hlen : List.length (nd_data a) = List.length (nd_data e)).
  { unfold nd_wf in Ha, He. congruence. }
  cbn [Map.set_hist Map.hist unp_std_devs unp_nominal_values].
  unfold nd_map. cbn [nd_data nd_shape].
  change std_dev with (@snd float float).
  change nominal_value with (@fst float float).
  assert (Hsnd : map (@snd float float)
                   (map2 (fun v s : float => (v, s)) (nd_data a) (nd_data e))
                 = nd_data e) by (apply map2_pair_snd; exact Hlen).
  assert (Hfst : map (@fst float float)
                   (map2 (fun v s : float => (v, s)) (nd_data a) (nd_data e))
                 = nd_data a) by (apply map2_pair_fst; exact Hlen).
  split; [| split].
  - destruct e as [se de]. cbn [nd_shape nd_data] in *.
    f_equal; [congruence | exact Hsnd].
  - destruct a as [sa da]. cbn [nd_shape nd_data] in *.
    f_equal. exact Hfst.
  - unfold Map.set_errors, Map.set_hist.
    cbn [Map.hist Map.name Map.binning Map.hash Map.tex
         Map.full_comparison Map.parent_indexer unp_nominal_values].
    unfold nd_map. cbn [nd_data nd_shape].
    change nominal_value with (@fst float float).
    destruct m as [n h b hs tx fc p]. cbn in Hh |- *. subst h.
    destruct a as [sa da]. cbn [nd_shape nd_data] in *.
    do 4 f_equal. exact Hfst.
Qed.

Lemma set_errors_round_trip_witness :
  exists m',
    Map.set_errors Examples.map_x (Some Examples.twos) = Ok m'
    /\ unp_std_devs (Map.hist m') = Examples.twos
    /\ unp_nominal_values (Map.hist m') = Examples.ones
    /\ Map.set_errors m' None = Ok Examples.map_x.
Proof.
  apply (set_errors_round_trip Examples.map_x Examples.ones Examples.twos);
    try reflexivity.
  repeat constructor.
Defined.

(** X4.  On a map whose bare array fits its binning, [set_errors] accepts
    an array of errors that are all at least zero when it has the shape of
    the binning, and raises a [ValueError] for any array of another
    shape. *)
Theorem set_errors_checks_shape (m : Map.t) (a e : ndarray float) :
  Map.hist m = HFloat a ->
  nd_shape a = Binning.shape (Map.binning m) ->
  (nd_shape e = Binning.shape (Map.binning m) ->
   nonnegative_std e ->
   exists m', Map.set_errors m (Some e) = Ok m')
  /\ (nd_shape e <> Binning.shape (Map.binning m) ->
      exists msg, Map.set_errors m (Some e) = Raise (ValueError msg)).
Proof.
  intros Hh Hsa. unfold Map.set_errors, Map.assert_compat. cbn [hist_shape].
  split.
  - intros Hse _. rewrite (assert_array_fits_ok _ _ Hse). cbn [bind].
    rewrite Hh. cbn [unp_uarray].
    destruct (nd_zip_shape_same (fun v s : float => (v, s)) a e)
      as [r [-> _]]; [congruence |].
    eexists. reflexivity.
  - intros Hmis. unfold Binning.assert_array_fits.
    destruct (shape_eqb (nd_shape e) (Binning.shape (Map.binning m))) eqn:Heq.
    + apply shape_eqb_eq in Heq. contradiction.
    + eexists. reflexivity.
Qed.

Lemma set_errors_checks_shape_witness :
  (exists m', Map.set_errors Examples.map_x (Some Examples.twos) = Ok m')
  /\ exists msg,
       Map.set_errors Examples.map_x (Some (Examples.full [3; 2] 2))
       = Raise (ValueError msg).
Proof.
  destruct (set_errors_checks_shape Examples.map_x Examples.ones Examples.twos
              eq_refl eq_refl) as [Hok _].
  destruct (set_errors_checks_shape Examples.map_x Examples.ones
              (Examples.full [3; 2] 2) eq_refl eq_refl) as [_ Hbad].
  split.
  - apply Hok; [reflexivity | repeat constructor].
  - apply Hbad. vm_compute. discriminate.
Defined.

(** What [set_poisson_errors] stores on a map with a bare array. *)
Lemma set_poisson_errors_bare (m : Map.t) (a : ndarray float) :
  Map.hist m = HFloat a -> nd_wf a ->
  Map.set_poisson_errors m
  = Ok (Map.set_hist m
          (HUnc (mk_ndarray (nd_shape a)
                   (map (fun v => (v, fsqrt v)) (nd_data a))))).
Proof.
  intros Hh Hwf. unfold Map.set_poisson_errors. rewrite Hh.
  cbn [np_sqrt bind unp_uarray].
  rewrite nd_zip_same_shape; [| reflexivity | exact Hwf |].
  - cbn [bind nd_map nd_data nd_shape]. rewrite map2_pair_map. reflexivity.
  - unfold nd_wf, nd_map. cbn [nd_data nd_shape]. rewrite length_map. exact Hwf.
Qed.

(** X5.  Poisson errors set on a bare array are removed again by
    [set_errors(None)], which gives back the map as it was. *)
Theorem poisson_errors_removed (m : Map.t) (a : ndarray float) :
  Map.hist m = HFloat a -> nd_wf a ->
  exists m',
    Map.set_poisson_errors m = Ok m'
    /\ Map.set_errors m' None = Ok m.
Proof.
  intros Hh Hwf. rewrite (set_poisson_errors_bare m a Hh Hwf).
  eexists. split; [reflexivity |].
  unfold Map.set_errors, Map.set_hist.
  cbn [Map.hist Map.name Map.binning Map.hash Map.tex
       Map.full_comparison Map.parent_indexer unp_nominal_values].
  unfold nd_map. cbn [nd_data nd_shape].
  rewrite map_map. cbn [nominal_value fst]. rewrite map_id.
  destruct m as [n h b hs tx fc p]. cbn in Hh |- *. subst h.
  destruct a; reflexivity.
Qed.

Lemma poisson_errors_removed_witness :
  exists m',
    Map.set_poisson_errors Examples.map_twos = Ok m'
    /\ Map.set_errors m' None = Ok Examples.map_twos.
Proof.
  apply (poisson_errors_removed Examples.map_twos Examples.twos); reflexivity.
Defined.

(** ** What the decorated methods keep *)

(** The decorator returns a map built by the constructor from the updates
    and the attributes of [self]; the map fits its binning. *)
Lemma new_obj_ok (self r : Map.t) (f : result Map.state_updates) :
  Map.new_obj self f = Ok r ->
  exists u,
    f = Ok u
    /\ r = Map.mk (Map.has_key (Map.u_name u) (Map.name self))
                  (Map.has_key (Map.u_hist u) (Map.hist self))
                  (Map.has_key (Map.u_binning u) (Map.binning self))
                  (Map.has_key (Map.u_hash u) (Map.hash self))
                  (Map.has_key (Map.u_tex u) (Map.tex self))
                  (Map.has_key (Map.u_full_comparison u)
                               (Map.full_comparison self))
                  None
    /\ fits r.
Proof.
  unfold Map.new_obj. intros Hr. inv_bind Hr. rename a into u.
  exists u. split; [exact Ha |].
  rewrite init_with_binning in Hr. inv_bind Hr.
  injection Hr as <-. split; [reflexivity |].
  unfold fits. cbn [Map.hist Map.binning].
  eapply assert_array_fits_inv. exact Ha0.
Qed.

Lemma new_obj_run (self : Map.t) (u : Map.state_updates) :
  hist_shape (Map.has_key (Map.u_hist u) (Map.hist self))
  = Binning.shape (Map.has_key (Map.u_binning u) (Map.binning self)) ->
  Map.new_obj self (Ok u)
  = Ok (Map.mk (Map.has_key (Map.u_name u) (Map.name self))
               (Map.has_key (Map.u_hist u) (Map.hist self))
               (Map.has_key (Map.u_binning u) (Map.binning self))
               (Map.has_key (Map.u_hash u) (Map.hash self))
               (Map.has_key (Map.u_tex u) (Map.tex self))
               (Map.has_key (Map.u_full_comparison u)
                            (Map.full_comparison self))
               None).
Proof.
  intros Hfit. unfold Map.new_obj. cbn [bind].
  rewrite init_with_binning, (assert_array_fits_ok _ _ Hfit). reflexivity.
Qed.

Section Decorated.
Context `{Externals}.

Lemma binop_method_new_obj (op : binop) (a : Map.t) (x : Map.operand) :
  binop_method op a x = Map.new_obj a (Map.operator_updates op a x).
Proof. destruct op; reflexivity. Qed.

(** The keys an operator hands to the decorator: the array, and the flag
    when the operand is a map. *)
Lemma operator_updates_keys (op : binop) (a : Map.t) (x : Map.operand)
      (u : Map.state_updates) :
  Map.operator_updates op a x = Ok u ->
  Map.u_name u = None /\ Map.u_binning u = None /\ Map.u_hash u = None
  /\ Map.u_tex u = None
  /\ (Map.is_Map x = false -> Map.u_full_comparison u = None).
Proof.
  unfold Map.operator_updates. intros Hu.
  destruct x; try discriminate Hu; inv_bind Hu; injection Hu as <-;
    cbn; repeat split; try reflexivity; discriminate.
Qed.

Lemma rsub_new_obj_keys (a r : Map.t) (x : Map.operand) :
  MapExtra.__rsub a x = Ok r ->
  fits r /\ Map.name r = Map.name a /\ Map.binning r = Map.binning a
  /\ Map.hash r = Map.hash a /\ Map.tex r = Map.tex a
  /\ Map.full_comparison r = Map.full_comparison a.
Proof.
  unfold MapExtra.__rsub. intros Hr. apply new_obj_ok in Hr.
  destruct Hr as [u [Hu [-> Hfit]]]. split; [exact Hfit |].
  destruct x; try discriminate Hu; inv_bind Hu; injection Hu as <-;
    cbn; repeat split; reflexivity.
Qed.

End Decorated.

(** X6.  Every map returned by a binary operator (whatever the operand),
    by a reflected subtraction, by indexing, by negation, by [abs] or by
    [sqrt] has an array of the shape of its binning; [set_errors] and
    [set_poisson_errors], which update a map in place, keep that fit. *)
Theorem operations_keep_fit `{Externals} :
  (forall op a x r, binop_method op a x = Ok r -> fits r)
  /\ (forall a x r, MapExtra.__rsub__ a x = Ok r -> fits r)
  /\ (forall a idx r, Map.__getitem__ a idx = Ok r -> fits r)
  /\ (forall a r, MapExtra.__neg__ a = Ok r -> fits r)
  /\ (forall a r, MapExtra.__abs__ a = Ok r -> fits r)
  /\ (forall a r, MapExtra.sqrt a = Ok r -> fits r)
  /\ (forall a e r, fits a -> Map.set_errors a e = Ok r -> fits r)
  /\ (forall a r, fits a -> Map.set_poisson_errors a = Ok r -> fits r).
Proof.
  repeat split.
  - intros op a x r Hr. rewrite binop_method_new_obj in Hr.
    apply new_obj_ok in Hr. destruct Hr as [u [_ [_ Hfit]]]. exact Hfit.
  - intros a x r Hr. unfold MapExtra.__rsub__ in Hr.
    destruct x;
      try (apply rsub_new_obj_keys in Hr; destruct Hr as [Hfit _]; exact Hfit).
    change (binop_method Sub m (Map.OMap a) = Ok r) in Hr.
    rewrite binop_method_new_obj in Hr.
    apply new_obj_ok in Hr. destruct Hr as [u [_ [_ Hfit]]]. exact Hfit.
  - intros a idx r Hr. unfold Map.__getitem__, Map.index in Hr.
    apply new_obj_ok in Hr. destruct Hr as [u [_ [_ Hfit]]]. exact Hfit.
  - intros a r Hr. unfold MapExtra.__neg__ in Hr. apply new_obj_ok in Hr.
    destruct Hr as [u [_ [_ Hfit]]]. exact Hfit.
  - intros a r Hr. unfold MapExtra.__abs__ in Hr. apply new_obj_ok in Hr.
    destruct Hr as [u [_ [_ Hfit]]]. exact Hfit.
  - intros a r Hr. unfold MapExtra.sqrt in Hr. apply new_obj_ok in Hr.
    destruct Hr as [u [_ [_ Hfit]]]. exact Hfit.
  - intros a e r Hfit Hr.
    destruct (set_errors_keeps_fit a r e Hfit Hr) as [Hr' _]. exact Hr'.
  - intros a r Hfit Hr. unfold Map.set_poisson_errors in Hr.
    inv_bind Hr. rename a0 into s. inv_bind Hr. injection Hr as <-.
    unfold fits in *. cbn [Map.set_hist Map.hist Map.binning].
    destruct (Map.hist a) as [x | x]; [| discriminate Ha].
    cbn [np_sqrt] in Ha. injection Ha as <-.
    cbn [unp_uarray] in Ha0. inv_bind Ha0. injection Ha0 as <-.
    cbn [hist_shape] in Hfit.
    change (nd_shape a1 = Binning.shape (Map.binning a)).
    rewrite (nd_zip_ok_shape _ x (nd_map fsqrt x) _ eq_refl Ha). exact Hfit.
Qed.

(** A product with an array of another shape is refused although the two
    arrays can be broadcast: the outcome has to fit.  A sum that returns
    fits. *)
Lemma operations_keep_fit_witness :
  (exists r, Map.__add__ (H := Examples.test_externals) Examples.map_row
               (Map.OScalar (float_of_Z 1)) = Ok r /\ fits r)
  /\ Map.__mul__ (H := Examples.test_externals) Examples.map_row
       (Map.OArray (HFloat Examples.ones))
     = Raise (ValueError "array does not fit binning").
Proof.
  split.
  - eexists. split; [vm_compute; reflexivity |].
    refine (proj1 (operations_keep_fit (H := Examples.test_externals))
              Add Examples.map_row (Map.OScalar (float_of_Z 1)) _ _).
    vm_compute. reflexivity.
  - vm_compute. reflexivity.
Defined.

(** X7.  The outcome of a binary operator has the name, the label, the
    hash and the binning of the left operand, whatever the other operand
    is.  Of a map on the right only the array and the flag are read: two
    maps with the same bare array and the same flag give the same
    outcome. *)
Theorem operator_reads_left_metadata `{Externals} (op : binop) (a : Map.t) :
  (forall x r, binop_method op a x = Ok r ->
     Map.name r = Map.name a /\ Map.tex r = Map.tex a
     /\ Map.hash r = Map.hash a /\ Map.binning r = Map.binning a
     /\ Map.parent_indexer r = None)
  /\ (forall b b' w,
        Map.hist b = HFloat w ->
        Map.hist b' = HFloat w ->
        Map.full_comparison b = Map.full_comparison b' ->
        binop_method op a (Map.OMap b) = binop_method op a (Map.OMap b')).
Proof.
  split.
  - intros x r Hr. rewrite binop_method_new_obj in Hr.
    apply new_obj_ok in Hr. destruct Hr as [u [Hu [-> _]]].
    apply operator_updates_keys in Hu.
    destruct Hu as [-> [-> [-> [-> _]]]]. cbn. repeat split; reflexivity.
  - intros b b' w Hh Hh' Hf. rewrite !operator_on_map, Hh, Hh', Hf.
    reflexivity.
Qed.

Lemma operator_reads_left_metadata_witness :
  (exists r,
      Map.__sub__ (H := Examples.test_externals) Examples.map_x
        (Map.OMap Examples.map_y) = Ok r
      /\ Map.name r = "x" /\ Map.hash r = Some 42%Z
      /\ Map.binning r = Examples.binning23)
  /\ Map.__sub__ (H := Examples.test_externals) Examples.map_x
       (Map.OMap Examples.map_twos)
     = Map.__sub__ (H := Examples.test_externals) Examples.map_x
         (Map.OMap (Examples.named "y" 2)).
Proof.
  destruct (operator_reads_left_metadata (H := Examples.test_externals)
              Sub Examples.map_x) as [Hmeta Hright].
  split.
  - assert (Hr : exists r, Map.__sub__ (H := Examples.test_externals)
                             Examples.map_x (Map.OMap Examples.map_y) = Ok r)
      by (eexists; vm_compute; reflexivity).
    destruct Hr as [r Hr]. exists r. split; [exact Hr |].
    destruct (Hmeta _ _ Hr) as [Hn [_ [Hh [Hb _]]]].
    split; [exact Hn | split; [exact Hh | exact Hb]].
  - apply (Hright Examples.map_twos (Examples.named "y" 2) Examples.twos);
      reflexivity.
Defined.

(** X8.  A map with a hash and the flag off compares equal to what an
    operator makes of it with a scalar or an array: the outcome carries the
    same hash and the same flag, and [==] then compares the hashes only. *)
Theorem operator_outcome_equals_operand `{Externals} (op : binop)
        (a r : Map.t) (x : Map.operand) (h : Z) :
  Map.is_Map x = false ->
  Map.full_comparison a = false ->
  Map.hash a = Some h ->
  binop_method op a x = Ok r ->
  Map.__eq__ r (Map.OMap a) = Ok true
  /\ Map.__eq__ a (Map.OMap r) = Ok true.
Proof.
  intros Hx Hf Hh Hr. rewrite binop_method_new_obj in Hr.
  apply new_obj_ok in Hr. destruct Hr as [u [Hu [-> _]]].
  apply operator_updates_keys in Hu.
  destruct Hu as [_ [_ [Hhash [_ Hflag]]]]. specialize (Hflag Hx).
  unfold Map.__eq__. cbn [Map.full_comparison Map.hash].
  rewrite Hhash, Hflag. cbn [Map.has_key]. rewrite Hf, Hh. cbn.
  rewrite Z.eqb_refl. split; reflexivity.
Qed.

(** [map_x * 2] holds other values than [map_x] and is equal to it. *)
Lemma operator_outcome_equals_operand_witness :
  exists r,
    Map.__mul__ (H := Examples.test_externals) Examples.map_x
      (Map.OScalar (float_of_Z 2)) = Ok r
    /\ unp_nominal_values (Map.hist r) = Examples.twos
    /\ Map.__eq__ (H := Examples.test_externals) r (Map.OMap Examples.map_x)
       = Ok true.
Proof.
  eexists. split; [vm_compute; reflexivity |].
  split; [vm_compute; reflexivity |].
  refine (proj1 (operator_outcome_equals_operand
                   (H := Examples.test_externals) Mul Examples.map_x _
                   (Map.OScalar (float_of_Z 2)) 42 eq_refl eq_refl eq_refl _)).
  vm_compute. reflexivity.
Defined.

(** X9.  Each of the five binary operators, and the reflected subtraction,
    raises the type error that names the type of an operand that is neither
    a scalar, nor a variable of the uncertainties package, nor an array,
    nor a map. *)
Theorem operator_unsupported_type `{Externals} (op : binop) (a : Map.t)
        (x : Map.operand) :
  Map.isscalar x = false ->
  Map.is_Variable x = false ->
  Map.is_ndarray x = false ->
  Map.is_Map x = false ->
  binop_method op a x
  = Raise (TypeError
             (String.append "Type of argument not supported: "
                (String.append dquote (String.append (Map.type_of x) dquote))))
  /\ MapExtra.__rsub__ a x
     = Raise (TypeError
                (String.append "Type of argument not supported: "
                   (String.append dquote
                      (String.append (Map.type_of x) dquote)))).
Proof.
  destruct x; simpl; intros Hs Hv Ha Hm; try discriminate.
  split; [destruct op |]; reflexivity.
Qed.

Lemma operator_unsupported_type_witness :
  Map.__pow__ (H := Examples.test_externals) Examples.map_x
    (Map.OOther "<type 'dict'>")
  = Raise (TypeError
             (String.append "Type of argument not supported: "
                (String.append dquote (String.append "<type 'dict'>" dquote)))).
Proof.
  apply (proj1 (operator_unsupported_type (H := Examples.test_externals)
                  Pow Examples.map_x (Map.OOther "<type 'dict'>")
                  eq_refl eq_refl eq_refl eq_refl)).
Defined.

(** ** Negation and absolute value *)

Lemma fneg_involutive (x : float) : MapExtra.fneg (MapExtra.fneg x) = x.
Proof.
  destruct x as [s | s | | s m e]; cbn; try rewrite negb_involutive; reflexivity.
Qed.

Lemma fabs_idempotent (x : float) : MapExtra.fabs (MapExtra.fabs x) = MapExtra.fabs x.
Proof. destruct x; reflexivity. Qed.

Lemma fabs_fneg (x : float) : MapExtra.fabs (MapExtra.fneg x) = MapExtra.fabs x.
Proof. destruct x; reflexivity. Qed.

Lemma nd_map_map {A B C : Type} (f : A -> B) (g : B -> C) (a : ndarray A) :
  nd_map g (nd_map f a) = nd_map (fun x => g (f x)) a.
Proof. unfold nd_map. cbn [nd_shape nd_data]. rewrite map_map. reflexivity. Qed.

Lemma nd_map_id_ext {A : Type} (f : A -> A) (a : ndarray A) :
  (forall x, f x = x) -> nd_map f a = a.
Proof.
  intros Hf. destruct a as [sh d]. unfold nd_map. cbn [nd_shape nd_data].
  f_equal. rewrite <- (map_id d) at 2. apply map_ext. exact Hf.
Qed.

Lemma nd_map_ext {A B : Type} (f g : A -> B) (a : ndarray A) :
  (forall x, f x = g x) -> nd_map f a = nd_map g a.
Proof. intros Hfg. unfold nd_map. f_equal. apply map_ext. exact Hfg. Qed.

Lemma np_negative_involutive (h : hist_t) :
  MapExtra.np_negative (MapExtra.np_negative h) = h.
Proof.
  destruct h as [a | a]; cbn [MapExtra.np_negative]; rewrite nd_map_map;
    f_equal; apply nd_map_id_ext.
  - apply fneg_involutive.
  - intros [n s]. unfold MapExtra.uneg. cbn [nominal_value std_dev fst snd].
    change (SFopp (SFopp n)) with (MapExtra.fneg (MapExtra.fneg n)).
    rewrite fneg_involutive. reflexivity.
Qed.

Lemma np_abs_idempotent (h : hist_t) :
  MapExtra.np_abs (MapExtra.np_abs h) = MapExtra.np_abs h.
Proof.
  destruct h as [a | a]; cbn [MapExtra.np_abs]; rewrite nd_map_map;
    f_equal; apply nd_map_ext.
  - apply fabs_idempotent.
  - intros [n s]. unfold MapExtra.uabs. cbn [nominal_value std_dev fst snd].
    change (SFabs (SFabs n)) with (MapExtra.fabs (MapExtra.fabs n)).
    rewrite fabs_idempotent. reflexivity.
Qed.

Lemma np_abs_negative (h : hist_t) :
  MapExtra.np_abs (MapExtra.np_negative h) = MapExtra.np_abs h.
Proof.
  destruct h as [a | a]; cbn [MapExtra.np_abs MapExtra.np_negative];
    rewrite nd_map_map; f_equal; apply nd_map_ext.
  - apply fabs_fneg.
  - intros [n s]. unfold MapExtra.uabs, MapExtra.uneg.
    cbn [nominal_value std_dev fst snd].
    change (SFabs (SFopp n)) with (MapExtra.fabs (MapExtra.fneg n)).
    rewrite fabs_fneg. reflexivity.
Qed.

Lemma shape_np_negative (h : hist_t) :
  hist_shape (MapExtra.np_negative h) = hist_shape h.
Proof. destruct h; reflexivity. Qed.

Lemma shape_np_abs (h : hist_t) : hist_shape (MapExtra.np_abs h) = hist_shape h.
Proof. destruct h; reflexivity. Qed.

(** X10.  On a map with a bare array that fits its binning negation
    returns, and negating twice gives back the map (without a parent
    indexer): values, name, label, hash, flag and binning. *)
Theorem neg_involutive (m : Map.t) (a : ndarray float) :
  Map.hist m = HFloat a ->
  fits m ->
  exists r,
    MapExtra.__neg__ m = Ok r
    /\ MapExtra.__neg__ r = Ok (fresh m).
Proof.
  intros _ Hfit. unfold MapExtra.__neg__.
  rewrite new_obj_run
    by (cbn [Map.has_key Map.u_hist Map.u_binning];
        rewrite shape_np_negative; exact Hfit).
  eexists. split; [reflexivity |].
  cbn [Map.has_key Map.u_name Map.u_hist Map.u_binning Map.u_hash Map.u_tex
       Map.u_full_comparison Map.hist Map.name Map.binning Map.hash Map.tex
       Map.full_comparison].
  rewrite new_obj_run
    by (cbn [Map.has_key Map.u_hist Map.u_binning];
        rewrite np_negative_involutive; exact Hfit).
  cbn [Map.has_key Map.u_name Map.u_hist Map.u_binning Map.u_hash Map.u_tex
       Map.u_full_comparison Map.hist Map.name Map.binning Map.hash Map.tex
       Map.full_comparison].
  rewrite np_negative_involutive. reflexivity.
Qed.

Lemma neg_involutive_witness :
  exists r,
    MapExtra.__neg__ Examples.map_twos = Ok r
    /\ MapExtra.__neg__ r = Ok Examples.map_twos.
Proof.
  apply (neg_involutive Examples.map_twos Examples.twos); reflexivity.
Defined.

(** X11.  On a map that fits its binning [abs] returns; taking it twice,
    or taking it of the negated map, gives the same map as taking it
    once. *)
Theorem abs_idempotent_and_even (m : Map.t) :
  fits m ->
  exists r n,
    MapExtra.__abs__ m = Ok r
    /\ MapExtra.__abs__ r = Ok r
    /\ MapExtra.__neg__ m = Ok n
    /\ MapExtra.__abs__ n = Ok r.
Proof.
  intros Hfit. unfold MapExtra.__abs__, MapExtra.__neg__.
  rewrite (new_obj_run m (Map.mk_updates None (Some (MapExtra.np_abs (Map.hist m)))
                            None None None None))
    by (cbn [Map.has_key Map.u_hist Map.u_binning];
        rewrite shape_np_abs; exact Hfit).
  rewrite (new_obj_run m (Map.mk_updates None
                            (Some (MapExtra.np_negative (Map.hist m)))
                            None None None None))
    by (cbn [Map.has_key Map.u_hist Map.u_binning];
        rewrite shape_np_negative; exact Hfit).
  eexists. eexists. split; [reflexivity |].
  cbn [Map.has_key Map.u_name Map.u_hist Map.u_binning Map.u_hash Map.u_tex
       Map.u_full_comparison Map.hist Map.name Map.binning Map.hash Map.tex
       Map.full_comparison].
  split; [| split; [reflexivity |]].
  - rewrite new_obj_run
      by (cbn [Map.has_key Map.u_hist Map.u_binning];
          rewrite np_abs_idempotent, shape_np_abs; exact Hfit).
    cbn [Map.has_key Map.u_name Map.u_hist Map.u_binning Map.u_hash Map.u_tex
         Map.u_full_comparison Map.hist Map.name Map.binning Map.hash Map.tex
         Map.full_comparison].
    rewrite np_abs_idempotent. reflexivity.
  - cbn [Map.has_key Map.u_name Map.u_hist Map.u_binning Map.u_hash Map.u_tex
         Map.u_full_comparison Map.hist Map.name Map.binning Map.hash Map.tex
         Map.full_comparison].
    rewrite new_obj_run
      by (cbn [Map.has_key Map.u_hist Map.u_binning];
          rewrite np_abs_negative, shape_np_abs; exact Hfit).
    cbn [Map.has_key Map.u_name Map.u_hist Map.u_binning Map.u_hash Map.u_tex
         Map.u_full_comparison Map.hist Map.name Map.binning Map.hash Map.tex
         Map.full_comparison].
    rewrite np_abs_negative. reflexivity.
Qed.

Lemma abs_idempotent_and_even_witness :
  exists r n,
    MapExtra.__abs__ Examples.map_negative = Ok r
    /\ MapExtra.__abs__ r = Ok r
    /\ MapExtra.__neg__ Examples.map_negative = Ok n
    /\ MapExtra.__abs__ n = Ok r.
Proof.
  apply (abs_idempotent_and_even Examples.map_negative). reflexivity.
Defined.

(** ** Indexing a map *)

Lemma slice_bounds_whole (n hi : nat) : n <= hi -> slice_bounds n 0 hi = (0, n).
Proof.
  intros Hle. unfold slice_bounds.
  rewrite Nat.min_0_l, (Nat.min_r hi n Hle), Nat.sub_0_r. reflexivity.
Qed.

Lemma getitem_shape_whole (sh : list nat) (items : list index_item) :
  Forall2 whole_axis sh items -> getitem_shape sh items = Ok sh.
Proof.
  induction 1 as [| n it sh items [hi [-> Hle]] _ IH]; [reflexivity |].
  cbn [getitem_shape]. rewrite IH. cbn [bind].
  rewrite (slice_bounds_whole n hi Hle). reflexivity.
Qed.

Lemma getitem_data_whole {A : Type} (sh : list nat) (items : list index_item) :
  Forall2 whole_axis sh items ->
  forall d : list A, List.length d = prod_shape sh -> getitem_data sh items d = d.
Proof.
  induction 1 as [| n it sh items [hi [-> Hle]] _ IH]; intros d Hlen;
    [reflexivity |].
  cbn [getitem_data]. rewrite (slice_bounds_whole n hi Hle).
  cbn [Nat.mul skipn]. cbn [prod_shape fold_right] in Hlen.
  fold (prod_shape sh) in Hlen.
  transitivity (List.concat (chunks (prod_shape sh) n d)).
  - f_equal.
    transitivity (map (fun c : list A => c) (chunks (prod_shape sh) n d)).
    + apply map_ext_in. intros c Hc.
      pose proof (chunks_lengths (prod_shape sh) n d Hlen) as Hall.
      rewrite Forall_forall in Hall. apply IH, Hall, Hc.
    + apply map_id.
  - apply chunks_concat. exact Hlen.
Qed.

Lemma dim_getitem_whole (d : Binning.OneDimBinning) (it : index_item) :
  whole_axis (Binning.num_bins d) it -> Binning.dim_getitem d it = Ok d.
Proof.
  intros [hi [-> Hle]]. unfold Binning.dim_getitem.
  rewrite (slice_bounds_whole _ hi Hle). cbn [skipn].
  rewrite firstn_all2; [destruct d; reflexivity |].
  unfold Binning.num_bins. lia.
Qed.

Lemma dims_getitem_whole (b : Binning.MultiDimBinning) (items : list index_item) :
  Forall2 whole_axis (Binning.shape b) items -> Binning.dims_getitem b items = Ok b.
Proof.
  revert items. induction b as [| d b IH]; intros items Hall;
    cbn [Binning.shape map] in Hall; inversion Hall; subst; [reflexivity |].
  cbn [Binning.dims_getitem]. rewrite dim_getitem_whole by assumption.
  cbn [bind]. rewrite IH by assumption. reflexivity.
Qed.

(** X12.  Indexing a map with a slice over the whole of every axis returns
    the map itself (without a parent indexer): same values and standard
    deviations, same binning, name, label, hash and flag. *)
Theorem getitem_whole_axes (m : Map.t) (items : list index_item) :
  fits m -> hist_wf (Map.hist m) ->
  Forall2 whole_axis (Binning.shape (Map.binning m)) items ->
  Map.__getitem__ m (ITuple items) = Ok (fresh m).
Proof.
  intros Hfit Hwf Hall. unfold fits in Hfit.
  unfold Map.__getitem__, Map.index. cbn [Binning.getitem].
  rewrite (dims_getitem_whole _ _ Hall). cbn [bind].
  assert (Hsub : hist_getitem (Map.hist m) items = Ok (Map.hist m)).
  { rewrite <- Hfit in Hall.
    destruct (Map.hist m) as [a | a]; cbn [hist_getitem hist_shape] in *;
      unfold nd_getitem; rewrite (getitem_shape_whole _ _ Hall); cbn [bind];
      rewrite (getitem_data_whole _ _ Hall _ Hwf); destruct a; reflexivity. }
  rewrite Hsub. cbn [bind].
  assert (Hre : hist_reshape (Map.hist m) (Binning.shape (Map.binning m))
                = Ok (Map.hist m)).
  { rewrite <- Hfit.
    destruct (Map.hist m) as [a | a]; cbn [hist_reshape hist_shape];
      unfold np_reshape; rewrite Nat.eqb_refl; destruct a; reflexivity. }
  rewrite Hre. cbn [bind].
  rewrite new_obj_run by exact Hfit. reflexivity.
Qed.

Lemma getitem_whole_axes_witness :
  Map.__getitem__ Examples.map_unc (ITuple [ISlice 0 2; ISlice 0 99])
  = Ok Examples.map_unc.
Proof.
  apply (getitem_whole_axes Examples.map_unc [ISlice 0 2; ISlice 0 99]);
    [reflexivity | reflexivity |].
  repeat constructor.
  - exists 2. split; [reflexivity | cbn; lia].
  - exists 99. split; [reflexivity | cbn; lia].
Defined.

Lemma slice_bounds_within (n lo hi : nat) :
  fst (slice_bounds n lo hi) + snd (slice_bounds n lo hi) <= n.
Proof. unfold slice_bounds. cbn [fst snd]. lia. Qed.

Lemma dim_getitem_in_range (d : Binning.OneDimBinning) (it : index_item) :
  in_range (Binning.num_bins d) it ->
  exists d',
    Binning.dim_getitem d it = Ok d'
    /\ Binning.num_bins d' = axis_length (Binning.num_bins d) it
    /\ Binning.dim_name d' = Binning.dim_name d.
Proof.
  destruct it as [i | lo hi]; cbn [in_range axis_length Binning.dim_getitem].
  - intros Hi. apply Nat.ltb_lt in Hi. rewrite Hi. eexists.
    split; [reflexivity | split; [| reflexivity]].
    apply Nat.ltb_lt in Hi. unfold Binning.num_bins in *.
    cbn [Binning.bin_edges]. rewrite length_firstn, length_skipn. lia.
  - intros _.
    pose proof (slice_bounds_within (Binning.num_bins d) lo hi) as Hin.
    destruct (slice_bounds (Binning.num_bins d) lo hi) as [lo' len].
    cbn [fst snd] in *. eexists.
    split; [reflexivity | split; [| reflexivity]].
    unfold Binning.num_bins in *. cbn [Binning.bin_edges].
    rewrite length_firstn, length_skipn. lia.
Qed.

Lemma dims_getitem_in_range (b : Binning.MultiDimBinning)
      (items : list index_item) :
  Forall2 in_range (Binning.shape b) items ->
  exists b',
    Binning.dims_getitem b items = Ok b'
    /\ Binning.shape b' = map2 axis_length (Binning.shape b) items.
Proof.
  revert items. induction b as [| d b IH]; intros items Hall;
    cbn [Binning.shape map] in Hall; inversion Hall; subst.
  - exists []. split; reflexivity.
  - destruct (dim_getitem_in_range d y) as [d' [Hd' [Hn _]]]; [assumption |].
    destruct (IH l') as [b' [Hb' Hs]]; [assumption |].
    exists (d' :: b'). cbn [Binning.dims_getitem].
    rewrite Hd'. cbn [bind]. rewrite Hb'. cbn [bind].
    split; [reflexivity |].
    cbn [Binning.shape map map2]. fold (Binning.shape b').
    fold (Binning.shape b). congruence.
Qed.

(** numpy drops the axes indexed by an integer; the number of items left
    is the product of the lengths selected on each axis. *)
Lemma getitem_shape_in_range (sh : list nat) (items : list index_item) :
  Forall2 in_range sh items ->
  exists sh',
    getitem_shape sh items = Ok sh'
    /\ prod_shape sh' = prod_shape (map2 axis_length sh items).
Proof.
  induction 1 as [| n it sh items Hin _ [sh' [Hsh' Hp]]].
  - exists []. split; reflexivity.
  - destruct it as [i | lo hi]; cbn [in_range] in Hin.
    + exists sh'. cbn [getitem_shape]. apply Nat.ltb_lt in Hin. rewrite Hin.
      split; [exact Hsh' |].
      cbn [map2 axis_length prod_shape fold_right].
      fold (prod_shape (map2 axis_length sh items)). lia.
    + exists (snd (slice_bounds n lo hi) :: sh'). cbn [getitem_shape].
      rewrite Hsh'. cbn [bind]. split; [reflexivity |].
      cbn [map2 axis_length prod_shape fold_right].
      fold (prod_shape sh'). fold (prod_shape (map2 axis_length sh items)).
      congruence.
Qed.

Lemma map2_length {A B C : Type} (f : A -> B -> C) (xs : list A) (ys : list B) :
  List.length xs = List.length ys ->
  List.length (map2 f xs ys) = List.length xs.
Proof.
  revert ys. induction xs as [| x xs IH]; intros [| y ys] Hlen;
    simpl in *; try discriminate; [reflexivity |].
  rewrite IH by lia. reflexivity.
Qed.

(** X13.  Indexing a map that fits its binning with one component per axis,
    the integers within the axes, returns a map of the same rank: an axis
    indexed by an integer is kept with length one, an axis indexed by a
    slice has the length of the clamped slice. *)
Theorem getitem_in_range (m : Map.t) (items : list index_item) :
  fits m ->
  Forall2 in_range (Binning.shape (Map.binning m)) items ->
  exists r,
    Map.__getitem__ m (ITuple items) = Ok r
    /\ hist_shape (Map.hist r)
       = map2 axis_length (Binning.shape (Map.binning m)) items
    /\ Binning.shape (Map.binning r) = hist_shape (Map.hist r)
    /\ List.length (hist_shape (Map.hist r))
       = List.length (Binning.shape (Map.binning m)).
Proof.
  intros Hfit Hall. unfold fits in Hfit.
  unfold Map.__getitem__, Map.index. cbn [Binning.getitem].
  destruct (dims_getitem_in_range _ _ Hall) as [b' [Hb' Hshape]].
  rewrite Hb'. cbn [bind].
  assert (Hsub : exists h, hist_getitem (Map.hist m) items = Ok h
                           /\ prod_shape (hist_shape h)
                              = prod_shape (Binning.shape b')).
  { rewrite Hshape. rewrite <- Hfit in Hall |- *.
    destruct (getitem_shape_in_range _ _ Hall) as [sh' [Hsh' Hp]].
    destruct (Map.hist m) as [a | a]; cbn [hist_getitem hist_shape] in *;
      unfold nd_getitem; rewrite Hsh'; cbn [bind]; eexists;
      (split; [reflexivity | exact Hp]). }
  destruct Hsub as [h [-> Hp]]. cbn [bind].
  assert (Hre : exists h', hist_reshape h (Binning.shape b') = Ok h'
                           /\ hist_shape h' = Binning.shape b').
  { destruct h as [a | a]; cbn [hist_reshape hist_shape] in *;
      unfold np_reshape; apply Nat.eqb_eq in Hp; rewrite Hp; cbn [bind];
      eexists; (split; reflexivity). }
  destruct Hre as [h' [-> Hh']]. cbn [bind].
  rewrite new_obj_run by (cbn [Map.has_key Map.u_hist Map.u_binning]; exact Hh').
  eexists. split; [reflexivity |].
  cbn [Map.hist Map.binning Map.has_key Map.u_hist Map.u_binning].
  rewrite Hh', Hshape. repeat split; try reflexivity.
  apply map2_length. eapply Forall2_length. exact Hall.
Qed.

Lemma getitem_in_range_witness :
  exists r,
    Map.__getitem__ Examples.map_x (ITuple [IInt 1; ISlice 1 7]) = Ok r
    /\ hist_shape (Map.hist r) = [1; 2].
Proof.
  destruct (getitem_in_range Examples.map_x [IInt 1; ISlice 1 7]) as [r [Hr [Hs _]]].
  - reflexivity.
  - repeat constructor.
  - exists r. split; [exact Hr | exact Hs].
Defined.

(** ** Iterating over the bins *)

Lemma mapM_length {A B : Type} (f : A -> result B) (xs : list A) (ys : list B) :
  mapM f xs = Ok ys -> List.length ys = List.length xs.
Proof.
  revert ys. induction xs as [| x xs IH]; intros ys Hys; simpl in Hys.
  - injection Hys as <-. reflexivity.
  - inv_bind Hys. inv_bind Hys. injection Hys as <-. simpl.
    f_equal. apply IH. assumption.
Qed.

Lemma mapM_nth {A B : Type} (f : A -> result B) (xs : list A) (ys : list B) :
  mapM f xs = Ok ys ->
  forall i x, nth_error xs i = Some x ->
              exists y, f x = Ok y /\ nth_error ys i = Some y.
Proof.
  revert ys. induction xs as [| x0 xs IH]; intros ys Hys i x Hx.
  - destruct i; discriminate Hx.
  - simpl in Hys. inv_bind Hys. inv_bind Hys. injection Hys as <-.
    destruct i as [| i].
    + injection Hx as <-. exists a. split; [assumption | reflexivity].
    + apply (IH a0 Ha0 i x Hx).
Qed.

Lemma mapM_run {A B : Type} (f : A -> result B) (xs : list A) :
  (forall x, In x xs -> exists y, f x = Ok y) -> exists ys, mapM f xs = Ok ys.
Proof.
  induction xs as [| x xs IH]; intros Hall.
  - exists []. reflexivity.
  - destruct (Hall x (or_introl eq_refl)) as [y Hy].
    destruct IH as [ys Hys]; [intros x' Hx'; apply Hall; right; exact Hx' |].
    exists (y :: ys). simpl. rewrite Hy, Hys. reflexivity.
Qed.

(** The coordinates of a position below the number of items lie within
    the axes. *)
Lemma unravel_index_in_range (sh : list nat) :
  forall i, i < prod_shape sh ->
            Forall2 (fun n x => x < n) sh (Map.unravel_index i sh).
Proof.
  induction sh as [| n sh IH]; intros i Hi; cbn [Map.unravel_index].
  - constructor.
  - cbn [prod_shape fold_right] in Hi. fold (prod_shape sh) in Hi.
    assert (Hk : prod_shape sh <> 0) by (intros Hz; rewrite Hz in Hi; lia).
    constructor.
    + apply Nat.Div0.div_lt_upper_bound. lia.
    + apply IH. apply Nat.mod_upper_bound. exact Hk.
Qed.

Lemma slice_bounds_one (n x : nat) : x < n -> slice_bounds n x (x + 1) = (x, 1).
Proof.
  intros Hx. unfold slice_bounds.
  rewrite (Nat.min_l x n) by lia. rewrite (Nat.min_l (x + 1) n) by lia.
  f_equal. lia.
Qed.

Lemma getitem_shape_one_bin (sh idx : list nat) :
  Forall2 (fun n x => x < n) sh idx ->
  getitem_shape sh (map (fun x => ISlice x (x + 1)) idx)
  = Ok (map (fun _ => 1) sh).
Proof.
  induction 1 as [| n x sh idx Hx _ IH]; [reflexivity |].
  cbn [map getitem_shape]. rewrite IH. cbn [bind].
  rewrite (slice_bounds_one n x Hx). reflexivity.
Qed.

Lemma ints_in_range (sh idx : list nat) :
  Forall2 (fun n x => x < n) sh idx -> Forall2 in_range sh (map IInt idx).
Proof. induction 1; constructor; assumption. Qed.

Lemma axis_length_ints (sh idx : list nat) :
  List.length sh = List.length idx ->
  map2 axis_length sh (map IInt idx) = map (fun _ => 1) sh.
Proof.
  revert idx. induction sh as [| n sh IH]; intros [| x idx] Hlen;
    simpl in *; try discriminate; [reflexivity |].
  rewrite IH by lia. reflexivity.
Qed.

(** The array and the binning of the one-bin map cut out at the
    coordinates [idx]. *)
Lemma one_bin_parts (m : Map.t) (idx : list nat) :
  fits m ->
  Forall2 (fun n x => x < n) (hist_shape (Map.hist m)) idx ->
  exists h b,
    hist_getitem (Map.hist m) (map (fun x => ISlice x (x + 1)) idx) = Ok h
    /\ Binning.getitem (Map.binning m) (ITuple (map IInt idx)) = Ok b
    /\ hist_shape h = map (fun _ => 1) (hist_shape (Map.hist m))
    /\ Binning.shape b = hist_shape h.
Proof.
  intros Hfit Hidx. unfold fits in Hfit.
  assert (Hb : exists b,
             Binning.getitem (Map.binning m) (ITuple (map IInt idx)) = Ok b
             /\ Binning.shape b = map (fun _ => 1) (hist_shape (Map.hist m))).
  { cbn [Binning.getitem].
    destruct (dims_getitem_in_range (Map.binning m) (map IInt idx))
      as [b [Hb Hs]].
    - rewrite <- Hfit. apply ints_in_range. exact Hidx.
    - exists b. split; [exact Hb |].
      rewrite Hs, <- Hfit. apply axis_length_ints.
      eapply Forall2_length. exact Hidx. }
  destruct Hb as [b [Hb Hs]].
  destruct (Map.hist m) as [a | a]; cbn [hist_getitem hist_shape] in *;
    unfold nd_getitem; rewrite (getitem_shape_one_bin _ _ Hidx); cbn [bind];
    eexists; exists b; cbn [hist_shape nd_shape];
    (split; [reflexivity | split; [exact Hb | split; [reflexivity | exact Hs]]]).
Qed.

(** X14.  On a map that fits its binning [iterbins] yields one map per bin,
    in row-major order: as many maps as the array has items, the map at
    position [i] recording the coordinates of [i] as its parent indexer,
    holding one bin on every axis, and having no hash. *)
Theorem iterbins_yields_every_bin (m : Map.t) :
  fits m ->
  exists bins,
    Map.iterbins m = Ok bins
    /\ List.length bins = prod_shape (hist_shape (Map.hist m))
    /\ forall i b, nth_error bins i = Some b ->
         Map.parent_indexer b
         = Some (Map.unravel_index i (hist_shape (Map.hist m)))
         /\ hist_shape (Map.hist b)
            = map (fun _ => 1) (hist_shape (Map.hist m))
         /\ fits b
         /\ Map.hash b = None.
Proof.
  intros Hfit. unfold Map.iterbins.
  match goal with
  | |- context [mapM ?f ?xs] => set (body := f); set (positions := xs)
  end.
  assert (Hbody : forall i, i < prod_shape (hist_shape (Map.hist m)) ->
            exists b, body i = Ok b
              /\ Map.parent_indexer b
                 = Some (Map.unravel_index i (hist_shape (Map.hist m)))
              /\ hist_shape (Map.hist b)
                 = map (fun _ => 1) (hist_shape (Map.hist m))
              /\ fits b /\ Map.hash b = None).
  { intros i Hi. unfold body.
    destruct (one_bin_parts m _ Hfit (unravel_index_in_range _ i Hi))
      as [h [b [-> [-> [Hh Hb]]]]].
    cbn [bind]. rewrite init_with_binning.
    rewrite (assert_array_fits_ok _ _ (eq_sym Hb)). cbn [bind].
    eexists. split; [reflexivity |].
    unfold fits, Map.set_parent_indexer.
    cbn [Map.parent_indexer Map.hist Map.binning Map.hash].
    repeat split; first [reflexivity | congruence]. }
  destruct (mapM_run body positions) as [bins Hbins].
  { intros i Hi. apply in_seq in Hi.
    destruct (Hbody i) as [b [Hb _]]; [lia | exists b; exact Hb]. }
  exists bins. split; [exact Hbins |].
  pose proof (mapM_length _ _ _ Hbins) as Hlen.
  unfold positions in Hlen. rewrite length_seq in Hlen.
  split; [exact Hlen |].
  intros i b Hib.
  assert (Hi : i < prod_shape (hist_shape (Map.hist m))).
  { rewrite <- Hlen. apply nth_error_Some. congruence. }
  assert (Hpos : nth_error positions i = Some i).
  { unfold positions. rewrite nth_error_seq.
    apply Nat.ltb_lt in Hi. rewrite Hi. reflexivity. }
  destruct (mapM_nth _ _ _ Hbins i i Hpos) as [b' [Hb' Hnth]].
  rewrite Hib in Hnth. injection Hnth as <-.
  destruct (Hbody i Hi) as [b'' [Hb'' Hprops]].
  rewrite Hb' in Hb''. injection Hb'' as <-. exact Hprops.
Qed.

Lemma iterbins_yields_every_bin_witness :
  exists bins b,
    Map.iterbins Examples.map_x = Ok bins
    /\ List.length bins = 6
    /\ nth_error bins 4 = Some b
    /\ Map.parent_indexer b = Some [1; 1]
    /\ hist_shape (Map.hist b) = [1; 1].
Proof.
  destruct (iterbins_yields_every_bin Examples.map_x eq_refl)
    as [bins [Hbins [Hlen Hnth]]].
  destruct (nth_error bins 4) as [b |] eqn:Hb.
  - destruct (Hnth 4 b Hb) as [Hp [Hs _]].
    exists bins, b. repeat split; assumption.
  - apply nth_error_None in Hb. rewrite Hlen in Hb. cbn in Hb. lia.
Defined.

Lemma block_length {A : Type} (k n x : nat) (d : list A) :
  List.length d = n * k -> x < n ->
  List.length (firstn k (skipn (x * k) d)) = k.
Proof.
  intros Hlen Hx. rewrite length_firstn, length_skipn, Hlen.
  assert (Hle : (x + 1) * k <= n * k) by (apply Nat.mul_le_mono_r; lia).
  lia.
Qed.

Lemma item_of_block {A : Type} (k i : nat) (d : list A) :
  k <> 0 ->
  firstn 1 (skipn (i mod k) (firstn k (skipn (i / k * k) d)))
  = firstn 1 (skipn i d).
Proof.
  intros Hk. rewrite skipn_firstn_comm, firstn_firstn, skipn_skipn.
  pose proof (Nat.mod_upper_bound i k Hk) as Hmod.
  rewrite (Nat.min_l 1 (k - i mod k)) by lia.
  replace (i mod k + i / k * k) with i; [reflexivity |].
  pose proof (Nat.div_mod_eq i k). lia.
Qed.

(** Cutting out the bin at the coordinates of position [i], with slices of
    length one or with integers, leaves the item at position [i]. *)
Lemma getitem_data_one_bin {A : Type} (sh : list nat) :
  forall (i : nat) (d : list A),
    List.length d = prod_shape sh -> i < prod_shape sh ->
    getitem_data sh (map (fun x => ISlice x (x + 1)) (Map.unravel_index i sh)) d
    = firstn 1 (skipn i d)
    /\ getitem_data sh (map IInt (Map.unravel_index i sh)) d
       = firstn 1 (skipn i d).
Proof.
  induction sh as [| n sh IH]; intros i d Hlen Hi.
  - cbn [prod_shape fold_right] in Hlen, Hi. assert (i = 0) as -> by lia.
    cbn [Map.unravel_index map getitem_data skipn].
    rewrite firstn_all2 by lia. split; reflexivity.
  - cbn [prod_shape fold_right] in Hlen, Hi. fold (prod_shape sh) in Hlen, Hi.
    assert (Hk : prod_shape sh <> 0) by (intros Hz; rewrite Hz in Hi; lia).
    assert (Hx : i / prod_shape sh < n)
      by (apply Nat.Div0.div_lt_upper_bound; lia).
    pose proof (Nat.mod_upper_bound i _ Hk) as Hmod.
    pose proof (block_length (prod_shape sh) n _ d Hlen Hx) as Hblock.
    destruct (IH (i mod prod_shape sh) _ Hblock Hmod) as [IHs IHi].
    cbn [Map.unravel_index map getitem_data].
    rewrite (slice_bounds_one n _ Hx). cbn [chunks map List.concat].
    rewrite app_nil_r, IHs, IHi, item_of_block by exact Hk.
    split; reflexivity.
Qed.

Lemma getitem_shape_ints (sh idx : list nat) :
  Forall2 (fun n x => x < n) sh idx -> getitem_shape sh (map IInt idx) = Ok [].
Proof.
  induction 1 as [| n x sh idx Hx _ IH]; [reflexivity |].
  cbn [map getitem_shape]. apply Nat.ltb_lt in Hx. rewrite Hx. exact IH.
Qed.

Lemma prod_shape_ones (sh : list nat) : prod_shape (map (fun _ => 1) sh) = 1.
Proof.
  induction sh as [| n sh IH]; [reflexivity |].
  cbn [map prod_shape fold_right]. fold (prod_shape (map (fun _ => 1) sh)).
  rewrite IH. reflexivity.
Qed.

(** The map [iterbins] yields at position [i], spelled out. *)
Lemma iterbins_nth (m b : Map.t) (bins : list Map.t) (i : nat) :
  Map.iterbins m = Ok bins -> nth_error bins i = Some b ->
  i < prod_shape (hist_shape (Map.hist m))
  /\ exists h bn,
       hist_getitem (Map.hist m)
         (map (fun x => ISlice x (x + 1))
              (Map.unravel_index i (hist_shape (Map.hist m)))) = Ok h
       /\ Binning.getitem (Map.binning m)
            (ITuple (map IInt (Map.unravel_index i (hist_shape (Map.hist m)))))
          = Ok bn
       /\ b = Map.mk (Map.name m) h bn None (Map.tex m) (Map.full_comparison m)
                     (Some (Map.unravel_index i (hist_shape (Map.hist m)))).
Proof.
  unfold Map.iterbins. intros Hbins Hib.
  pose proof (mapM_length _ _ _ Hbins) as Hlen. rewrite length_seq in Hlen.
  assert (Hi : i < prod_shape (hist_shape (Map.hist m))).
  { rewrite <- Hlen. apply nth_error_Some. congruence. }
  split; [exact Hi |].
  assert (Hpos : nth_error (seq 0 (prod_shape (hist_shape (Map.hist m)))) i
                 = Some i).
  { rewrite nth_error_seq. apply Nat.ltb_lt in Hi. rewrite Hi. reflexivity. }
  destruct (mapM_nth _ _ _ Hbins i i Hpos) as [b' [Hb' Hnth]].
  rewrite Hib in Hnth. injection Hnth as <-.
  inv_bind Hb'. rename a into h. inv_bind Hb'. rename a into bn.
  inv_bind Hb'. rewrite init_with_binning in Ha1. inv_bind Ha1.
  injection Ha1 as <-. injection Hb' as <-.
  exists h, bn. repeat split; assumption.
Qed.

(** X15.  The map that [iterbins] yields at position [i] holds the item at
    position [i] of the row-major order of the array: its nominal value and
    its standard deviation. *)
Theorem iterbins_row_major (m b : Map.t) (bins : list Map.t) (i : nat) :
  hist_wf (Map.hist m) ->
  Map.iterbins m = Ok bins ->
  nth_error bins i = Some b ->
  nd_data (unp_nominal_values (Map.hist b))
  = firstn 1 (skipn i (nd_data (unp_nominal_values (Map.hist m))))
  /\ nd_data (unp_std_devs (Map.hist b))
     = firstn 1 (skipn i (nd_data (unp_std_devs (Map.hist m)))).
Proof.
  intros Hwf Hbins Hib.
  destruct (iterbins_nth m b bins i Hbins Hib) as [Hi [h [bn [Hh [_ ->]]]]].
  cbn [Map.hist].
  destruct (Map.hist m) as [a | a]; cbn [hist_getitem hist_shape hist_wf] in *;
    inv_bind Hh; injection Hh as <-;
    match goal with
    | Hr : nd_getitem _ _ = Ok _ |- _ =>
        unfold nd_getitem in Hr; inv_bind Hr; injection Hr as <-
    end;
    destruct (getitem_data_one_bin (nd_shape a) i (nd_data a) Hwf Hi)
      as [Hdata _];
    cbn [unp_nominal_values unp_std_devs]; unfold nd_map;
    cbn [nd_data nd_shape]; rewrite Hdata;
    rewrite ?skipn_map, ?firstn_map; split; reflexivity.
Qed.

Lemma iterbins_row_major_witness :
  exists bins b,
    Map.iterbins Examples.map_unc = Ok bins
    /\ nth_error bins 5 = Some b
    /\ nd_data (unp_std_devs (Map.hist b)) = [float_of_Z 1].
Proof.
  assert (Hbins : exists bins, Map.iterbins Examples.map_unc = Ok bins)
    by (eexists; vm_compute; reflexivity).
  destruct Hbins as [bins Hbins].
  assert (Hb : exists b, nth_error bins 5 = Some b).
  { destruct (nth_error bins 5) as [b |] eqn:Hb; [exists b; reflexivity |].
    apply nth_error_None in Hb.
    pose proof (mapM_length _ _ _ Hbins) as Hlen. rewrite Hlen in Hb.
    vm_compute in Hb. lia. }
  destruct Hb as [b Hb]. exists bins, b.
  split; [exact Hbins | split; [exact Hb |]].
  destruct (iterbins_row_major Examples.map_unc b bins 5 eq_refl Hbins Hb)
    as [_ Hstd].
  rewrite Hstd. reflexivity.
Defined.

(** X16.  The map that [iterbins] yields at position [i] has the array, the
    binning, the name, the label and the flag of the map obtained by
    indexing with the integer coordinates of [i]; the two differ in the
    hash, which indexing copies from the parent and [iterbins] leaves
    unset. *)
Theorem iterbins_agrees_with_getitem (m b : Map.t) (bins : list Map.t) (i : nat) :
  fits m -> hist_wf (Map.hist m) ->
  Map.iterbins m = Ok bins ->
  nth_error bins i = Some b ->
  exists r,
    Map.__getitem__ m
      (ITuple (map IInt (Map.unravel_index i (hist_shape (Map.hist m))))) = Ok r
    /\ Map.hist r = Map.hist b
    /\ Map.binning r = Map.binning b
    /\ Map.name r = Map.name b
    /\ Map.tex r = Map.tex b
    /\ Map.full_comparison r = Map.full_comparison b
    /\ Map.hash r = Map.hash m
    /\ Map.hash b = None.
Proof.
  intros Hfit Hwf Hbins Hib.
  destruct (iterbins_nth m b bins i Hbins Hib) as [Hi [h [bn [Hh [Hbn ->]]]]].
  pose proof (unravel_index_in_range _ i Hi) as Hidx.
  destruct (one_bin_parts m _ Hfit Hidx) as [h' [bn' [Hh' [Hbn' [Hones Hshape]]]]].
  rewrite Hh in Hh'. injection Hh' as <-.
  rewrite Hbn in Hbn'. injection Hbn' as <-.
  unfold Map.__getitem__, Map.index. rewrite Hbn. cbn [bind].
  assert (Hsub : exists sub,
             hist_getitem (Map.hist m)
               (map IInt (Map.unravel_index i (hist_shape (Map.hist m))))
             = Ok sub
             /\ hist_reshape sub (Binning.shape bn) = Ok h).
  { rewrite Hshape. clear Hshape Hbn Hib Hbins.
    destruct (Map.hist m) as [a | a]; cbn [hist_getitem hist_shape hist_wf] in *;
      inv_bind Hh; injection Hh as <-;
      match goal with
      | Hr : nd_getitem _ _ = Ok _ |- _ =>
          unfold nd_getitem in Hr; inv_bind Hr; injection Hr as <-
      end;
      destruct (getitem_data_one_bin (nd_shape a) i (nd_data a) Hwf Hi)
        as [Hslices Hints];
      unfold nd_getitem; rewrite (getitem_shape_ints _ _ Hidx); cbn [bind];
      eexists; (split; [reflexivity |]);
      cbn [hist_reshape hist_shape nd_shape] in *; unfold np_reshape;
      cbn [nd_shape nd_data]; rewrite Hones, prod_shape_ones;
      cbn [prod_shape fold_right Nat.eqb bind];
      rewrite Hslices, Hints; reflexivity. }
  destruct Hsub as [sub [Hsub Hre]].
  rewrite Hsub. cbn [bind]. rewrite Hre. cbn [bind].
  rewrite new_obj_run
    by (cbn [Map.has_key Map.u_hist Map.u_binning]; symmetry; exact Hshape).
  eexists. split; [reflexivity |]. cbn. repeat split; reflexivity.
Qed.

Lemma iterbins_agrees_with_getitem_witness :
  exists bins b r,
    Map.iterbins Examples.map_x = Ok bins
    /\ nth_error bins 4 = Some b
    /\ Map.__getitem__ Examples.map_x (ITuple [IInt 1; IInt 1]) = Ok r
    /\ Map.hist r = Map.hist b
    /\ Map.hash r = Some 42%Z
    /\ Map.hash b = None.
Proof.
  assert (Hbins : exists bins, Map.iterbins Examples.map_x = Ok bins)
    by (eexists; vm_compute; reflexivity).
  destruct Hbins as [bins Hbins].
  assert (Hb : exists b, nth_error bins 4 = Some b).
  { destruct (nth_error bins 4) as [b |] eqn:Hb; [exists b; reflexivity |].
    apply nth_error_None in Hb.
    pose proof (mapM_length _ _ _ Hbins) as Hlen. rewrite Hlen in Hb.
    vm_compute in Hb. lia. }
  destruct Hb as [b Hb].
  destruct (iterbins_agrees_with_getitem Examples.map_x b bins 4
              eq_refl eq_refl Hbins Hb)
    as [r [Hr [Hh [_ [_ [_ [_ [Hhash Hnone]]]]]]]].
  exists bins, b, r. repeat split; assumption.
Defined.

(** ** Looking members up in a map set *)

Lemma tuple_index_first (x : string) (l : list string) (k : nat) :
  MapSet.tuple_index x l = Some k ->
  forall j, j < k -> nth_error l j <> Some x.
Proof.
  revert k. induction l as [| y l IH]; intros k Hk j Hj; simpl in Hk.
  - discriminate.
  - destruct (String.eqb y x) eqn:Hyx.
    + injection Hk as <-. lia.
    + destruct (MapSet.tuple_index x l) as [i |] eqn:Hi; [| discriminate].
      injection Hk as <-. destruct j as [| j]; simpl.
      * intros Heq. injection Heq as ->.
        rewrite String.eqb_refl in Hyx. discriminate.
      * apply (IH i eq_refl). lia.
Qed.

Lemma tuple_index_absent (x : string) (l : list string) :
  ~ In x l -> MapSet.tuple_index x l = None.
Proof.
  induction l as [| y l IH]; intros Hnot; [reflexivity |].
  simpl. destruct (String.eqb y x) eqn:Hyx.
  - apply String.eqb_eq in Hyx. subst. exfalso. apply Hnot. left. reflexivity.
  - rewrite IH; [reflexivity |]. intros Hin. apply Hnot. right. exact Hin.
Qed.

(** X17.  Looking a name up in a map set returns the first member of that
    name, so that a later member of the same name is out of reach; a name
    that no member has raises a [ValueError]. *)
Theorem find_map_first_or_error (s : MapSet.t) (x : string) :
  (In x (MapSet.names s) ->
   exists k a,
     MapSet.find_map s x = Ok a
     /\ nth_error (MapSet.maps s) k = Some a
     /\ Map.name a = x
     /\ forall j a', j < k -> nth_error (MapSet.maps s) j = Some a' ->
                     Map.name a' <> x)
  /\ (~ In x (MapSet.names s) ->
      exists msg, MapSet.find_map s x = Raise (ValueError msg)).
Proof.
  split.
  - intros Hin.
    destruct (find_map_first s x Hin) as [k [a [Hk [Hka [Hn Hfind]]]]].
    exists k, a. repeat split; try assumption.
    intros j a' Hj Hja' Hname.
    apply (tuple_index_first _ _ _ Hk j Hj).
    unfold MapSet.names. rewrite nth_error_map, Hja'. simpl. congruence.
  - intros Hnot. unfold MapSet.find_map.
    rewrite (tuple_index_absent _ _ Hnot). eexists. reflexivity.
Qed.

(** In a set with two members named x, the lookup of x gives the first
    one; y is not found. *)
Lemma find_map_first_or_error_witness :
  MapSet.find_map
    (MapSet.mk [Examples.named "x" 1; Examples.named "x" 2] None "{\rm None}"
               true false) "x"
  = Ok (Examples.named "x" 1)
  /\ exists msg, MapSet.find_map Examples.set_x "y" = Raise (ValueError msg).
Proof.
  split.
  - destruct (proj1 (find_map_first_or_error
                       (MapSet.mk [Examples.named "x" 1; Examples.named "x" 2]
                                  None "{\rm None}" true false) "x"))
      as [k [a [Hfind [Hk [_ Hfirst]]]]]; [left; reflexivity |].
    rewrite Hfind. f_equal.
    destruct k as [| k]; [injection Hk as <-; reflexivity |].
    exfalso. apply (Hfirst 0 (Examples.named "x" 1)); [lia | reflexivity | reflexivity].
  - apply (proj2 (find_map_first_or_error Examples.set_x "y")).
    intros [Hin | []]. discriminate Hin.
Defined.

(** X18.  [name in map_set] is true exactly when looking the name up
    returns a member. *)
Theorem contains_iff_getitem (s : MapSet.t) (x : string) :
  MapSetExtra.__contains__ s x = true
  <-> exists a, MapSet.__getitem__ s (MapSet.ByName x) = Ok (MapSet.GotMap a).
Proof.
  unfold MapSetExtra.__contains__. fold (MapSet.names s).
  rewrite existsb_exists. split.
  - intros [n [Hin Heq]]. apply String.eqb_eq in Heq. subst n.
    destruct (find_map_first s x Hin) as [k [a [_ [_ [_ Hfind]]]]].
    exists a. cbn [MapSet.__getitem__]. rewrite Hfind. reflexivity.
  - intros [a Ha]. cbn [MapSet.__getitem__] in Ha.
    unfold MapSet.find_map in Ha.
    destruct (MapSet.tuple_index x (MapSet.names s)) as [k |] eqn:Hk;
      [| discriminate Ha].
    exists x. split; [| apply String.eqb_refl].
    eapply nth_error_In. eapply tuple_index_nth. exact Hk.
Qed.

(** ** Collating values with the names of the members *)

Lemma getitem_setitem {V : Type} (d : list (string * V)) (k x : string) (v : V) :
  MapSetExtra.getitem (MapSetExtra.setitem d k v) x
  = if String.eqb k x then Some v else MapSetExtra.getitem d x.
Proof.
  induction d as [| [k' v'] d IH]; simpl.
  - reflexivity.
  - destruct (String.eqb k' k) eqn:Hk'; simpl.
    + apply String.eqb_eq in Hk'. subst k'.
      destruct (String.eqb k x); reflexivity.
    + rewrite IH. destruct (String.eqb k' x) eqn:Hx; [| reflexivity].
      apply String.eqb_eq in Hx. subst k'. rewrite String.eqb_sym in Hk'.
      rewrite Hk'. reflexivity.
Qed.

Lemma getitem_app {V : Type} (d e : list (string * V)) (x : string) :
  MapSetExtra.getitem (d ++ e) x
  = match MapSetExtra.getitem d x with
    | Some v => Some v
    | None => MapSetExtra.getitem e x
    end.
Proof.
  induction d as [| [k v] d IH]; simpl; [reflexivity |].
  destruct (String.eqb k x); [reflexivity | exact IH].
Qed.

Lemma getitem_fold_setitem {V : Type} (l d : list (string * V)) (x : string) :
  MapSetExtra.getitem
    (fold_left (fun ret_dict name_val =>
                  MapSetExtra.setitem ret_dict (fst name_val) (snd name_val))
               l d) x
  = match MapSetExtra.getitem (rev l) x with
    | Some v => Some v
    | None => MapSetExtra.getitem d x
    end.
Proof.
  revert d. induction l as [| [k v] l IH]; intros d; simpl; [reflexivity |].
  rewrite IH, getitem_app, getitem_setitem. cbn [fst snd].
  destruct (MapSetExtra.getitem (rev l) x); [reflexivity |].
  simpl. destruct (String.eqb k x); reflexivity.
Qed.

Lemma setitem_new_key {V : Type} (d : list (string * V)) (k : string) (v : V) :
  ~ In k (map fst d) -> MapSetExtra.setitem d k v = d ++ [(k, v)].
Proof.
  induction d as [| [k' v'] d IH]; intros Hnot; simpl; [reflexivity |].
  destruct (String.eqb k' k) eqn:Hk.
  - apply String.eqb_eq in Hk. subst. exfalso. apply Hnot. left. reflexivity.
  - rewrite IH; [reflexivity |]. intros Hin. apply Hnot. right. exact Hin.
Qed.

Lemma fold_setitem_distinct {V : Type} (l d : list (string * V)) :
  NoDup (map fst (d ++ l)) ->
  fold_left (fun ret_dict name_val =>
               MapSetExtra.setitem ret_dict (fst name_val) (snd name_val))
            l d
  = d ++ l.
Proof.
  revert d. induction l as [| [k v] l IH]; intros d Hnd; simpl.
  - rewrite app_nil_r. reflexivity.
  - cbn [fst snd]. rewrite setitem_new_key.
    + rewrite IH; rewrite <- app_assoc; [reflexivity | exact Hnd].
    + rewrite map_app in Hnd. simpl in Hnd.
      apply NoDup_remove_2 in Hnd. intros Hin. apply Hnd.
      apply in_or_app. left. exact Hin.
Qed.

Lemma NoDup_combine_fst {A B : Type} (xs : list A) (ys : list B) :
  NoDup xs -> NoDup (map fst (combine xs ys)).
Proof.
  intros Hnd. revert ys. induction Hnd as [| x xs Hx Hnd IH]; intros [| y ys];
    simpl; try constructor.
  - intros Hin. apply Hx. apply in_map_iff in Hin.
    destruct Hin as [[x' y'] [Heq Hin]]. simpl in Heq. subst x'.
    eapply in_combine_l. exact Hin.
  - apply IH.
Qed.

(** X19.  In the mapping that [collate_with_names] builds, a name gives the
    value paired with the last member of that name (where a lookup in the
    set gives the first member).  When no two members share a name the
    mapping lists the names with their values in the order of the
    members. *)
Theorem collate_with_names_last_wins {V : Type} (s : MapSet.t) (vals : list V) :
  (forall x,
      MapSetExtra.getitem (MapSetExtra.collate_with_names s vals) x
      = MapSetExtra.getitem (rev (combine (MapSet.names s) vals)) x)
  /\ (NoDup (MapSet.names s) ->
      MapSetExtra.collate_with_names s vals = combine (MapSet.names s) vals).
Proof.
  unfold MapSetExtra.collate_with_names. split.
  - intros x. rewrite getitem_fold_setitem. simpl.
    destruct (MapSetExtra.getitem (rev (combine (MapSet.names s) vals)) x);
      reflexivity.
  - intros Hnd. rewrite fold_setitem_distinct; [reflexivity |].
    apply NoDup_combine_fst. exact Hnd.
Qed.

Lemma collate_with_names_last_wins_witness :
  MapSetExtra.collate_with_names Examples.set_xy [10%Z; 20%Z]
  = [("x", 10%Z); ("y", 20%Z)]
  /\ MapSetExtra.getitem
       (MapSetExtra.collate_with_names
          (MapSet.mk [Examples.named "x" 1; Examples.named "x" 2] None
                     "{\rm None}" true false) [10%Z; 20%Z]) "x"
     = Some 20%Z.
Proof.
  split.
  - apply (proj2 (collate_with_names_last_wins Examples.set_xy [10%Z; 20%Z])).
    repeat constructor; simpl; intuition discriminate.
  - rewrite (proj1 (collate_with_names_last_wins _ _)). reflexivity.
Defined.

(** ** Operations broadcast over a map set, in general *)

Lemma mapM_raises {A B : Type} (f : A -> result B) (P : exn -> Prop)
      (xs : list A) :
  (forall x e, In x xs -> f x = Raise e -> P e) ->
  (exists x e, In x xs /\ f x = Raise e) ->
  exists e, mapM f xs = Raise e /\ P e.
Proof.
  induction xs as [| x0 xs IH]; intros HP [x [e [Hin Hx]]]; [contradiction |].
  simpl. destruct (f x0) as [y0 | e0] eqn:H0.
  - destruct Hin as [-> | Hin]; [congruence |].
    destruct IH as [e' [He' HPe']].
    + intros x' e' Hin' Hx'. apply (HP x' e'); [right; exact Hin' | exact Hx'].
    + exists x, e. split; assumption.
    + exists e'. simpl. rewrite He'. split; [reflexivity | exact HPe'].
  - exists e0. split; [reflexivity |]. apply (HP x0 e0); [left; reflexivity | exact H0].
Qed.

Lemma enumerate_from_nth {A : Type} (xs : list A) :
  forall n i,
    nth_error (MapSet.enumerate_from n xs) i
    = option_map (fun x => (n + i, x)) (nth_error xs i).
Proof.
  induction xs as [| x xs IH]; intros n i.
  - destruct i; reflexivity.
  - destruct i as [| i]; cbn [MapSet.enumerate_from nth_error option_map].
    + rewrite Nat.add_0_r. reflexivity.
    + rewrite IH, Nat.add_succ_r. reflexivity.
Qed.

Lemma enumerate_from_In {A : Type} (xs : list A) (n i : nat) (x : A) :
  In (i, x) (MapSet.enumerate_from n xs) ->
  In x xs /\ n <= i /\ nth_error xs (i - n) = Some x.
Proof.
  intros Hin. apply In_nth_error in Hin. destruct Hin as [k Hk].
  rewrite enumerate_from_nth in Hk.
  destruct (nth_error xs k) as [x' |] eqn:Hx'; [| discriminate].
  injection Hk as <- <-. split; [eapply nth_error_In; exact Hx' |].
  split; [lia |]. replace (n + k - n) with k by lia. exact Hx'.
Qed.

Section Broadcast.
Context `{Externals}.

Lemma call_method_binop (attr : MapSet.method) (a : Map.t) (x : Map.operand) :
  MapSet.call_method attr a [x] = binop_method (op_of_method attr) a x.
Proof. destruct attr; reflexivity. Qed.

Lemma call_method_ok (attr : MapSet.method) (a r : Map.t)
      (ops : list Map.operand) :
  MapSet.call_method attr a ops = Ok r ->
  exists x, ops = [x] /\ binop_method (op_of_method attr) a x = Ok r
            /\ Map.name r = Map.name a /\ fits r.
Proof.
  intros Hr. destruct ops as [| x [| y ops]];
    try (destruct attr; discriminate Hr).
  exists x. rewrite call_method_binop in Hr.
  split; [reflexivity | split; [exact Hr |]].
  rewrite binop_method_new_obj in Hr. apply new_obj_ok in Hr.
  destruct Hr as [u [Hu [-> Hfit]]].
  apply operator_updates_keys in Hu. destruct Hu as [-> _].
  split; [reflexivity | exact Hfit].
Qed.

(** When [apply_to_maps] returns, it returns a new map set with as many
    members as [self]; each is the outcome of the method of the member at
    that position, called on the arguments built for that position. *)
Lemma apply_to_maps_inv (A R : MapSet.t) (attr : MapSet.method)
      (args : list MapSet.arg) :
  MapSet.apply_to_maps A attr args = Ok R ->
  R = MapSet.mk (MapSet.maps R) None "{\rm None}" true false
  /\ List.length (MapSet.maps R) = List.length (MapSet.maps A)
  /\ forall i a, nth_error (MapSet.maps A) i = Some a ->
       exists opss r,
         mapM (MapSet.arg_for_map A i (Map.name a)) args = Ok opss
         /\ MapSet.call_method attr a (List.concat opss) = Ok r
         /\ nth_error (MapSet.maps R) i = Some r.
Proof.
  unfold MapSet.apply_to_maps, MapSet.enumerate.
  intros HR. inv_bind HR. rename a into argss. inv_bind HR. rename a into vals.
  rewrite mapset_of_maps in HR. injection HR as <-. cbn [MapSet.maps].
  destruct (two_passes_inv _ _ _ _ _ _ Ha Ha0) as [Hlen Hnth].
  split; [reflexivity | split; [exact Hlen |]].
  intros i a Hia. destruct (Hnth i a Hia) as [ops [r [Hops [Hcall Hr]]]].
  cbn [Nat.add] in Hops. inv_bind Hops. injection Hops as <-.
  eexists. exists r. repeat split; eassumption.
Qed.

Lemma apply_to_maps_run (A : MapSet.t) (attr : MapSet.method)
      (args : list MapSet.arg) :
  (forall i a, nth_error (MapSet.maps A) i = Some a ->
     exists opss r,
       mapM (MapSet.arg_for_map A i (Map.name a)) args = Ok opss
       /\ MapSet.call_method attr a (List.concat opss) = Ok r) ->
  exists R, MapSet.apply_to_maps A attr args = Ok R.
Proof.
  intros Hall. unfold MapSet.apply_to_maps, MapSet.enumerate.
  match goal with
  | |- context [bind (mapM ?F (MapSet.enumerate_from 0 _))
                     (fun args_per_map => bind (mapM ?G _) _)] =>
      destruct (two_passes_run F G (MapSet.maps A) 0) as [ys [zs [Hys Hzs]]]
  end.
  - intros i a Hia. destruct (Hall i a Hia) as [opss [r [Hops Hr]]].
    exists (List.concat opss), r. cbn [Nat.add]. rewrite Hops.
    split; [reflexivity | exact Hr].
  - rewrite Hys. cbn [bind]. rewrite Hzs. cbn [bind].
    rewrite mapset_of_maps. eexists; reflexivity.
Qed.

(** The first pass raises as soon as the arguments of one member cannot be
    built, whatever the calls of the second pass would do. *)
Lemma apply_to_maps_raises (A : MapSet.t) (attr : MapSet.method)
      (args : list MapSet.arg) (P : exn -> Prop) :
  (forall i a e, nth_error (MapSet.maps A) i = Some a ->
                 mapM (MapSet.arg_for_map A i (Map.name a)) args = Raise e ->
                 P e) ->
  (exists i a e, nth_error (MapSet.maps A) i = Some a
                 /\ mapM (MapSet.arg_for_map A i (Map.name a)) args = Raise e) ->
  exists e, MapSet.apply_to_maps A attr args = Raise e /\ P e.
Proof.
  intros HP [i [a [e [Hia He]]]].
  unfold MapSet.apply_to_maps, MapSet.enumerate.
  match goal with
  | |- context [bind (mapM ?F (MapSet.enumerate_from 0 _)) _] =>
      destruct (mapM_raises F P (MapSet.enumerate_from 0 (MapSet.maps A)))
        as [e' [He' HPe']]
  end.
  - intros [j b] e' Hin Hb. apply enumerate_from_In in Hin.
    destruct Hin as [_ [_ Hjb]]. rewrite Nat.sub_0_r in Hjb.
    apply (HP j b e' Hjb).
    destruct (mapM (MapSet.arg_for_map A j (Map.name b)) args); [discriminate Hb |].
    cbn in Hb. congruence.
  - exists (i, a), e. split.
    + eapply nth_error_In. rewrite enumerate_from_nth, Hia. reflexivity.
    + rewrite He. reflexivity.
  - exists e'. rewrite He'. split; [reflexivity | exact HPe'].
Qed.

End Broadcast.

(** X20.  Whatever [apply_to_maps] returns for a binary operator is a new
    map set without a name, with the label of a nameless set, collating by
    name even when [self] collates by number, with the names of the members
    of [self] in their order, and with members that fit their binning. *)
Theorem apply_to_maps_new_set `{Externals} (A R : MapSet.t)
        (attr : MapSet.method) (args : list MapSet.arg) :
  MapSet.apply_to_maps A attr args = Ok R ->
  MapSet.name R = None
  /\ MapSet.tex R = "{\rm None}"
  /\ MapSet.collate_by_name R = true
  /\ MapSet.collate_by_num R = false
  /\ MapSet.names R = MapSet.names A
  /\ forall r, In r (MapSet.maps R) -> fits r.
Proof.
  intros HR. destruct (apply_to_maps_inv _ _ _ _ HR) as [HRdef [Hlen Hnth]].
  assert (Hmember : forall i a, nth_error (MapSet.maps A) i = Some a ->
            exists r, nth_error (MapSet.maps R) i = Some r
                      /\ Map.name r = Map.name a /\ fits r).
  { intros i a Hia. destruct (Hnth i a Hia) as [opss [r [_ [Hcall Hr]]]].
    apply call_method_ok in Hcall. destruct Hcall as [x [_ [_ [Hn Hfit]]]].
    exists r. repeat split; assumption. }
  rewrite HRdef. cbn [MapSet.name MapSet.tex MapSet.collate_by_name
                      MapSet.collate_by_num MapSet.maps].
  repeat split.
  - unfold MapSet.names. cbn [MapSet.maps]. apply nth_error_ext. intros i.
    rewrite !nth_error_map.
    destruct (nth_error (MapSet.maps A) i) as [a |] eqn:Ha.
    + destruct (Hmember i a Ha) as [r [-> [Hn _]]]. simpl. congruence.
    + apply nth_error_None in Ha. rewrite <- Hlen in Ha.
      apply nth_error_None in Ha. rewrite Ha. reflexivity.
  - intros r Hr. apply In_nth_error in Hr. destruct Hr as [i Hi].
    destruct (nth_error (MapSet.maps A) i) as [a |] eqn:Ha.
    + destruct (Hmember i a Ha) as [r' [Hr' [_ Hfit]]]. congruence.
    + apply nth_error_None in Ha. rewrite <- Hlen in Ha.
      apply nth_error_None in Ha. congruence.
Qed.

(** The sum of two sets that collate by number collates by name. *)
Lemma apply_to_maps_new_set_witness :
  exists R,
    MapSet.__add__ (H := Examples.test_externals) Examples.set_by_num
      (MapSet.AMapSet Examples.set_renamed) = Ok R
    /\ MapSet.collate_by_name R = true
    /\ MapSet.name R = None
    /\ MapSet.names R = ["threes"; "fours"].
Proof.
  assert (HR : exists R, MapSet.__add__ (H := Examples.test_externals)
                           Examples.set_by_num
                           (MapSet.AMapSet Examples.set_renamed) = Ok R)
    by (eexists; vm_compute; reflexivity).
  destruct HR as [R HR]. exists R. split; [exact HR |].
  destruct (apply_to_maps_new_set (H := Examples.test_externals) _ _ _ _ HR)
    as [Hn [_ [Hc [_ [Hnames _]]]]].
  repeat split; assumption.
Defined.

(** X21.  An operator between a map set and a scalar is the operator of
    [Map] member by member: in whatever it returns, the member at each
    position is what the operator gives for the member of [self] at that
    position and the scalar.  It does return when every member has a bare
    array that fits its binning. *)
Theorem apply_scalar_memberwise `{Externals} (A : MapSet.t)
        (attr : MapSet.method) (x : float) :
  (forall R,
      MapSet.apply_to_maps A attr [MapSet.AScalar x] = Ok R ->
      List.length (MapSet.maps R) = List.length (MapSet.maps A)
      /\ forall i a, nth_error (MapSet.maps A) i = Some a ->
           exists r, binop_method (op_of_method attr) a (Map.OScalar x) = Ok r
                     /\ nth_error (MapSet.maps R) i = Some r)
  /\ ((forall a, In a (MapSet.maps A) ->
                 fits a /\ exists v, Map.hist a = HFloat v) ->
      exists R, MapSet.apply_to_maps A attr [MapSet.AScalar x] = Ok R).
Proof.
  split.
  - intros R HR.
    destruct (apply_to_maps_inv _ _ _ _ HR) as [_ [Hlen Hnth]].
    split; [exact Hlen |].
    intros i a Hia. destruct (Hnth i a Hia) as [opss [r [Hops [Hcall Hr]]]].
    cbn in Hops. injection Hops as <-. cbn [List.concat app] in Hcall.
    rewrite call_method_binop in Hcall. exists r. split; assumption.
  - intros Hbare. apply apply_to_maps_run.
    intros i a Hia. exists [[Map.OScalar x]].
    destruct (Hbare a (nth_error_In _ _ Hia)) as [Hfit _].
    assert (Hr : exists r, binop_method (op_of_method attr) a (Map.OScalar x)
                           = Ok r).
    { rewrite operator_on_scalar.
      destruct (hist_op_scalar (op_of_method attr) (Map.hist a) x)
        as [h [-> Hh]]. cbn [bind].
      rewrite assert_array_fits_ok by (rewrite Hh; exact Hfit).
      eexists. reflexivity. }
    destruct Hr as [r Hr]. exists r. split; [reflexivity |].
    cbn [List.concat app]. rewrite call_method_binop. exact Hr.
Qed.

Lemma apply_scalar_memberwise_witness :
  exists R r,
    MapSet.__mul__ (H := Examples.test_externals) Examples.set_xy
      (MapSet.AScalar (float_of_Z 3)) = Ok R
    /\ Map.__mul__ (H := Examples.test_externals) (Examples.named "y" 2)
         (Map.OScalar (float_of_Z 3)) = Ok r
    /\ nth_error (MapSet.maps R) 1 = Some r.
Proof.
  destruct (apply_scalar_memberwise (H := Examples.test_externals)
              Examples.set_xy MapSet.M__mul__ (float_of_Z 3))
    as [Hmember Hrun].
  destruct Hrun as [R HR].
  - intros a [<- | [<- | []]]; (split; [reflexivity | eexists; reflexivity]).
  - destruct (Hmember R HR) as [_ Hnth].
    destruct (Hnth 1 (Examples.named "y" 2) eq_refl) as [r [Hr Hi]].
    exists R, r. repeat split; assumption.
Defined.

Lemma find_map_raises (s : MapSet.t) (x : string) (e : exn) :
  MapSet.find_map s x = Raise e ->
  ~ In x (MapSet.names s)
  /\ e = ValueError
           (String.append "Could not find map name "
              (String.append dquote (String.append x dquote))).
Proof.
  intros He. destruct (in_dec string_dec x (MapSet.names s)) as [Hin | Hnot].
  - destruct (find_map_first s x Hin) as [k [a [_ [_ [_ Hfind]]]]]. congruence.
  - split; [exact Hnot |].
    unfold MapSet.find_map in He. rewrite (tuple_index_absent _ _ Hnot) in He.
    congruence.
Qed.

(** X22.  When [self] collates by name and one of its members has no
    member of its name in the map set passed as the operand, the operation
    raises the [ValueError] that the lookup of such a name raises, and no
    result is returned for the members that do have a partner. *)
Theorem missing_sibling_raises `{Externals} (A B : MapSet.t)
        (attr : MapSet.method) :
  MapSet.collate_by_name A = true ->
  (exists a, In a (MapSet.maps A) /\ ~ In (Map.name a) (MapSet.names B)) ->
  exists a msg,
    In a (MapSet.maps A)
    /\ ~ In (Map.name a) (MapSet.names B)
    /\ MapSet.find_map B (Map.name a) = Raise (ValueError msg)
    /\ MapSet.apply_to_maps A attr [MapSet.AMapSet B]
       = Raise (ValueError msg).
Proof.
  intros Hname [a [Hin Hnot]].
  destruct (apply_to_maps_raises A attr [MapSet.AMapSet B]
              (fun e => exists a msg,
                   In a (MapSet.maps A)
                   /\ ~ In (Map.name a) (MapSet.names B)
                   /\ MapSet.find_map B (Map.name a) = Raise (ValueError msg)
                   /\ e = ValueError msg))
    as [e [He [a' [msg [Hin' [Hnot' [Hfind' ->]]]]]]].
  - intros i b e Hib Hb. cbn [mapM] in Hb.
    unfold MapSet.arg_for_map in Hb. rewrite Hname in Hb.
    destruct (MapSet.find_map B (Map.name b)) as [mp | e'] eqn:Hfind;
      [discriminate Hb |].
    cbn in Hb. injection Hb as <-.
    destruct (find_map_raises _ _ _ Hfind) as [Hnotb ->].
    exists b. eexists.
    split; [eapply nth_error_In; exact Hib | split; [exact Hnotb |]].
    split; [exact Hfind | reflexivity].
  - apply In_nth_error in Hin. destruct Hin as [i Hia].
    exists i, a. eexists. split; [exact Hia |].
    cbn [mapM]. unfold MapSet.arg_for_map. rewrite Hname.
    unfold MapSet.find_map. rewrite (tuple_index_absent _ _ Hnot). reflexivity.
  - exists a', msg. repeat split; assumption.
Qed.

Lemma missing_sibling_raises_witness :
  exists msg,
    MapSet.__sub__ (H := Examples.test_externals) Examples.set_xy
      (MapSet.AMapSet Examples.set_x)
    = Raise (ValueError msg).
Proof.
  destruct (missing_sibling_raises (H := Examples.test_externals)
              Examples.set_xy Examples.set_x MapSet.M__sub__ eq_refl)
    as [a [msg [_ [_ [_ Hraise]]]]].
  - exists (Examples.named "y" 2). split; [right; left; reflexivity |].
    intros [Hx | []]. discriminate Hx.
  - exists msg. exact Hraise.
Defined.

(** X23.  When [self] collates by number and the map set passed as the
    operand has fewer members, the operation raises the [IndexError] of the
    tuple of members. *)
Theorem shorter_operand_raises `{Externals} (A B : MapSet.t)
        (attr : MapSet.method) :
  MapSet.collate_by_name A = false ->
  MapSet.collate_by_num A = true ->
  List.length (MapSet.maps B) < List.length (MapSet.maps A) ->
  MapSet.apply_to_maps A attr [MapSet.AMapSet B]
  = Raise (IndexError "tuple index out of range").
Proof.
  intros Hname Hnum Hlen.
  destruct (apply_to_maps_raises A attr [MapSet.AMapSet B]
              (fun e => e = IndexError "tuple index out of range"))
    as [e [He ->]]; [| | exact He].
  - intros i b e Hib Hb. cbn [mapM] in Hb.
    unfold MapSet.arg_for_map, MapSet.maps_item in Hb.
    rewrite Hname, Hnum in Hb.
    destruct (nth_error (MapSet.maps B) i); cbn in Hb; congruence.
  - destruct (nth_error (MapSet.maps A) (List.length (MapSet.maps B)))
      as [a |] eqn:Ha; [| apply nth_error_None in Ha; lia].
    exists (List.length (MapSet.maps B)), a. eexists. split; [exact Ha |].
    cbn [mapM]. unfold MapSet.arg_for_map, MapSet.maps_item.
    rewrite Hname, Hnum.
    replace (nth_error (MapSet.maps B) (List.length (MapSet.maps B)))
      with (@None Map.t) by (symmetry; apply nth_error_None; lia).
    reflexivity.
Qed.

Lemma shorter_operand_raises_witness :
  MapSet.__add__ (H := Examples.test_externals) Examples.set_by_num
    (MapSet.AMapSet Examples.set_x)
  = Raise (IndexError "tuple index out of range").
Proof.
  apply (shorter_operand_raises (H := Examples.test_externals)
           Examples.set_by_num Examples.set_x MapSet.M__add__);
    [reflexivity | reflexivity | cbn; lia].
Defined.

(** ** Bins of every member of a map set *)

Lemma getitem_in_range_returns (m : Map.t) (items : list index_item) :
  fits m ->
  Forall2 in_range (Binning.shape (Map.binning m)) items ->
  exists r,
    Map.__getitem__ m (ITuple items) = Ok r
    /\ Map.name r = Map.name m
    /\ fits r.
Proof.
  intros Hfit Hall. unfold fits in Hfit.
  unfold Map.__getitem__, Map.index. cbn [Binning.getitem].
  destruct (dims_getitem_in_range _ _ Hall) as [b' [Hb' Hshape]].
  rewrite Hb'. cbn [bind].
  assert (Hsub : exists h, hist_getitem (Map.hist m) items = Ok h
                           /\ prod_shape (hist_shape h)
                              = prod_shape (Binning.shape b')).
  { rewrite Hshape. rewrite <- Hfit in Hall |- *.
    destruct (getitem_shape_in_range _ _ Hall) as [sh' [Hsh' Hp]].
    destruct (Map.hist m) as [a | a]; cbn [hist_getitem hist_shape] in *;
      unfold nd_getitem; rewrite Hsh'; cbn [bind]; eexists;
      (split; [reflexivity | exact Hp]). }
  destruct Hsub as [h [-> Hp]]. cbn [bind].
  assert (Hre : exists h', hist_reshape h (Binning.shape b') = Ok h'
                           /\ hist_shape h' = Binning.shape b').
  { destruct h as [a | a]; cbn [hist_reshape hist_shape] in *;
      unfold np_reshape; apply Nat.eqb_eq in Hp; rewrite Hp; cbn [bind];
      eexists; (split; reflexivity). }
  destruct Hre as [h' [-> Hh']]. cbn [bind].
  rewrite new_obj_run by (cbn [Map.has_key Map.u_hist Map.u_binning]; exact Hh').
  eexists. split; [reflexivity |].
  unfold fits.
  cbn [Map.name Map.hist Map.binning Map.has_key Map.u_name Map.u_hist
       Map.u_binning].
  split; [reflexivity | exact Hh'].
Qed.

(** X24.  A tuple of bin indices is applied to every member of a map set.
    When the members fit their binnings and the tuple has one component in
    range for each of their axes, the outcome depends on the length of the
    tuple alone: a pair returns a new map set, nameless and collating by
    name, whose member at each position is the member of [self] at that
    position indexed by the pair, under the same name; a tuple of one
    component raises [TypeError] and any other length raises [IndexError],
    although each member can be indexed by the tuple. *)
Theorem mapset_getitem_bins (S : MapSet.t) (idx : list index_item) :
  (forall a, In a (MapSet.maps S) ->
             fits a /\ Forall2 in_range (Binning.shape (Map.binning a)) idx) ->
  (forall a, In a (MapSet.maps S) ->
             exists r, Map.__getitem__ a (ITuple idx) = Ok r)
  /\ (List.length idx = 2 ->
      exists R,
        MapSet.__getitem__ S (MapSet.ByBins idx) = Ok (MapSet.GotMapSet R)
        /\ MapSet.name R = None
        /\ MapSet.collate_by_name R = true
        /\ MapSet.names R = MapSet.names S
        /\ forall i a, nth_error (MapSet.maps S) i = Some a ->
             exists r, Map.__getitem__ a (ITuple idx) = Ok r
                       /\ nth_error (MapSet.maps R) i = Some r)
  /\ (List.length idx = 1 ->
      MapSet.__getitem__ S (MapSet.ByBins idx)
      = Raise (TypeError "tuple indices must be integers, not tuple"))
  /\ (List.length idx <> 1 -> List.length idx <> 2 ->
      MapSet.__getitem__ S (MapSet.ByBins idx)
      = Raise (IndexError "too many indices for 2D hist")).
Proof.
  intros Hall.
  assert (Hmember : forall a, In a (MapSet.maps S) ->
            exists r, Map.__getitem__ a (ITuple idx) = Ok r
                      /\ Map.name r = Map.name a /\ fits r).
  { intros a Ha. destruct (Hall a Ha) as [Hfit Hin].
    apply getitem_in_range_returns; assumption. }
  split; [| split; [| split]].
  - intros a Ha. destruct (Hmember a Ha) as [r [Hr _]]. exists r. exact Hr.
  - intros Hlen. cbn [MapSet.__getitem__]. rewrite Hlen. cbn [Nat.eqb].
    destruct (mapM_run (fun m => Map.__getitem__ m (ITuple idx)) (MapSet.maps S))
      as [ms Hms].
    { intros a Ha. destruct (Hmember a Ha) as [r [Hr _]]. exists r. exact Hr. }
    rewrite Hms. cbn [bind]. rewrite mapset_of_maps. cbn [bind].
    eexists. split; [reflexivity |].
    cbn [MapSet.name MapSet.collate_by_name MapSet.maps].
    split; [reflexivity | split; [reflexivity | split]].
    + unfold MapSet.names. cbn [MapSet.maps]. apply nth_error_ext. intros i.
      rewrite !nth_error_map.
      destruct (nth_error (MapSet.maps S) i) as [a |] eqn:Ha.
      * destruct (mapM_nth _ _ _ Hms i a Ha) as [r [Hr ->]].
        destruct (Hmember a (nth_error_In _ _ Ha)) as [r' [Hr' [Hn _]]].
        simpl. congruence.
      * apply nth_error_None in Ha. rewrite <- (mapM_length _ _ _ Hms) in Ha.
        apply nth_error_None in Ha. rewrite Ha. reflexivity.
    + intros i a Ha. exact (mapM_nth _ _ _ Hms i a Ha).
  - intros Hlen. cbn [MapSet.__getitem__]. rewrite Hlen. reflexivity.
  - intros H1 H2. cbn [MapSet.__getitem__].
    destruct (Nat.eqb_spec (List.length idx) 1) as [E | _]; [contradiction |].
    destruct (Nat.eqb_spec (List.length idx) 2) as [E | _]; [contradiction |].
    reflexivity.
Qed.

(** The first row of the two members of a set, and the one bin of a set
    with a one-dimensional member. *)
Lemma mapset_getitem_bins_witness :
  (exists R,
      MapSet.__getitem__ Examples.set_by_num
        (MapSet.ByBins [IInt 0; ISlice 0 3]) = Ok (MapSet.GotMapSet R)
      /\ MapSet.collate_by_name R = true
      /\ MapSet.names R = ["threes"; "fours"])
  /\ MapSet.__getitem__
       (MapSet.mk [Examples.map_negative] None "{\rm None}" true false)
       (MapSet.ByBins [IInt 0])
     = Raise (TypeError "tuple indices must be integers, not tuple").
Proof.
  split.
  - destruct (mapset_getitem_bins Examples.set_by_num [IInt 0; ISlice 0 3])
      as [_ [Hpair _]].
    + intros a [<- | [<- | []]]; (split; [reflexivity | repeat constructor]).
    + destruct (Hpair eq_refl) as [R [HR [_ [Hc [Hn _]]]]].
      exists R. repeat split; assumption.
  - destruct (mapset_getitem_bins
                (MapSet.mk [Examples.map_negative] None "{\rm None}" true false)
                [IInt 0]) as [_ [_ [Hone _]]].
    + intros a [<- | []]; (split; [reflexivity | repeat constructor]).
    + exact (Hone eq_refl).
Defined.

(** ** Serializable state of a map set *)

Lemma mapM_from_states (ms : list Map.t) :
  (forall a, In a ms -> hist_wf (Map.hist a) /\ fits a) ->
  mapM (fun m => match m with
                 | MapSet.IsMap mp => Ok mp
                 | MapSet.IsState state => Map.from_state state
                 end)
       (map MapSet.IsState (map Map._serializable_state ms))
  = Ok (map read_back ms).
Proof.
  induction ms as [| m ms IH]; intros Hall; [reflexivity |].
  cbn [map mapM].
  destruct (Hall m (or_introl eq_refl)) as [Hwf Hfit].
  rewrite (from_serializable_state m Hwf Hfit). cbn [bind].
  rewrite IH by (intros a Ha; apply Hall; right; exact Ha).
  reflexivity.
Qed.

(** X25.  The constructor called on the serializable state of a map set
    whose members fit their binnings returns a map set with the name, the
    label and the collation by name of the original and with its members
    read back one by one in their order; collation by number is set to the
    opposite of collation by name.  A set that the constructor built, whose
    members come back unchanged, is returned as it was. *)
Theorem mapset_state_round_trip (S : MapSet.t) :
  (forall a, In a (MapSet.maps S) -> hist_wf (Map.hist a) /\ fits a) ->
  MapSetExtra.from_state (MapSetExtra._serializable_state S)
  = Ok (MapSet.mk (map read_back (MapSet.maps S)) (MapSet.name S) (MapSet.tex S)
                  (MapSet.collate_by_name S) (negb (MapSet.collate_by_name S)))
  /\ (MapSet.collate_by_num S = negb (MapSet.collate_by_name S) ->
      (forall a, In a (MapSet.maps S) -> read_back a = a) ->
      MapSetExtra.from_state (MapSetExtra._serializable_state S) = Ok S).
Proof.
  intros Hall.
  assert (Hstate : MapSetExtra.from_state (MapSetExtra._serializable_state S)
                   = Ok (MapSet.mk (map read_back (MapSet.maps S))
                                   (MapSet.name S) (MapSet.tex S)
                                   (MapSet.collate_by_name S)
                                   (negb (MapSet.collate_by_name S)))).
  { unfold MapSetExtra.from_state, MapSetExtra._serializable_state,
      MapSet.__init__.
    cbn [mss_maps mss_name mss_tex mss_collate_by_name].
    rewrite (mapM_from_states _ Hall). reflexivity. }
  split; [exact Hstate |].
  intros Hnum Hsame. rewrite Hstate. f_equal.
  destruct S as [ms n tx cn cm]. cbn in *. subst cm. f_equal.
  rewrite <- (map_id ms) at 2. apply map_ext_in. exact Hsame.
Qed.

Lemma mapset_state_round_trip_witness :
  MapSetExtra.from_state (MapSetExtra._serializable_state Examples.set_xy)
  = Ok Examples.set_xy.
Proof.
  destruct (mapset_state_round_trip Examples.set_xy) as [_ Hsame].
  - intros a [<- | [<- | []]]; (split; reflexivity).
  - apply Hsame; [reflexivity |].
    intros a [<- | [<- | []]]; vm_compute; reflexivity.
Defined.

(** ** Poisson errors on every member *)

(** A map that carries Poisson errors refuses them a second time. *)
Lemma set_poisson_errors_twice (m m' : Map.t) :
  Map.set_poisson_errors m = Ok m' ->
  exists e, Map.set_poisson_errors m' = Raise e.
Proof.
  unfold Map.set_poisson_errors. intros Hm.
  inv_bind Hm. rename a into sq. inv_bind Hm. rename a into h.
  injection Hm as <-.
  destruct (Map.hist m) as [v | v]; [| discriminate].
  cbn [unp_uarray] in *. inv_bind Ha0. injection Ha0 as <-.
  unfold Map.set_hist. cbn [Map.hist np_sqrt bind]. eexists. reflexivity.
Qed.

(** The calls on members that are different objects with bare arrays all
    return: each of these objects gets its Poisson errors and no other
    object is touched. *)
Lemma set_poisson_errors_calls_prefix (pre rest : list MapSetExtra.obj_id) :
  forall s : MapSetExtra.heap,
    NoDup pre ->
    (forall j, In j pre -> exists v, Map.hist (s j) = HFloat v /\ nd_wf v) ->
    exists s',
      MapSetExtra.set_poisson_errors_calls (pre ++ rest) s
      = MapSetExtra.set_poisson_errors_calls rest s'
      /\ (forall j, In j pre -> Map.set_poisson_errors (s j) = Ok (s' j))
      /\ (forall j, ~ In j pre -> s' j = s j).
Proof.
  induction pre as [| i pre IH]; intros s Hnd Hbare.
  - exists s. split; [reflexivity |]. split; [intros j [] | reflexivity].
  - inversion Hnd as [| i' pre' Hi Hnd']; subst.
    destruct (Hbare i (or_introl eq_refl)) as [v [Hv Hwf]].
    pose proof (set_poisson_errors_bare (s i) v Hv Hwf) as Hcall.
    set (m' := Map.set_hist (s i)
                 (HUnc (mk_ndarray (nd_shape v)
                          (map (fun x => (x, fsqrt x)) (nd_data v))))) in *.
    assert (Hother : forall j, j <> i -> MapSetExtra.heap_set s i m' j = s j).
    { intros j Hj. unfold MapSetExtra.heap_set.
      destruct (Nat.eqb_spec j i); [contradiction | reflexivity]. }
    destruct (IH (MapSetExtra.heap_set s i m') Hnd') as [s' [Hrun [Hupd Hkeep]]].
    { intros j Hj. rewrite Hother by (intros ->; contradiction).
      apply Hbare. right. exact Hj. }
    exists s'. split; [| split].
    + cbn [app MapSetExtra.set_poisson_errors_calls]. rewrite Hcall. exact Hrun.
    + intros j [<- | Hj].
      * rewrite Hcall, (Hkeep i Hi). unfold MapSetExtra.heap_set.
        rewrite Nat.eqb_refl. reflexivity.
      * rewrite <- (Hupd j Hj).
        rewrite Hother by (intros ->; contradiction). reflexivity.
    + intros j Hj. rewrite Hkeep by (intros Hin; apply Hj; right; exact Hin).
      apply Hother. intros ->. apply Hj. left. reflexivity.
Qed.

(** X26.  [MapSet.set_poisson_errors] updates the member objects in their
    order and is not undone by a failure.  Let the members before position
    [k] be different objects with bare arrays, and let the member at [k]
    be one of them again, or an object on which [Map.set_poisson_errors]
    raises.  Then the call on the set raises; the objects before [k] carry
    their Poisson errors, at every position that holds them, and every
    other object is as it was. *)
Theorem mapset_poisson_errors_stop_at_failure (self : MapSetExtra.mapset_obj)
        (s : MapSetExtra.heap) (k : nat) (i : MapSetExtra.obj_id) :
  nth_error (MapSetExtra.obj_maps self) k = Some i ->
  NoDup (firstn k (MapSetExtra.obj_maps self)) ->
  (forall j, In j (firstn k (MapSetExtra.obj_maps self)) ->
             exists v, Map.hist (s j) = HFloat v /\ nd_wf v) ->
  In i (firstn k (MapSetExtra.obj_maps self))
  \/ (exists e, Map.set_poisson_errors (s i) = Raise e) ->
  exists s' e,
    MapSetExtra.set_poisson_errors self s = (s', Raise e)
    /\ (forall j, In j (firstn k (MapSetExtra.obj_maps self)) ->
                  Map.set_poisson_errors (s j) = Ok (s' j))
    /\ (forall j, ~ In j (firstn k (MapSetExtra.obj_maps self)) -> s' j = s j).
Proof.
  intros Hk Hnd Hbare Hfail.
  assert (Hsplit : MapSetExtra.obj_maps self
                   = firstn k (MapSetExtra.obj_maps self)
                     ++ i :: skipn (S k) (MapSetExtra.obj_maps self)).
  { clear -Hk. revert k Hk.
    induction (MapSetExtra.obj_maps self) as [| x xs IH]; intros [| k] Hk;
      try discriminate Hk.
    - injection Hk as ->. reflexivity.
    - cbn [firstn skipn app]. f_equal. apply IH. exact Hk. }
  destruct (set_poisson_errors_calls_prefix
              (firstn k (MapSetExtra.obj_maps self))
              (i :: skipn (S k) (MapSetExtra.obj_maps self)) s Hnd Hbare)
    as [s' [Hrun [Hupd Hkeep]]].
  assert (Hraise : exists e, Map.set_poisson_errors (s' i) = Raise e).
  { destruct Hfail as [Hin | [e He]].
    - apply (set_poisson_errors_twice (s i)). apply Hupd. exact Hin.
    - destruct (in_dec Nat.eq_dec i (firstn k (MapSetExtra.obj_maps self)))
        as [Hin | Hnot].
      + apply (set_poisson_errors_twice (s i)). apply Hupd. exact Hin.
      + exists e. rewrite (Hkeep i Hnot). exact He. }
  destruct Hraise as [e He].
  exists s', e. split; [| split; assumption].
  unfold MapSetExtra.set_poisson_errors.
  rewrite Hsplit at 1. rewrite Hrun.
  cbn [MapSetExtra.set_poisson_errors_calls]. rewrite He. reflexivity.
Qed.

(** One object held at the positions 0 and 2, around a map that has errors
    already: the call raises at position 1, and both positions 0 and 2
    show the Poisson errors.  A set that holds one object twice raises at
    the second position. *)
Lemma mapset_poisson_errors_stop_at_failure_witness :
  (exists s' e x',
      MapSetExtra.set_poisson_errors
        (MapSetExtra.mk_obj [0; 1; 0] None "{\rm None}" true false)
        (fun j => if Nat.eqb j 1 then Examples.map_unc else Examples.named "x" 4)
      = (s', Raise e)
      /\ Map.set_poisson_errors (Examples.named "x" 4) = Ok x'
      /\ MapSet.maps
           (MapSetExtra.view s'
              (MapSetExtra.mk_obj [0; 1; 0] None "{\rm None}" true false))
         = [x'; Examples.map_unc; x'])
  /\ (exists s' e,
        MapSetExtra.set_poisson_errors
          (MapSetExtra.mk_obj [0; 0] None "{\rm None}" true false)
          (fun _ => Examples.named "x" 4)
        = (s', Raise e)).
Proof.
  split.
  - destruct (mapset_poisson_errors_stop_at_failure
                (MapSetExtra.mk_obj [0; 1; 0] None "{\rm None}" true false)
                (fun j => if Nat.eqb j 1 then Examples.map_unc
                          else Examples.named "x" 4)
                1 1 eq_refl)
      as [s' [e [Hrun [Hupd Hkeep]]]].
    + repeat constructor. intros [].
    + intros j [<- | []]. eexists. split; reflexivity.
    + right. eexists. reflexivity.
    + assert (Hx : exists x', Map.set_poisson_errors (Examples.named "x" 4)
                              = Ok x') by (eexists; vm_compute; reflexivity).
      destruct Hx as [x' Hx].
      exists s', e, x'. split; [exact Hrun | split; [exact Hx |]].
      pose proof (Hupd 0 (or_introl eq_refl)) as H0. cbn [Nat.eqb] in H0.
      rewrite Hx in H0. injection H0 as H0.
      assert (H1 : s' 1 = Examples.map_unc).
      { rewrite Hkeep; [reflexivity |]. intros [E | []]. discriminate E. }
      unfold MapSetExtra.view.
      cbn [MapSet.maps MapSetExtra.obj_maps map]. rewrite <- H0, H1.
      reflexivity.
  - destruct (mapset_poisson_errors_stop_at_failure
                (MapSetExtra.mk_obj [0; 0] None "{\rm None}" true false)
                (fun _ => Examples.named "x" 4) 1 0 eq_refl)
      as [s' [e [Hrun _]]].
    + repeat constructor. intros [].
    + intros j [<- | []]. eexists. split; reflexivity.
    + left. left. reflexivity.
    + exists s', e. exact Hrun.
Defined.

(** X27.  On a set with at least one member, whose members are different
    objects with bare arrays, [MapSet.set_poisson_errors] returns [None]
    and leaves every member with its name, its binning, its hash and its
    values as they were and the square roots of the values as standard
    deviations; no other object is touched. *)
Theorem mapset_poisson_errors_all (self : MapSetExtra.mapset_obj)
        (s : MapSetExtra.heap) :
  MapSetExtra.obj_maps self <> [] ->
  NoDup (MapSetExtra.obj_maps self) ->
  (forall j, In j (MapSetExtra.obj_maps self) ->
             exists v, Map.hist (s j) = HFloat v /\ nd_wf v) ->
  exists s',
    MapSetExtra.set_poisson_errors self s = (s', Ok None)
    /\ (forall j, In j (MapSetExtra.obj_maps self) ->
          Map.set_poisson_errors (s j) = Ok (s' j)
          /\ Map.name (s' j) = Map.name (s j)
          /\ Map.binning (s' j) = Map.binning (s j)
          /\ Map.hash (s' j) = Map.hash (s j)
          /\ HFloat (unp_nominal_values (Map.hist (s' j))) = Map.hist (s j)
          /\ unp_std_devs (Map.hist (s' j))
             = nd_map fsqrt (unp_nominal_values (Map.hist (s j))))
    /\ (forall j, ~ In j (MapSetExtra.obj_maps self) -> s' j = s j)
    /\ MapSet.names (MapSetExtra.view s' self)
       = MapSet.names (MapSetExtra.view s self).
Proof.
  intros Hne Hnd Hbare.
  destruct (set_poisson_errors_calls_prefix (MapSetExtra.obj_maps self) [] s
              Hnd Hbare) as [s' [Hrun [Hupd Hkeep]]].
  rewrite app_nil_r in Hrun.
  assert (Hmember : forall j, In j (MapSetExtra.obj_maps self) ->
            Map.set_poisson_errors (s j) = Ok (s' j)
            /\ Map.name (s' j) = Map.name (s j)
            /\ Map.binning (s' j) = Map.binning (s j)
            /\ Map.hash (s' j) = Map.hash (s j)
            /\ HFloat (unp_nominal_values (Map.hist (s' j))) = Map.hist (s j)
            /\ unp_std_devs (Map.hist (s' j))
               = nd_map fsqrt (unp_nominal_values (Map.hist (s j)))).
  { intros j Hj. pose proof (Hupd j Hj) as Hcall.
    split; [exact Hcall |].
    destruct (Hbare j Hj) as [v [Hv Hwf]].
    rewrite (set_poisson_errors_bare (s j) v Hv Hwf) in Hcall.
    injection Hcall as <-. unfold Map.set_hist.
    cbn [Map.name Map.binning Map.hash Map.hist].
    rewrite Hv. cbn [unp_nominal_values unp_std_devs].
    unfold nd_map. cbn [nd_shape nd_data]. rewrite !map_map. cbn [fst snd].
    split; [reflexivity | split; [reflexivity | split; [reflexivity |]]].
    split; [| reflexivity].
    rewrite map_id. destruct v; reflexivity. }
  exists s'. split; [| split; [exact Hmember | split; [exact Hkeep |]]].
  - unfold MapSetExtra.set_poisson_errors. rewrite Hrun.
    cbn [MapSetExtra.set_poisson_errors_calls].
    destruct (MapSetExtra.obj_maps self); [contradiction | reflexivity].
  - unfold MapSet.names, MapSetExtra.view. cbn [MapSet.maps].
    rewrite !map_map. apply map_ext_in. intros j Hj.
    destruct (Hmember j Hj) as [_ [Hn _]]. exact Hn.
Qed.

Lemma mapset_poisson_errors_all_witness :
  exists s',
    MapSetExtra.set_poisson_errors
      (MapSetExtra.mk_obj [0; 1] (Some "a") "{\rm a}" true false)
      (fun j => if Nat.eqb j 0 then Examples.named "x" 1
                else Examples.named "y" 2)
    = (s', Ok None)
    /\ unp_std_devs (Map.hist (s' 1)) = nd_map fsqrt (Examples.full [2; 3] 2).
Proof.
  destruct (mapset_poisson_errors_all
              (MapSetExtra.mk_obj [0; 1] (Some "a") "{\rm a}" true false)
              (fun j => if Nat.eqb j 0 then Examples.named "x" 1
                        else Examples.named "y" 2))
    as [s' [Hrun [Hmember _]]].
  - discriminate.
  - repeat constructor; [intros [E | []]; discriminate E | intros []].
  - intros j [<- | [<- | []]]; eexists; (split; reflexivity).
  - exists s'. split; [exact Hrun |].
    destruct (Hmember 1 (or_intror (or_introl eq_refl)))
      as [_ [_ [_ [_ [_ Hstd]]]]].
    exact Hstd.
Defined.

(** ** The coordinates of the bins *)

Lemma ravel_unravel (sh : list nat) :
  forall i, i < prod_shape sh -> ravel_index sh (Map.unravel_index i sh) = i.
Proof.
  induction sh as [| n sh IH]; intros i Hi.
  - cbn in Hi. cbn. lia.
  - cbn [prod_shape fold_right] in Hi. fold (prod_shape sh) in Hi.
    assert (Hk : prod_shape sh <> 0) by (intros Hz; rewrite Hz in Hi; lia).
    cbn [Map.unravel_index ravel_index].
    rewrite IH by (apply Nat.mod_upper_bound; exact Hk).
    rewrite (Nat.div_mod_eq i (prod_shape sh)) at 3. lia.
Qed.

Lemma unravel_ravel (sh idx : list nat) :
  within sh idx ->
  ravel_index sh idx < prod_shape sh
  /\ Map.unravel_index (ravel_index sh idx) sh = idx.
Proof.
  induction 1 as [| n x sh idx Hx _ [IHlt IHeq]].
  - cbn. split; [lia | reflexivity].
  - cbn [prod_shape fold_right ravel_index Map.unravel_index].
    fold (prod_shape sh).
    assert (Hk : prod_shape sh <> 0) by lia.
    split; [nia |].
    rewrite Nat.div_add_l by exact Hk.
    rewrite (Nat.div_small _ _ IHlt), Nat.add_0_r.
    rewrite Nat.add_comm, Nat.Div0.mod_add, (Nat.mod_small _ _ IHlt), IHeq.
    reflexivity.
Qed.

Lemma NoDup_map_injective {A B : Type} (f : A -> B) (xs : list A) :
  (forall x y, In x xs -> In y xs -> f x = f y -> x = y) ->
  NoDup xs -> NoDup (map f xs).
Proof.
  intros Hinj Hnd. induction Hnd as [| x xs Hx Hnd IH]; [constructor |].
  cbn [map]. constructor.
  - intros Hin. apply in_map_iff in Hin. destruct Hin as [y [Hy Hin]].
    apply Hx. rewrite <- (Hinj y x); [exact Hin | right; exact Hin
                                      | left; reflexivity | exact Hy].
  - apply IH. intros a b Ha Hb. apply Hinj; right; assumption.
Qed.

(** X28.  [iterindices] yields the coordinates of the bins without a
    repetition and without a gap: as many tuples as the array has items,
    pairwise different, and a tuple is yielded exactly when each of its
    components lies within its axis.  They come in the order of [iterbins]:
    the parent indexers of the maps that [iterbins] yields are the tuples
    of [iterindices]. *)
Theorem iterindices_enumerate_bins (m : Map.t) :
  List.length (MapExtra.iterindices m)
  = prod_shape (hist_shape (Map.hist m))
  /\ NoDup (MapExtra.iterindices m)
  /\ (forall idx, In idx (MapExtra.iterindices m)
                  <-> within (hist_shape (Map.hist m)) idx)
  /\ (forall bins, Map.iterbins m = Ok bins ->
                   map Map.parent_indexer bins
                   = map Some (MapExtra.iterindices m)).
Proof.
  unfold MapExtra.iterindices. cbv zeta.
  set (sh := hist_shape (Map.hist m)).
  split; [rewrite length_map, length_seq; reflexivity |].
  split; [| split].
  - apply NoDup_map_injective; [| apply seq_NoDup].
    intros i j Hi Hj Hij. apply in_seq in Hi, Hj.
    rewrite <- (ravel_unravel sh i) by lia.
    rewrite <- (ravel_unravel sh j) by lia.
    rewrite Hij. reflexivity.
  - intros idx. rewrite in_map_iff. split.
    + intros [i [<- Hi]]. apply in_seq in Hi.
      apply unravel_index_in_range. lia.
    + intros Hin. destruct (unravel_ravel sh idx Hin) as [Hlt Heq].
      exists (ravel_index sh idx). split; [exact Heq |].
      apply in_seq. lia.
  - intros bins Hbins. apply nth_error_ext. intros i.
    rewrite !nth_error_map.
    pose proof (mapM_length _ _ _ Hbins) as Hlen. rewrite length_seq in Hlen.
    fold sh in Hlen.
    destruct (nth_error bins i) as [b |] eqn:Hb.
    + destruct (iterbins_nth m b bins i Hbins Hb) as [Hi [h [bn [_ [_ ->]]]]].
      fold sh in Hi. rewrite nth_error_seq.
      apply Nat.ltb_lt in Hi. rewrite Hi. reflexivity.
    + apply nth_error_None in Hb. rewrite Hlen in Hb.
      rewrite nth_error_seq.
      destruct (Nat.ltb_spec i (prod_shape sh)) as [Hlt | _]; [lia |].
      reflexivity.
Qed.

Lemma iterindices_enumerate_bins_witness :
  In [1; 2] (MapExtra.iterindices Examples.map_x)
  /\ exists bins,
       Map.iterbins Examples.map_x = Ok bins
       /\ map Map.parent_indexer bins
          = map Some [[0; 0]; [0; 1]; [0; 2]; [1; 0]; [1; 1]; [1; 2]].
Proof.
  destruct (iterindices_enumerate_bins Examples.map_x) as [_ [_ [Hin Hbins]]].
  split.
  - apply Hin. repeat constructor.
  - assert (Hrun : exists bins, Map.iterbins Examples.map_x = Ok bins)
      by (eexists; vm_compute; reflexivity).
    destruct Hrun as [bins Hrun]. exists bins. split; [exact Hrun |].
    exact (Hbins bins Hrun).
Defined.

(** ** Square roots *)

(** X29.  [sqrt] on a map with a bare array that fits its binning returns
    a new map with the name, the binning, the hash and the flag of the
    original, whose values are the standard deviations that
    [set_poisson_errors] attaches to the original.  On a map that carries
    uncertainties both raise. *)
Theorem sqrt_is_poisson_error (m : Map.t) :
  hist_wf (Map.hist m) -> fits m ->
  match Map.hist m with
  | HFloat a =>
      exists r p,
        MapExtra.sqrt m = Ok r
        /\ Map.set_poisson_errors m = Ok p
        /\ Map.hist r = HFloat (unp_std_devs (Map.hist p))
        /\ Map.name r = Map.name m
        /\ Map.binning r = Map.binning m
        /\ Map.hash r = Map.hash m
        /\ Map.full_comparison r = Map.full_comparison m
  | HUnc _ =>
      (exists e, MapExtra.sqrt m = Raise e)
      /\ exists e, Map.set_poisson_errors m = Raise e
  end.
Proof.
  intros Hwf Hfit. unfold fits in Hfit.
  destruct (Map.hist m) as [a | a] eqn:Hh.
  - rewrite (set_poisson_errors_bare m a Hh Hwf).
    unfold MapExtra.sqrt. rewrite Hh. cbn [np_sqrt bind].
    rewrite new_obj_run
      by (cbn [Map.has_key Map.u_hist Map.u_binning hist_shape nd_map nd_shape];
          exact Hfit).
    eexists. eexists. split; [reflexivity | split; [reflexivity |]].
    unfold Map.set_hist.
    cbn [Map.name Map.hist Map.binning Map.hash Map.full_comparison
         Map.has_key Map.u_name Map.u_hist Map.u_binning Map.u_hash
         Map.u_full_comparison unp_std_devs].
    repeat split.
    unfold nd_map. cbn [nd_shape nd_data]. rewrite map_map. reflexivity.
  - unfold MapExtra.sqrt, Map.set_poisson_errors, Map.new_obj. rewrite Hh.
    split; eexists; reflexivity.
Qed.

Lemma sqrt_is_poisson_error_witness :
  exists r p,
    MapExtra.sqrt Examples.map_twos = Ok r
    /\ Map.set_poisson_errors Examples.map_twos = Ok p
    /\ Map.hist r = HFloat (unp_std_devs (Map.hist p))
    /\ Map.hash r = Some 7%Z.
Proof.
  pose proof (sqrt_is_poisson_error Examples.map_twos eq_refl eq_refl) as Hs.
  cbn [Map.hist Examples.map_twos] in Hs.
  destruct Hs as [r [p [Hr [Hp [Hh [_ [_ [Hhash _]]]]]]]].
  exists r, p. repeat split; assumption.
Defined.
